(** * University dating app: matching engine and chat store

    A shallow embedding of the Express/Mongoose routes of the repository:
    - [routes/match.js]  (candidate query, like, dislike, unmatch, haversine),
    - [routes/chat.js]   (get-or-create chat, message pages, read receipts,
                          message deletion),
    - [models/User.js] and [models/Chat.js] (the two document schemas).

    Collections are finite maps from document ids to documents.  A route
    handler becomes a function from the collections it reads to a [Result]
    holding the response and the collections it saved.  Every handler is run
    to completion before the next one starts. *)

From Stdlib Require Import ZArith QArith Qreals Reals Machin Lra Lia List.
From Stdlib Require Import Sorting.Sorted Permutation.
From stdpp Require Import gmap list strings sorting.

(** ** Common types *)

(** A MongoDB [ObjectId] (a 96-bit value).  The routes compare ids through
    their hexadecimal string form, which is injective, so equality of ids is
    equality of the values. *)
Definition ObjectId := N.
Bind Scope N_scope with ObjectId.

(** A JavaScript [Date], as milliseconds since the epoch. *)
Definition Time := Z.
Bind Scope Z_scope with Time.

(** The failures a handler reports (HTTP status and message in the source). *)
Inductive Failure : Type :=
| NotFound          (* 404 'User not found' / 'Chat not found' / 'Message not found' *)
| AlreadyLiked      (* 400 'User already liked' *)
| AlreadyDisliked   (* 400 'User already disliked' *)
| ProfileIncomplete (* 400 'Please complete your profile first' *)
| NotMatched        (* 403 'You can only chat with matched users' *)
| Forbidden         (* 403 'Access denied' / 'You can only delete your own messages' *)
| ValidationError   (* 400 with the validator's error list *)
| ServerError.      (* 500 'Server error': an exception reached the catch block *)

Inductive Result (A : Type) : Type :=
| Ok (a : A)
| Err (e : Failure).
Arguments Ok {A} a.
Arguments Err {A} e.

(** [Array.prototype.includes] on an array of ids. *)
Definition includes (l : list ObjectId) (x : ObjectId) : bool :=
  bool_decide (x ∈ l).

(** Number of occurrences of an id in an array of ids. *)
Definition occurrences (x : ObjectId) (l : list ObjectId) : nat :=
  length (filter (λ y, y = x) l).

(** ** models/User.js *)

Inductive Gender : Type := male | female | non_binary.
Inductive Interest : Type := only_male | only_female | both.

(** The strings behind the two enumerations: ['male'] and ['female'] occur in
    both, ['non-binary'] only as a gender and ['both'] only as an interest. *)
Definition interest_is_gender (i : Interest) (g : Gender) : bool :=
  match i, g with
  | only_male, male => true
  | only_female, female => true
  | _, _ => false
  end.

Definition is_both (i : Interest) : bool :=
  match i with both => true | _ => false end.

Record Photo : Type := { url : string; isMain : bool }.

(** [location.coordinates] is [[longitude, latitude]], default [[0, 0]]. *)
Record Location : Type := { longitude : Q; latitude : Q }.

Record Preferences : Type := {
  ageRange_min : Z;   (* default 18 *)
  ageRange_max : Z;   (* default 30 *)
  maxDistance : Z     (* kilometres, default 50 *)
}.

Record User : Type := {
  isEmailVerified : bool;
  firstName : string;
  lastName : string;
  age : Z;
  gender : Gender;
  interestedIn : Interest;
  university : string;
  course : string;
  year : Z;
  bio : string;             (* the empty string when absent: both are falsy *)
  photos : list Photo;
  location : Location;
  preferences : Preferences;
  lastActive : Time;
  isOnline : bool;
  likedUsers : list ObjectId;
  dislikedUsers : list ObjectId;
  matches : list ObjectId;
  profileCompleted : bool
}.

(** The [users] collection. *)
Abbreviation Directory := (gmap ObjectId User).

Definition set_likedUsers (l : list ObjectId) (u : User) : User :=
  {| isEmailVerified := isEmailVerified u; firstName := firstName u;
     lastName := lastName u; age := age u; gender := gender u;
     interestedIn := interestedIn u; university := university u;
     course := course u; year := year u; bio := bio u; photos := photos u;
     location := location u; preferences := preferences u;
     lastActive := lastActive u; isOnline := isOnline u;
     likedUsers := l; dislikedUsers := dislikedUsers u;
     matches := matches u; profileCompleted := profileCompleted u |}.

Definition set_dislikedUsers (l : list ObjectId) (u : User) : User :=
  {| isEmailVerified := isEmailVerified u; firstName := firstName u;
     lastName := lastName u; age := age u; gender := gender u;
     interestedIn := interestedIn u; university := university u;
     course := course u; year := year u; bio := bio u; photos := photos u;
     location := location u; preferences := preferences u;
     lastActive := lastActive u; isOnline := isOnline u;
     likedUsers := likedUsers u; dislikedUsers := l;
     matches := matches u; profileCompleted := profileCompleted u |}.

Definition set_matches (l : list ObjectId) (u : User) : User :=
  {| isEmailVerified := isEmailVerified u; firstName := firstName u;
     lastName := lastName u; age := age u; gender := gender u;
     interestedIn := interestedIn u; university := university u;
     course := course u; year := year u; bio := bio u; photos := photos u;
     location := location u; preferences := preferences u;
     lastActive := lastActive u; isOnline := isOnline u;
     likedUsers := likedUsers u; dislikedUsers := dislikedUsers u;
     matches := l; profileCompleted := profileCompleted u |}.

(** JavaScript truthiness of a string and of a number. *)
Definition truthy_string (s : string) : bool := negb (bool_decide (s = EmptyString)).
Definition truthy_number (z : Z) : bool := negb (z =? 0)%Z.

(** [userSchema.methods.isProfileComplete].  [gender] and [interestedIn] are
    required enumeration strings, never empty. *)
Definition isProfileComplete (u : User) : bool :=
  truthy_string (firstName u) && truthy_string (lastName u) &&
  truthy_number (age u) && truthy_string (university u) &&
  truthy_string (bio u) && bool_decide (0 < length (photos u))%nat.

(** ** routes/match.js: like, dislike, unmatch *)

(** The [matchedUser] object of the like response. *)
Record MatchedUser : Type := {
  mu_id : ObjectId;
  mu_firstName : string;
  mu_lastName : string;
  mu_photos : list Photo;
  mu_isOnline : bool;
  mu_lastActive : Time
}.

Record LikeResponse : Type := {
  isMatch : bool;
  matchedUser : option MatchedUser
}.

Definition matchedUser_of (id : ObjectId) (u : User) : MatchedUser :=
  {| mu_id := id; mu_firstName := firstName u; mu_lastName := lastName u;
     mu_photos := photos u; mu_isOnline := isOnline u;
     mu_lastActive := lastActive u |}.

(** [router.post('/like/:userId')].  [currentUser] and [targetUser] are two
    documents loaded separately; on a mutual like the target is saved first,
    then the current user. *)
Definition like (s : Directory) (actor target : ObjectId)
  : Result (Directory * LikeResponse) :=
  match s !! actor, s !! target with
  | Some currentUser, Some targetUser =>
      if includes (likedUsers currentUser) target then Err AlreadyLiked
      else
        let currentUser1 :=
          set_likedUsers (likedUsers currentUser ++ [target]) currentUser in
        if includes (likedUsers targetUser) actor then
          let currentUser2 :=
            set_matches (matches currentUser1 ++ [target]) currentUser1 in
          let targetUser1 :=
            set_matches (matches targetUser ++ [actor]) targetUser in
          Ok (<[actor := currentUser2]> (<[target := targetUser1]> s),
              {| isMatch := true;
                 matchedUser := Some (matchedUser_of target targetUser1) |})
        else
          Ok (<[actor := currentUser1]> s,
              {| isMatch := false; matchedUser := None |})
  | _, _ => Err NotFound
  end.

(** [router.post('/dislike/:userId')]: only the current user is loaded. *)
Definition dislike (s : Directory) (actor target : ObjectId)
  : Result Directory :=
  match s !! actor with
  | Some currentUser =>
      if includes (dislikedUsers currentUser) target then Err AlreadyDisliked
      else
        Ok (<[actor :=
                set_dislikedUsers (dislikedUsers currentUser ++ [target])
                  currentUser]> s)
  | None => Err NotFound
  end.

(** [ids.filter(id => id.toString() !== userId)]. *)
Definition without (x : ObjectId) (l : list ObjectId) : list ObjectId :=
  filter (λ id, id ≠ x) l.

(** [router.delete('/unmatch/:userId')]: the current user is saved first,
    then the target. *)
Definition unmatch (s : Directory) (actor target : ObjectId)
  : Result Directory :=
  match s !! actor, s !! target with
  | Some currentUser, Some targetUser =>
      let currentUser1 :=
        set_likedUsers (without target (likedUsers currentUser))
          (set_matches (without target (matches currentUser)) currentUser) in
      let targetUser1 :=
        set_likedUsers (without actor (likedUsers targetUser))
          (set_matches (without actor (matches targetUser)) targetUser) in
      Ok (<[target := targetUser1]> (<[actor := currentUser1]> s))
  | _, _ => Err NotFound
  end.

(** The relation between [matches] and [likedUsers] that the three handlers
    maintain: a user never matches itself, and every match was liked. *)
Definition user_ok (id : ObjectId) (u : User) : Prop :=
  (id ∉ matches u) ∧ Forall (λ x, x ∈ likedUsers u) (matches u).

Definition directory_ok (s : Directory) : Prop := map_Forall user_ok s.

#[global] Instance user_ok_dec id u : Decision (user_ok id u).
Proof. unfold user_ok. apply _. Defined.

(** ** routes/match.js: the haversine helper

    JavaScript numbers are read as real numbers and [Math.sin], [Math.cos],
    [Math.sqrt], [Math.atan2] and [Math.PI] as the mathematical functions
    and constant they approximate. *)

Module Geo.
Local Open Scope R_scope.

(** [Math.atan2(y, x)]: the angle of the point [(x, y)], in [(-PI, PI]]. *)
Definition atan2 (y x : R) : R :=
  if Rlt_dec 0 x then atan (y / x)
  else if Rlt_dec x 0 then
    if Rle_dec 0 y then atan (y / x) + PI else atan (y / x) - PI
  else if Rlt_dec 0 y then PI / 2
  else if Rlt_dec y 0 then - (PI / 2)
  else 0.

Definition deg2rad (deg : R) : R := deg * (PI / 180).

(** The quantity [a] of [calculateDistance], named for the proofs. *)
Definition hav (lat1 lon1 lat2 lon2 : R) : R :=
  sin (deg2rad (lat2 - lat1) / 2) * sin (deg2rad (lat2 - lat1) / 2) +
  cos (deg2rad lat1) * cos (deg2rad lat2) *
  sin (deg2rad (lon2 - lon1) / 2) * sin (deg2rad (lon2 - lon1) / 2).

Definition calculateDistance (lat1 lon1 lat2 lon2 : R) : R :=
  let R := 6371 in
  let dLat := deg2rad (lat2 - lat1) in
  let dLon := deg2rad (lon2 - lon1) in
  let a :=
    sin (dLat / 2) * sin (dLat / 2) +
    cos (deg2rad lat1) * cos (deg2rad lat2) *
    sin (dLon / 2) * sin (dLon / 2) in
  let c := 2 * atan2 (sqrt a) (sqrt (1 - a)) in
  let d := R * c in
  d.

(** [Math.round]: the nearest integer, halves rounded up. *)
Definition round (x : R) : Z := (up (x + / 2) - 1)%Z.

End Geo.

(** ** JavaScript array helpers *)

Section Arrays.
Context {A : Type}.

Fixpoint js_insert (cmp : A → A → Z) (x : A) (l : list A) : list A :=
  match l with
  | [] => [x]
  | y :: l' => if (cmp x y <=? 0)%Z then x :: y :: l' else y :: js_insert cmp x l'
  end.

(** [Array.prototype.sort(cmp)]: [a] comes before [b] when [cmp a b] is
    negative; the sort is stable, elements that compare equal keep their
    order. *)
Definition js_sort (cmp : A → A → Z) (l : list A) : list A :=
  foldr (js_insert cmp) [] l.

(** [Array.prototype.slice(start, end)]: a negative index counts from the
    end of the array, and both indices are clamped to the array. *)
Definition js_slice (l : list A) (start stop : Z) : list A :=
  let len := Z.of_nat (length l) in
  let k := if (start <? 0)%Z then Z.max (len + start) 0 else Z.min start len in
  let final := if (stop <? 0)%Z then Z.max (len + stop) 0 else Z.min stop len in
  take (Z.to_nat (final - k)) (drop (Z.to_nat k) l).

(** The comparator [(a, b) => key(b) - key(a)]: largest key first. *)
Definition descending (key : A → Z) : A → A → Z := λ a b, (key b - key a)%Z.

End Arrays.

(** ** routes/match.js: the candidate query *)

(** [coordinates[0] !== 0 && coordinates[1] !== 0], the test the handler
    applies to a location before it uses it. *)
Definition coordinates_nonzero (l : Location) : bool :=
  negb (Qeq_bool (longitude l) 0) && negb (Qeq_bool (latitude l) 0).

(** [{ $near: { $geometry, $maxDistance } }] *)
Record NearQuery : Type := { geometry : Location; max_meters : Z }.

(** The [matchCriteria] object the handler builds. *)
Record MatchCriteria : Type := {
  id_ne : ObjectId;
  id_nin : list ObjectId;
  q_university : string;
  q_isEmailVerified : bool;
  q_profileCompleted : bool;
  age_gte : Z;
  age_lte : Z;
  q_gender : option Interest;       (* set when interestedIn !== 'both' *)
  or_interestedIn : Gender;         (* $or: [{interestedIn: gender}, {interestedIn: 'both'}] *)
  q_location : option NearQuery     (* set when the user has coordinates *)
}.

Definition matchCriteria (userId : ObjectId) (currentUser : User) : MatchCriteria :=
  {| id_ne := userId;
     id_nin := likedUsers currentUser ++ dislikedUsers currentUser;
     q_university := university currentUser;
     q_isEmailVerified := true;
     q_profileCompleted := true;
     age_gte := ageRange_min (preferences currentUser);
     age_lte := ageRange_max (preferences currentUser);
     q_gender :=
       if is_both (interestedIn currentUser) then None
       else Some (interestedIn currentUser);
     or_interestedIn := gender currentUser;
     q_location :=
       if coordinates_nonzero (location currentUser) then
         Some {| geometry := location currentUser;
                 max_meters := (maxDistance (preferences currentUser) * 1000)%Z |}
       else None |}.

(** A candidate as returned: the selected fields of the document and the
    distance the handler adds. *)
Record Candidate : Type := {
  c_id : ObjectId;
  c_firstName : string;
  c_lastName : string;
  c_age : Z;
  c_bio : string;
  c_photos : list Photo;
  c_university : string;
  c_course : string;
  c_year : Z;
  c_location : Location;
  c_lastActive : Time;
  distance : option Z
}.

(** The [distance] the handler computes for one match:
    [distance ? Math.round(distance) : null]. *)
Definition displayDistance (me other : Location) : option Z :=
  if coordinates_nonzero me && coordinates_nonzero other then
    let d := Geo.calculateDistance (Q2R (latitude me)) (Q2R (longitude me))
               (Q2R (latitude other)) (Q2R (longitude other)) in
    if Req_dec_T d 0 then None else Some (Geo.round d)
  else None.

Definition candidate_of (currentUser : User) (doc : ObjectId * User) : Candidate :=
  {| c_id := doc.1; c_firstName := firstName doc.2; c_lastName := lastName doc.2;
     c_age := age doc.2; c_bio := bio doc.2; c_photos := photos doc.2;
     c_university := university doc.2; c_course := course doc.2;
     c_year := year doc.2; c_location := location doc.2;
     c_lastActive := lastActive doc.2;
     distance := displayDistance (location currentUser) (location doc.2) |}.

Section Candidates.

(** The database's [$near] test on the [2dsphere] index: does the document's
    point lie within the given number of metres of the centre?  It is
    evaluated by MongoDB, outside the repository. *)
Variable near : Location → Z → Location → bool.

(** Does a document satisfy the criteria? *)
Definition satisfies (q : MatchCriteria) (doc : ObjectId * User) : bool :=
  negb (doc.1 =? id_ne q)%N &&
  negb (includes (id_nin q) doc.1) &&
  bool_decide (university doc.2 = q_university q) &&
  bool_decide (isEmailVerified doc.2 = q_isEmailVerified q) &&
  bool_decide (profileCompleted doc.2 = q_profileCompleted q) &&
  (age_gte q <=? age doc.2)%Z && (age doc.2 <=? age_lte q)%Z &&
  match q_gender q with
  | Some i => interest_is_gender i (gender doc.2)
  | None => true
  end &&
  (interest_is_gender (interestedIn doc.2) (or_interestedIn q)
   || is_both (interestedIn doc.2)) &&
  match q_location q with
  | Some n => near (geometry n) (max_meters n) (location doc.2)
  | None => true
  end.

(** [User.find(matchCriteria).limit(10).sort({ lastActive: -1 })]: the
    matching documents, most recently active first, the first ten of them. *)
Definition find_users (q : MatchCriteria) (s : Directory) : list (ObjectId * User) :=
  take 10
    (js_sort (λ a b, lastActive b.2 - lastActive a.2)%Z
       (List.filter (satisfies q) (map_to_list s))).

(** [router.get('/potential')] *)
Definition getCandidates (s : Directory) (userId : ObjectId)
  : Result (list Candidate) :=
  match s !! userId with
  | None => Err NotFound
  | Some currentUser =>
      if negb (isProfileComplete currentUser) then Err ProfileIncomplete
      else
        let potentialMatches := find_users (matchCriteria userId currentUser) s in
        Ok (map (candidate_of currentUser) potentialMatches)
  end.

End Candidates.

(** Modelled from the spec: the [$near] test of the database, which is not
    part of the repository, read as the spec reads it: the great-circle
    distance on a sphere of radius 6371 km, in metres, against the bound. *)
Definition near_great_circle (centre : Location) (meters : Z) (p : Location) : bool :=
  if Rle_dec
       (Geo.calculateDistance (Q2R (latitude centre)) (Q2R (longitude centre))
          (Q2R (latitude p)) (Q2R (longitude p)) * 1000)
       (IZR meters)
  then true else false.

(** ** models/Chat.js *)

Inductive MessageType : Type := text | image | location_message.

Record ReadReceipt : Type := { user : ObjectId; readAt : Time }.

Record Message : Type := {
  msg_id : ObjectId;
  sender : ObjectId;
  content : string;
  messageType : MessageType;
  readBy : list ReadReceipt;
  createdAt : Time          (* set by the schema's timestamps when saved *)
}.

(** [lastMessage]: [content] and [sender] have no default, [timestamp]
    defaults to the time the chat is built. *)
Record LastMessage : Type := {
  lm_content : option string;
  lm_sender : option ObjectId;
  lm_timestamp : Time
}.

Record Chat : Type := {
  participants : list ObjectId;
  messages : list Message;
  lastMessage : option LastMessage;   (* [None] is [null] *)
  isActive : bool
}.

(** The [chats] collection. *)
Abbreviation Chats := (gmap ObjectId Chat).

Definition set_readBy (l : list ReadReceipt) (m : Message) : Message :=
  {| msg_id := msg_id m; sender := sender m; content := content m;
     messageType := messageType m; readBy := l; createdAt := createdAt m |}.

Definition set_messages (l : list Message) (c : Chat) : Chat :=
  {| participants := participants c; messages := l;
     lastMessage := lastMessage c; isActive := isActive c |}.

Definition set_lastMessage (l : option LastMessage) (c : Chat) : Chat :=
  {| participants := participants c; messages := messages c;
     lastMessage := l; isActive := isActive c |}.

(** [new Chat({ participants })] with the schema's defaults. *)
Definition new_chat (ps : list ObjectId) (now : Time) : Chat :=
  {| participants := ps; messages := [];
     lastMessage := Some {| lm_content := None; lm_sender := None;
                            lm_timestamp := now |};
     isActive := true |}.

(** [chatSchema.pre('save')]: a chat is saved only with two participants;
    otherwise [save] throws and the handler answers 500. *)
Definition save_chat (cs : Chats) (chatId : ObjectId) (c : Chat) : Result Chats :=
  if bool_decide (length (participants c) ≠ 2) then Err ServerError
  else Ok (<[chatId := c]> cs).

(** ** routes/chat.js *)

(** [Chat.findOne({ participants: { $all: ids } })]: the first chat whose
    participants hold every one of [ids]. *)
Definition findOne_all (cs : Chats) (ids : list ObjectId) : option (ObjectId * Chat) :=
  List.find (λ doc, forallb (includes (participants doc.2)) ids) (map_to_list cs).

(** [router.get('/with/:userId')].  [newId] is the id the driver gives a
    chat built by [new Chat]; inserting under an id that is taken is a
    duplicate-key error. *)
Definition getOrCreate (us : Directory) (cs : Chats) (actor other : ObjectId)
    (newId : ObjectId) (now : Time) : Result (Chats * (ObjectId * Chat)) :=
  match us !! actor, us !! other with
  | Some currentUser, Some otherUser =>
      if negb (includes (matches currentUser) other) then Err NotMatched
      else
        match findOne_all cs [actor; other] with
        | Some chat => Ok (cs, chat)
        | None =>
            let chat := new_chat [actor; other] now in
            match cs !! newId with
            | Some _ => Err ServerError
            | None =>
                match save_chat cs newId chat with
                | Ok cs' => Ok (cs', (newId, chat))
                | Err e => Err e
                end
            end
        end
  | _, _ => Err NotFound
  end.

(** [router.get('/:chatId/messages')] with the query's [page] and [limit]
    read as integers.  The in-place sort is not saved. *)
Definition listMessages (cs : Chats) (chatId requester : ObjectId)
    (page limit : Z) : Result (list Message * bool) :=
  match cs !! chatId with
  | None => Err NotFound
  | Some chat =>
      if negb (includes (participants chat) requester) then Err Forbidden
      else
        let skip := ((page - 1) * limit)%Z in
        let page_messages :=
          rev (js_slice
                 (js_sort (λ a b, createdAt b - createdAt a)%Z (messages chat))
                 skip (skip + limit)) in
        Ok (page_messages,
            bool_decide (skip + limit < Z.of_nat (length (messages chat)))%Z)
  end.

(** [router.post('/:chatId/messages')] after the validators: [content] is the
    trimmed body field.  [msgId] is the id of the new subdocument; the three
    times are the handler's two [new Date()] and the [createdAt] the schema
    sets on save. *)
Definition sendMessage (cs : Chats) (chatId requester : ObjectId)
    (content : string) (messageType : MessageType) (msgId : ObjectId)
    (readTime stampTime saveTime : Time) : Result (Chats * Message) :=
  if negb (bool_decide (1 ≤ String.length content ≤ 1000)%nat) then Err ValidationError
  else
    match cs !! chatId with
    | None => Err NotFound
    | Some chat =>
        if negb (includes (participants chat) requester) then Err Forbidden
        else
          let message :=
            {| msg_id := msgId; sender := requester; content := content;
               messageType := messageType;
               readBy := [{| user := requester; readAt := readTime |}];
               createdAt := saveTime |} in
          let chat1 := set_messages (messages chat ++ [message]) chat in
          let chat2 :=
            set_lastMessage
              (Some {| lm_content := Some content; lm_sender := Some requester;
                       lm_timestamp := stampTime |}) chat1 in
          match save_chat cs chatId chat2 with
          | Ok cs' => Ok (cs', message)
          | Err e => Err e
          end
    end.

(** [message.readBy.some(read => read.user.toString() === req.userId)] *)
Definition hasRead (requester : ObjectId) (m : Message) : bool :=
  existsb (λ read, (user read =? requester)%N) (readBy m).

(** The body of the [forEach] of the read handler: a message the requester
    has not read gets a receipt stamped with the time read at that moment. *)
Definition visit (requester : ObjectId) (clock : nat → Time) (i : nat)
    (message : Message) : Message :=
  if hasRead requester message then message
  else set_readBy
         (readBy message ++ [{| user := requester; readAt := clock i |}])
         message.

(** [router.put('/:chatId/read')].  [clock i] is the [new Date()] read while
    the [i]-th message is visited. *)
Definition markRead (cs : Chats) (chatId requester : ObjectId)
    (clock : nat → Time) : Result Chats :=
  match cs !! chatId with
  | None => Err NotFound
  | Some chat =>
      if negb (includes (participants chat) requester) then Err Forbidden
      else
        save_chat cs chatId
          (set_messages (imap (visit requester clock) (messages chat)) chat)
  end.

(** The [lastMessage] object built from a message. *)
Definition lastMessage_of (m : Message) : LastMessage :=
  {| lm_content := Some (content m); lm_sender := Some (sender m);
     lm_timestamp := createdAt m |}.

(** [chat.messages.pull(messageId)]: the messages with that id are removed. *)
Definition pull (messageId : ObjectId) (l : list Message) : list Message :=
  List.filter (λ m, negb (msg_id m =? messageId)%N) l.

(** The handler's update of [lastMessage] after the removal: the last
    message of the array when there is one, [null] otherwise. *)
Definition refresh_lastMessage (chat : Chat) : Chat :=
  match last (messages chat) with
  | Some lastMessage => set_lastMessage (Some (lastMessage_of lastMessage)) chat
  | None => set_lastMessage None chat
  end.

(** [router.delete('/:chatId/messages/:messageId')].
    [chat.messages.id(messageId)] is the first message with that id. *)
Definition deleteMessage (cs : Chats) (chatId messageId requester : ObjectId)
  : Result Chats :=
  match cs !! chatId with
  | None => Err NotFound
  | Some chat =>
      if negb (includes (participants chat) requester) then Err Forbidden
      else
        match List.find (λ m, (msg_id m =? messageId)%N) (messages chat) with
        | None => Err NotFound
        | Some message =>
            if negb (sender message =? requester)%N then Err Forbidden
            else
              save_chat cs chatId
                (refresh_lastMessage
                   (set_messages (pull messageId (messages chat)) chat))
        end
  end.

(** ** Well-formed chats *)

(** How many read receipts of [requester] a message holds. *)
Definition receipts (requester : ObjectId) (m : Message) : nat :=
  length (filter (λ read, user read = requester) (readBy m)).

(** A chat has two participants, and no message holds two read receipts of
    one user. *)
Definition chat_ok (c : Chat) : Prop :=
  length (participants c) = 2%nat ∧
  Forall (λ m, NoDup (user <$> readBy m)) (messages c).

(** The participants of two chats are the same unordered pair. *)
Definition same_pair (c1 c2 : Chat) : Prop :=
  participants c1 ≡ₚ participants c2.

(** Every chat is well formed and no two chats share their pair. *)
Definition chats_ok (cs : Chats) : Prop :=
  map_Forall (λ _, chat_ok) cs ∧
  ∀ i j c1 c2, cs !! i = Some c1 → cs !! j = Some c2 → same_pair c1 c2 → i = j.

(** One successful call of a handler that writes to the [chats] collection,
    whatever the directory, the ids and the clock. *)
Inductive chat_step (cs cs' : Chats) : Prop :=
| step_getOrCreate us actor other newId now chat :
    getOrCreate us cs actor other newId now = Ok (cs', chat) →
    chat_step cs cs'
| step_sendMessage chatId requester content messageType msgId t1 t2 t3 message :
    sendMessage cs chatId requester content messageType msgId t1 t2 t3 =
      Ok (cs', message) →
    chat_step cs cs'
| step_markRead chatId requester clock :
    markRead cs chatId requester clock = Ok cs' →
    chat_step cs cs'
| step_deleteMessage chatId messageId requester :
    deleteMessage cs chatId messageId requester = Ok cs' →
    chat_step cs cs'.

(** The collections the handlers can produce from the empty one. *)
Definition reachable (cs : Chats) : Prop := rtc chat_step ∅ cs.

(** ** routes/match.js: the list of matches *)

(** [populate] on an array of ids: each id is replaced by its document, and
    ids without a document are dropped from the array. *)
Definition populate (s : Directory) (ids : list ObjectId) : list (ObjectId * User) :=
  omap (λ id, (λ u, (id, u)) <$> s !! id) ids.

(** A populated match:
    ['firstName lastName photos bio university course lastActive isOnline']. *)
Record MatchEntry : Type := {
  me_id : ObjectId;
  me_firstName : string;
  me_lastName : string;
  me_photos : list Photo;
  me_bio : string;
  me_university : string;
  me_course : string;
  me_lastActive : Time;
  me_isOnline : bool
}.

Definition matchEntry_of (doc : ObjectId * User) : MatchEntry :=
  {| me_id := doc.1; me_firstName := firstName doc.2;
     me_lastName := lastName doc.2; me_photos := photos doc.2;
     me_bio := bio doc.2; me_university := university doc.2;
     me_course := course doc.2; me_lastActive := lastActive doc.2;
     me_isOnline := isOnline doc.2 |}.

(** [router.get('/matches')] *)
Definition getMatches (s : Directory) (userId : ObjectId) : Result (list MatchEntry) :=
  match s !! userId with
  | None => Err NotFound
  | Some currentUser => Ok (map matchEntry_of (populate s (matches currentUser)))
  end.

(** ** routes/profile.js *)

(** The failures of the profile handlers. *)
Inductive ProfileFailure : Type :=
| UserNotFound       (* 404 'User not found' *)
| PhotoNotFound      (* 404 'Photo not found' *)
| NoPhotosUploaded   (* 400 'No photos uploaded' *)
| InvalidFields      (* 400 with the validator's error list *)
| InvertedAgeRange.  (* 400 'Minimum age cannot be greater than maximum age' *)

Inductive Outcome (A : Type) : Type :=
| Saved (a : A)
| Refused (e : ProfileFailure).
Arguments Saved {A} a.
Arguments Refused {A} e.

Definition set_photos (l : list Photo) (u : User) : User :=
  {| isEmailVerified := isEmailVerified u; firstName := firstName u;
     lastName := lastName u; age := age u; gender := gender u;
     interestedIn := interestedIn u; university := university u;
     course := course u; year := year u; bio := bio u; photos := l;
     location := location u; preferences := preferences u;
     lastActive := lastActive u; isOnline := isOnline u;
     likedUsers := likedUsers u; dislikedUsers := dislikedUsers u;
     matches := matches u; profileCompleted := profileCompleted u |}.

Definition set_profileCompleted (b : bool) (u : User) : User :=
  {| isEmailVerified := isEmailVerified u; firstName := firstName u;
     lastName := lastName u; age := age u; gender := gender u;
     interestedIn := interestedIn u; university := university u;
     course := course u; year := year u; bio := bio u; photos := photos u;
     location := location u; preferences := preferences u;
     lastActive := lastActive u; isOnline := isOnline u;
     likedUsers := likedUsers u; dislikedUsers := dislikedUsers u;
     matches := matches u; profileCompleted := b |}.

Definition set_location (l : Location) (u : User) : User :=
  {| isEmailVerified := isEmailVerified u; firstName := firstName u;
     lastName := lastName u; age := age u; gender := gender u;
     interestedIn := interestedIn u; university := university u;
     course := course u; year := year u; bio := bio u; photos := photos u;
     location := l; preferences := preferences u;
     lastActive := lastActive u; isOnline := isOnline u;
     likedUsers := likedUsers u; dislikedUsers := dislikedUsers u;
     matches := matches u; profileCompleted := profileCompleted u |}.

Definition set_preferences (p : Preferences) (u : User) : User :=
  {| isEmailVerified := isEmailVerified u; firstName := firstName u;
     lastName := lastName u; age := age u; gender := gender u;
     interestedIn := interestedIn u; university := university u;
     course := course u; year := year u; bio := bio u; photos := photos u;
     location := location u; preferences := p;
     lastActive := lastActive u; isOnline := isOnline u;
     likedUsers := likedUsers u; dislikedUsers := dislikedUsers u;
     matches := matches u; profileCompleted := profileCompleted u |}.

(** The body of a profile update after the validators' sanitizers: a field
    is [None] when the body leaves it [undefined]; names and course are
    trimmed. *)
Record ProfileUpdates : Type := {
  new_firstName : option string;
  new_lastName : option string;
  new_age : option Z;
  new_course : option string;
  new_year : option Z;
  new_bio : option string;
  new_interestedIn : option Interest
}.

(** [optional()]: an absent field passes. *)
Definition optional {A : Type} (check : A → bool) (field : option A) : bool :=
  match field with
  | Some v => check v
  | None => true
  end.

(** The validators of [PUT /update]. *)
Definition valid_updates (up : ProfileUpdates) : bool :=
  optional (λ s, (1 <=? String.length s)%nat) (new_firstName up) &&
  optional (λ s, (1 <=? String.length s)%nat) (new_lastName up) &&
  optional (λ a, (18 <=? a)%Z && (a <=? 30)%Z) (new_age up) &&
  optional (λ y, (1 <=? y)%Z && (y <=? 7)%Z) (new_year up) &&
  optional (λ s, (String.length s <=? 500)%nat) (new_bio up).

(** [if (updates[field] !== undefined) user[field] = updates[field]] over the
    allowed fields. *)
Definition apply_updates (up : ProfileUpdates) (u : User) : User :=
  {| isEmailVerified := isEmailVerified u;
     firstName := default (firstName u) (new_firstName up);
     lastName := default (lastName u) (new_lastName up);
     age := default (age u) (new_age up);
     gender := gender u;
     interestedIn := default (interestedIn u) (new_interestedIn up);
     university := university u;
     course := default (course u) (new_course up);
     year := default (year u) (new_year up);
     bio := default (bio u) (new_bio up);
     photos := photos u;
     location := location u; preferences := preferences u;
     lastActive := lastActive u; isOnline := isOnline u;
     likedUsers := likedUsers u; dislikedUsers := dislikedUsers u;
     matches := matches u; profileCompleted := profileCompleted u |}.

(** [user.profileCompleted = user.isProfileComplete()] *)
Definition refresh_profileCompleted (u : User) : User :=
  set_profileCompleted (isProfileComplete u) u.

(** [router.put('/update')] *)
Definition updateProfile (s : Directory) (userId : ObjectId) (up : ProfileUpdates)
  : Outcome Directory :=
  if negb (valid_updates up) then Refused InvalidFields
  else
    match s !! userId with
    | None => Refused UserNotFound
    | Some user =>
        Saved (<[userId := refresh_profileCompleted (apply_updates up user)]> s)
    end.

(** The photos built from the uploaded files: the first is the main photo
    when the user had none. *)
Definition newPhotos (user : User) (files : list string) : list Photo :=
  imap (λ index filename,
          {| url := "/uploads/photos/" +:+ filename;
             isMain := (length (photos user) =? 0)%nat && (index =? 0)%nat |})
       files.

(** The photos an upload leaves: the new photos are pushed, and when there
    are more than six, [slice(-6)] keeps the last six. *)
Definition uploaded (user : User) (files : list string) : list Photo :=
  let photos1 := photos user ++ newPhotos user files in
  if (6 <? length photos1)%nat
  then js_slice photos1 (-6) (Z.of_nat (length photos1))
  else photos1.

(** [router.post('/upload-photos')]; [files] are the names multer gave the
    stored files.  The middleware [upload.array('photos', 6)] lets at most
    six files of one request reach the handler. *)
Definition uploadPhotos (s : Directory) (userId : ObjectId) (files : list string)
  : Outcome Directory :=
  if (length files =? 0)%nat then Refused NoPhotosUploaded
  else
    match s !! userId with
    | None => Refused UserNotFound
    | Some user =>
        Saved (<[userId := refresh_profileCompleted
                             (set_photos (uploaded user files) user)]> s)
    end.

Definition set_isMain (b : bool) (p : Photo) : Photo :=
  {| url := url p; isMain := b |}.

(** [photo.url === photoUrl] *)
Definition has_url (photoUrl : string) (p : Photo) : bool :=
  bool_decide (url p = photoUrl).

(** Changing the element [Array.prototype.find] returns: the first one that
    passes the test. *)
Fixpoint update_first {A : Type} (test : A → bool) (f : A → A) (l : list A)
  : list A :=
  match l with
  | [] => []
  | x :: l' => if test x then f x :: l' else x :: update_first test f l'
  end.

(** [router.put('/set-main-photo')].  The handler declares a validator but
    never reads its result. *)
Definition setMainPhoto (s : Directory) (userId : ObjectId) (photoUrl : string)
  : Outcome Directory :=
  match s !! userId with
  | None => Refused UserNotFound
  | Some user =>
      let photos1 := map (set_isMain false) (photos user) in
      match List.find (has_url photoUrl) photos1 with
      | None => Refused PhotoNotFound
      | Some _ =>
          Saved (<[userId :=
                     set_photos
                       (update_first (has_url photoUrl) (set_isMain true) photos1)
                       user]> s)
      end
  end.

(** [Array.prototype.findIndex], [None] for [-1]. *)
Fixpoint findIndex {A : Type} (test : A → bool) (l : list A) : option nat :=
  match l with
  | [] => None
  | x :: l' => if test x then Some 0%nat else S <$> findIndex test l'
  end.

(** [user.photos[0].isMain = true] *)
Definition promote_first (l : list Photo) : list Photo :=
  match l with
  | [] => []
  | p :: l' => set_isMain true p :: l'
  end.

(** The photos a deletion leaves: the photo at [photoIndex] is spliced out,
    and when it was the main photo and photos remain, the first becomes the
    main photo. *)
Definition after_delete (l : list Photo) (photoIndex : nat) : list Photo :=
  let wasMain :=
    match l !! photoIndex with
    | Some p => isMain p
    | None => false
    end in
  let photos1 := delete photoIndex l in
  if wasMain && (0 <? length photos1)%nat then promote_first photos1 else photos1.

(** [router.delete('/delete-photo')] *)
Definition deletePhoto (s : Directory) (userId : ObjectId) (photoUrl : string)
  : Outcome Directory :=
  match s !! userId with
  | None => Refused UserNotFound
  | Some user =>
      match findIndex (has_url photoUrl) (photos user) with
      | None => Refused PhotoNotFound
      | Some photoIndex =>
          Saved (<[userId := refresh_profileCompleted
                               (set_photos (after_delete (photos user) photoIndex)
                                  user)]> s)
      end
  end.

(** [isFloat({ min, max })] on a field that must be present. *)
Definition isFloat_between (lo hi : Q) (field : option Q) : bool :=
  match field with
  | Some v => Qle_bool lo v && Qle_bool v hi
  | None => false
  end.

(** [router.put('/update-location')] *)
Definition updateLocation (s : Directory) (userId : ObjectId)
    (latitude longitude : option Q) : Outcome Directory :=
  match latitude, longitude with
  | Some lat, Some lon =>
      if negb (isFloat_between (-90) 90 latitude &&
               isFloat_between (-180) 180 longitude)
      then Refused InvalidFields
      else
        match s !! userId with
        | None => Refused UserNotFound
        | Some user =>
            Saved (<[userId :=
                       set_location {| longitude := lon; latitude := lat |} user]> s)
        end
  | _, _ => Refused InvalidFields
  end.

Definition with_ageRange (r : Z * Z) (p : Preferences) : Preferences :=
  {| ageRange_min := r.1; ageRange_max := r.2; maxDistance := maxDistance p |}.

Definition with_maxDistance (d : Z) (p : Preferences) : Preferences :=
  {| ageRange_min := ageRange_min p; ageRange_max := ageRange_max p;
     maxDistance := d |}.

(** The validators of [PUT /update-preferences]. *)
Definition valid_preferences (ageRange : option (Z * Z)) (newDistance : option Z)
  : bool :=
  optional (λ r, (18 <=? r.1)%Z && (r.1 <=? 30)%Z &&
                 (18 <=? r.2)%Z && (r.2 <=? 30)%Z) ageRange &&
  optional (λ d, (1 <=? d)%Z && (d <=? 100)%Z) newDistance.

(** The preferences an accepted request leaves:
    [if (ageRange) ... = ageRange] and [if (maxDistance) ... = maxDistance]. *)
Definition new_preferences (ageRange : option (Z * Z)) (newDistance : option Z)
    (p : Preferences) : Preferences :=
  let prefs1 :=
    match ageRange with
    | Some r => with_ageRange r p
    | None => p
    end in
  match newDistance with
  | Some d => if truthy_number d then with_maxDistance d prefs1 else prefs1
  | None => prefs1
  end.

(** [router.put('/update-preferences')], for a body whose [ageRange], when
    present, gives both [min] and [max] (the pair). *)
Definition updatePreferences (s : Directory) (userId : ObjectId)
    (ageRange : option (Z * Z)) (newDistance : option Z) : Outcome Directory :=
  if negb (valid_preferences ageRange newDistance) then Refused InvalidFields
  else
    match s !! userId with
    | None => Refused UserNotFound
    | Some user =>
        if match ageRange with
           | Some r => (r.2 <? r.1)%Z      (* ageRange.min > ageRange.max *)
           | None => false
           end
        then Refused InvertedAgeRange
        else
          Saved (<[userId :=
                     set_preferences
                       (new_preferences ageRange newDistance (preferences user))
                       user]> s)
    end.

(** ** routes/chat.js: the list of chats *)

(** An entry of the list: the chat's id, the other participant with the
    populated fields ['firstName lastName photos isOnline lastActive'], the
    last message and the populated names of its sender.  The [updatedAt]
    stamp of the schema's timestamps is left out. *)
Record ChatEntry : Type := {
  ce_id : ObjectId;
  otherUser : option MatchedUser;
  ce_lastMessage : option LastMessage;
  ce_lastSender : option (string * string)
}.

Definition timestamp_of (c : Chat) : option Time :=
  lm_timestamp <$> lastMessage c.

(** [sort({ 'lastMessage.timestamp': -1 })]: latest first, chats without the
    field last. *)
Definition latest_first (a b : option Time) : Z :=
  match a, b with
  | Some x, Some y => y - x
  | Some _, None => -1
  | None, Some _ => 1
  | None, None => 0
  end.

(** [Chat.find({ participants: userId, isActive: true })], sorted. *)
Definition find_chats (cs : Chats) (userId : ObjectId) : list (ObjectId * Chat) :=
  js_sort (λ a b, latest_first (timestamp_of a.2) (timestamp_of b.2))
    (List.filter (λ doc, includes (participants doc.2) userId && isActive doc.2)
       (map_to_list cs)).

Definition chatEntry_of (us : Directory) (userId : ObjectId)
    (doc : ObjectId * Chat) : ChatEntry :=
  {| ce_id := doc.1;
     otherUser :=
       (λ p, matchedUser_of p.1 p.2) <$>
       List.find (λ p, negb (p.1 =? userId)%N) (populate us (participants doc.2));
     ce_lastMessage := lastMessage doc.2;
     ce_lastSender :=
       lm ← lastMessage doc.2;
       senderId ← lm_sender lm;
       u ← us !! senderId;
       Some (firstName u, lastName u) |}.

(** [router.get('/')] *)
Definition listChats (us : Directory) (cs : Chats) (userId : ObjectId)
  : list ChatEntry :=
  map (chatEntry_of us userId) (find_chats cs userId).

(** ** models/User.js: the university of an email address *)

(** [String.prototype.split] on a one-character separator. *)
Fixpoint split (sep : Ascii.ascii) (s : string) : list string :=
  match s with
  | EmptyString => [EmptyString]
  | String c s' =>
      if Ascii.eqb c sep then EmptyString :: split sep s'
      else
        match split sep s' with
        | piece :: pieces => String c piece :: pieces
        | [] => [String c EmptyString]
        end
  end.

(** The character ['@'] (code 64). *)
Definition at_sign : Ascii.ascii :=
  Ascii.Ascii false false false false false false true false.

(** [userSchema.methods.getUniversityFromEmail]: [email.split('@')[1]],
    [None] when that is [undefined]. *)
Definition getUniversityFromEmail (email : string) : option string :=
  split at_sign email !! 1%nat.

(** ** Well-formed directories *)

(** The relationship arrays of every user hold no id twice, every match was
    liked, nobody matches themselves, and matches are mutual. *)
Definition relations_ok (s : Directory) : Prop :=
  directory_ok s ∧
  (∀ id u, s !! id = Some u →
     NoDup (likedUsers u) ∧ NoDup (dislikedUsers u) ∧ NoDup (matches u)) ∧
  (∀ a b ua, s !! a = Some ua → b ∈ matches ua →
     ∃ ub, s !! b = Some ub ∧ a ∈ matches ub).

(** The stored [profileCompleted] flag of every user is what
    [isProfileComplete] computes. *)
Definition flags_ok (s : Directory) : Prop :=
  ∀ id u, s !! id = Some u → profileCompleted u = isProfileComplete u.

(** How many photos of the list are marked as the main photo. *)
Definition mains (l : list Photo) : nat :=
  length (filter (λ p, isMain p = true) l).


(** One successful call of a handler that writes to the [users] collection. *)
Inductive directory_step (s s' : Directory) : Prop :=
| step_like actor target r :
    like s actor target = Ok (s', r) → directory_step s s'
| step_dislike actor target :
    dislike s actor target = Ok s' → directory_step s s'
| step_unmatch actor target :
    unmatch s actor target = Ok s' → directory_step s s'
| step_updateProfile userId up :
    updateProfile s userId up = Saved s' → directory_step s s'
| step_uploadPhotos userId files :
    uploadPhotos s userId files = Saved s' → directory_step s s'
| step_setMainPhoto userId photoUrl :
    setMainPhoto s userId photoUrl = Saved s' → directory_step s s'
| step_deletePhoto userId photoUrl :
    deletePhoto s userId photoUrl = Saved s' → directory_step s s'
| step_updateLocation userId latitude longitude :
    updateLocation s userId latitude longitude = Saved s' → directory_step s s'
| step_updatePreferences userId ageRange newDistance :
    updatePreferences s userId ageRange newDistance = Saved s' →
    directory_step s s'.

(** What one successful handler call does to one user's document: it
    replaces the relationship arrays (like, dislike, unmatch), where
    [dislikedUsers] can only grow at its end, or it is one of the six profile
    changes. *)
Inductive user_step (u : User) : User → Prop :=
| changed_relations l d m :
    dislikedUsers u `prefix_of` d →
    user_step u (set_matches m (set_dislikedUsers d (set_likedUsers l u)))
| changed_profile up :
    valid_updates up = true →
    user_step u (refresh_profileCompleted (apply_updates up u))
| changed_uploaded files :
    files ≠ [] →
    user_step u (refresh_profileCompleted (set_photos (uploaded u files) u))
| changed_main photoUrl :
    is_Some (List.find (has_url photoUrl) (map (set_isMain false) (photos u))) →
    user_step u
      (set_photos
         (update_first (has_url photoUrl) (set_isMain true)
            (map (set_isMain false) (photos u))) u)
| changed_deleted photoUrl i :
    findIndex (has_url photoUrl) (photos u) = Some i →
    user_step u (refresh_profileCompleted (set_photos (after_delete (photos u) i) u))
| changed_location lat lon :
    Qle_bool (-90) lat = true → Qle_bool lat 90 = true →
    Qle_bool (-180) lon = true → Qle_bool lon 180 = true →
    user_step u (set_location {| longitude := lon; latitude := lat |} u)
| changed_preferences ageRange newDistance :
    valid_preferences ageRange newDistance = true →
    (∀ r, ageRange = Some r → (r.1 ≤ r.2)%Z) →
    user_step u
      (set_preferences (new_preferences ageRange newDistance (preferences u)) u).

(** A gallery holds at most six photos, at most one of them the main one. *)
Definition gallery_ok (l : list Photo) : Prop :=
  (length l ≤ 6)%nat ∧ (mains l ≤ 1)%nat.

(** ** Well-formed conversations *)

(** What one successful handler call does to one chat: a message is
    appended and becomes the preview (send), receipts of one participant are
    added (read), or the messages with one id are removed and the preview is
    rebuilt (delete). *)
Inductive chat_change (c : Chat) : Chat → Prop :=
| change_sent requester body ty msgId readTime stampTime saveTime :
    requester ∈ participants c →
    (1 ≤ String.length body ≤ 1000)%nat →
    chat_change c
      (set_lastMessage
         (Some {| lm_content := Some body; lm_sender := Some requester;
                  lm_timestamp := stampTime |})
         (set_messages
            (messages c ++
             [{| msg_id := msgId; sender := requester; content := body;
                 messageType := ty;
                 readBy := [{| user := requester; readAt := readTime |}];
                 createdAt := saveTime |}]) c))
| change_read requester clock :
    requester ∈ participants c →
    chat_change c (set_messages (imap (visit requester clock) (messages c)) c)
| change_deleted messageId :
    chat_change c
      (refresh_lastMessage (set_messages (pull messageId (messages c)) c)).

(** The preview of a chat, [lastMessage], shows the content and the sender
    of the last message of the array; without messages it is [null] or the
    empty preview a new chat starts with. *)
Definition preview_ok (c : Chat) : Prop :=
  match last (messages c) with
  | Some m =>
      ∃ t, lastMessage c =
             Some {| lm_content := Some (content m);
                     lm_sender := Some (sender m); lm_timestamp := t |}
  | None =>
      lastMessage c = None ∨
      ∃ t, lastMessage c =
             Some {| lm_content := None; lm_sender := None; lm_timestamp := t |}
  end.


(** The pages [1], ..., [k] of a chat, as a client fetches them one after
    the other. *)
Definition fetch_pages (cs : Chats) (chatId requester : ObjectId) (limit : Z)
    (k : nat) : list (list Message) :=
  omap (λ page,
          match listMessages cs chatId requester (Z.of_nat page) limit with
          | Ok (page_messages, _) => Some page_messages
          | Err _ => None
          end)
       (seq 1 k).

(** * Example data *)

Definition student (name : string) (g : Gender) (i : Interest) : User :=
  {| isEmailVerified := true; firstName := name; lastName := "Doe";
     age := 21; gender := g; interestedIn := i; university := "uni.edu";
     course := "Mathematics"; year := 2; bio := "hello";
     photos := [{| url := "/uploads/photos/p.jpg"; isMain := true |}];
     location := {| longitude := 0%Q; latitude := 0%Q |};
     preferences := {| ageRange_min := 18; ageRange_max := 30; maxDistance := 50 |};
     lastActive := 1000%Z; isOnline := false;
     likedUsers := []; dislikedUsers := []; matches := [];
     profileCompleted := true |}.

Definition alice : User := student "Alice" female only_male.
Definition bob : User := student "Bob" male only_female.

(** Two students who have not met: Alice is user 1, Bob is user 2. *)
Definition campus : Directory := <[2%N := bob]> (<[1%N := alice]> ∅).

(** The same directory after Alice liked Bob, and after Bob liked her back. *)
Definition alice_liked_bob : Directory :=
  <[1%N := set_likedUsers [2%N] alice]> campus.

Definition alice_and_bob_matched : Directory :=
  <[2%N := set_matches [1%N] (set_likedUsers [1%N] bob)]>
    (<[1%N := set_matches [2%N] (set_likedUsers [2%N] alice)]> campus).

Definition one_sided : LikeResponse :=
  {| isMatch := false; matchedUser := None |}.

Definition mutual_with (id : ObjectId) (u : User) : LikeResponse :=
  {| isMatch := true; matchedUser := Some (matchedUser_of id u) |}.

Definition at_location (l : Location) (u : User) : User :=
  {| isEmailVerified := isEmailVerified u; firstName := firstName u;
     lastName := lastName u; age := age u; gender := gender u;
     interestedIn := interestedIn u; university := university u;
     course := course u; year := year u; bio := bio u; photos := photos u;
     location := l; preferences := preferences u;
     lastActive := lastActive u; isOnline := isOnline u;
     likedUsers := likedUsers u; dislikedUsers := dislikedUsers u;
     matches := matches u; profileCompleted := profileCompleted u |}.

(** Alice on a boat in the Gulf of Guinea, a hundredth of a degree east and
    north of the point (0, 0), and Bob, who never set his location. *)
Definition sailor : User :=
  at_location {| longitude := 1 # 100; latitude := 1 # 100 |} alice.

Definition gulf : Directory := <[2%N := bob]> (<[1%N := sailor]> ∅).

(** The chats collection after Alice opened her chat with Bob. *)
Definition first_chat : Chats := <[7%N := new_chat [1%N; 2%N] 500]> ∅.

(** Two messages in that chat: Alice wrote first, Bob answered. *)
Definition hello : Message :=
  {| msg_id := 101; sender := 1; content := "hi Bob"; messageType := text;
     readBy := [{| user := 1; readAt := 1000 |}]; createdAt := 1001 |}.

Definition answer : Message :=
  {| msg_id := 102; sender := 2; content := "hi Alice"; messageType := text;
     readBy := [{| user := 2; readAt := 2000 |}]; createdAt := 2001 |}.

Definition conversation : Chat :=
  {| participants := [1%N; 2%N]; messages := [hello; answer];
     lastMessage := Some (lastMessage_of answer); isActive := true |}.

Definition talk : Chats := <[7%N := conversation]> ∅.

(** A chat of 120 notes, written one millisecond apart. *)
Definition note (i : nat) : Message :=
  {| msg_id := N.of_nat (200 + i); sender := if Nat.even i then 1 else 2;
     content := "note"; messageType := text;
     readBy := [{| user := if Nat.even i then 1 else 2;
                   readAt := Z.of_nat (3000 + i) |}];
     createdAt := Z.of_nat (3000 + i) |}.

Definition long_conversation : Chat :=
  {| participants := [1%N; 2%N]; messages := map note (seq 0 120);
     lastMessage := Some (lastMessage_of (note 119)); isActive := true |}.

Definition archive : Chats := <[9%N := long_conversation]> ∅.

(** Alice adrift on the equator at 90° east (her latitude is 0), and Bob on
    the equator at 90° west, half a great circle away. *)
Definition drifter : User :=
  at_location {| longitude := 90; latitude := 0 |} alice.

Definition antipode : User :=
  at_location {| longitude := -90; latitude := 0 |} bob.

Definition equator : Directory := <[2%N := antipode]> (<[1%N := drifter]> ∅).

(** The campus after Alice deleted her only photo. *)
Definition camera_shy : Directory :=
  <[1%N := set_profileCompleted false (set_photos [] alice)]> campus.


(** Alice with a full gallery: six photos, the oldest one the main photo. *)
Definition collector : User :=
  set_photos
    [{| url := "/uploads/photos/1.jpg"; isMain := true |};
     {| url := "/uploads/photos/2.jpg"; isMain := false |};
     {| url := "/uploads/photos/3.jpg"; isMain := false |};
     {| url := "/uploads/photos/4.jpg"; isMain := false |};
     {| url := "/uploads/photos/5.jpg"; isMain := false |};
     {| url := "/uploads/photos/6.jpg"; isMain := false |}] alice.

Definition studio : Directory := <[1%N := collector]> campus.

(** The campus after Alice passed on Bob, and after she then narrowed her
    preferences. *)
Definition alice_disliked_bob : Directory :=
  <[1%N := set_dislikedUsers [2%N] alice]> campus.

Definition alice_moved_on : Directory :=
  <[1%N := set_preferences
             {| ageRange_min := 20; ageRange_max := 25; maxDistance := 10 |}
             (set_dislikedUsers [2%N] alice)]> alice_disliked_bob.
(** * Properties of the matching engine *)

Lemma includes_true l x : includes l x = true ↔ x ∈ l.
Proof. unfold includes. apply bool_decide_eq_true. Qed.

Lemma includes_false l x : includes l x = false ↔ x ∉ l.
Proof. unfold includes. apply bool_decide_eq_false. Qed.

Lemma elem_of_without x y l : y ∈ without x l ↔ y ≠ x ∧ y ∈ l.
Proof. unfold without. by rewrite list_elem_of_filter. Qed.

Lemma occurrences_app x l1 l2 :
  occurrences x (l1 ++ l2) = (occurrences x l1 + occurrences x l2)%nat.
Proof. unfold occurrences. by rewrite filter_app, length_app. Qed.

Lemma occurrences_not_in x l : x ∉ l → occurrences x l = 0%nat.
Proof.
  unfold occurrences. induction l as [|y l IH]; [done|].
  intros Hx. apply not_elem_of_cons in Hx as [Hxy Hxl].
  rewrite filter_cons_False by congruence. by apply IH.
Qed.

Lemma occurrences_singleton x : occurrences x [x] = 1%nat.
Proof. unfold occurrences. by rewrite filter_cons_True. Qed.

Lemma user_ok_not_liked id u x : user_ok id u → x ∉ likedUsers u → x ∉ matches u.
Proof.
  intros [_ Hall] Hx Hm. rewrite Forall_forall in Hall. by apply Hx, Hall.
Qed.

(** What a successful like did: it was not a repeat, and it either recorded
    a one-sided like or completed a mutual one. *)
Lemma like_Ok_inv s a b s' r :
  like s a b = Ok (s', r) →
  ∃ ua ub,
    s !! a = Some ua ∧ s !! b = Some ub ∧ (b ∉ likedUsers ua) ∧
    (((a ∉ likedUsers ub) ∧ isMatch r = false ∧ matchedUser r = None ∧
      s' = <[a := set_likedUsers (likedUsers ua ++ [b]) ua]> s)
     ∨
     (a ∈ likedUsers ub ∧ isMatch r = true ∧
      matchedUser r =
        Some (matchedUser_of b (set_matches (matches ub ++ [a]) ub)) ∧
      s' = <[a := set_matches (matches ua ++ [b])
                    (set_likedUsers (likedUsers ua ++ [b]) ua)]>
             (<[b := set_matches (matches ub ++ [a]) ub]> s))).
Proof.
  unfold like. intros H.
  destruct (s !! a) as [ua|] eqn:Ha; [|done].
  destruct (s !! b) as [ub|] eqn:Hb; [|done].
  destruct (includes (likedUsers ua) b) eqn:Hl; [done|].
  apply includes_false in Hl.
  exists ua, ub. split_and!; [done..|].
  destruct (includes (likedUsers ub) a) eqn:Hr; simplify_eq.
  - right. apply includes_true in Hr. done.
  - left. apply includes_false in Hr. done.
Qed.

(** [C1] Two likes, one in each direction, applied one after the other to a
    directory in which every match was liked: the first records no match,
    the second reports the match and appends each user to the other's
    [matches], so the two entries exist together and exactly once each. *)
Theorem like_mutual_symmetric (s s1 s2 : Directory) (a b : ObjectId)
    (r1 r2 : LikeResponse) :
  directory_ok s →
  like s a b = Ok (s1, r1) →
  like s1 b a = Ok (s2, r2) →
  ∃ ua ub ua1 ua2 ub2,
    s !! a = Some ua ∧ s !! b = Some ub ∧
    s1 !! a = Some ua1 ∧ s1 !! b = Some ub ∧
    s2 !! a = Some ua2 ∧ s2 !! b = Some ub2 ∧
    isMatch r1 = false ∧ matches ua1 = matches ua ∧
    isMatch r2 = true ∧
    matches ua2 = matches ua ++ [b] ∧ matches ub2 = matches ub ++ [a] ∧
    (b ∈ matches ua2 ↔ a ∈ matches ub2) ∧
    occurrences b (matches ua2) = 1%nat ∧
    occurrences a (matches ub2) = 1%nat.
Proof.
  intros Hok H1 H2.
  apply like_Ok_inv in H1 as (ua & ub & Ha & Hb & Hnl & H1).
  apply like_Ok_inv in H2 as (ub' & ua' & Hb' & Ha' & Hnl' & H2).
  assert (a ≠ b) as Hab.
  { intros ->. rewrite Ha in Hb. injection Hb as <-. destruct H1 as [(? & _ & _ & ->)|(? & _)]; [|done].
    rewrite lookup_insert_eq in Hb'. injection Hb' as <-. simpl in Hnl'.
    apply Hnl'. apply elem_of_app. right. by apply list_elem_of_singleton. }

  destruct H1 as [(Hnr & Hm1 & _ & ->)|(Hr & _ & _ & ->)]; last first.
  { rewrite lookup_insert_ne, lookup_insert_eq in Hb' by done.
    by simplify_eq. }
  rewrite lookup_insert_ne in Hb' by done.
  rewrite lookup_insert_eq in Ha'.
  rewrite Hb in Hb'. injection Hb' as <-. injection Ha' as <-.
  destruct H2 as [(Hnr' & _)|(_ & Hm2 & _ & ->)].
  { exfalso. apply Hnr'. simpl. apply elem_of_app. right.
    by apply list_elem_of_singleton. }
  pose proof (user_ok_not_liked _ _ _ (Hok _ _ Ha) Hnl) as Hma.
  pose proof (user_ok_not_liked _ _ _ (Hok _ _ Hb) Hnr) as Hmb.
  set (ua1 := set_likedUsers (likedUsers ua ++ [b]) ua).
  exists ua, ub, ua1, (set_matches (matches ua1 ++ [b]) ua1),
    (set_matches (matches ub ++ [a]) (set_likedUsers (likedUsers ub ++ [a]) ub)).
  split_and!; try done.
  - by rewrite lookup_insert_eq.
  - by rewrite lookup_insert_ne.
  - rewrite lookup_insert_ne, lookup_insert_eq by done. done.
  - by rewrite lookup_insert_eq.
  - simpl. rewrite !elem_of_app, !list_elem_of_singleton. tauto.
  - simpl. rewrite occurrences_app, occurrences_singleton.
    by rewrite occurrences_not_in.
  - simpl. rewrite occurrences_app, occurrences_singleton.
    by rewrite occurrences_not_in.
Qed.


Lemma campus_ok : directory_ok campus.
Proof. refine (bool_decide_unpack _ _). vm_compute. exact I. Qed.

Lemma like_mutual_symmetric_witness :
  directory_ok campus ∧
  like campus 1 2 = Ok (alice_liked_bob, one_sided) ∧
  like alice_liked_bob 2 1 =
    Ok (alice_and_bob_matched, mutual_with 1 (set_matches [2%N] alice)) ∧
  ∃ ua ub ua1 ua2 ub2,
    campus !! 1%N = Some ua ∧ campus !! 2%N = Some ub ∧
    alice_liked_bob !! 1%N = Some ua1 ∧ alice_liked_bob !! 2%N = Some ub ∧
    alice_and_bob_matched !! 1%N = Some ua2 ∧
    alice_and_bob_matched !! 2%N = Some ub2 ∧
    isMatch one_sided = false ∧ matches ua1 = matches ua ∧
    isMatch (mutual_with 1 (set_matches [2%N] alice)) = true ∧
    matches ua2 = matches ua ++ [2%N] ∧ matches ub2 = matches ub ++ [1%N] ∧
    (2%N ∈ matches ua2 ↔ 1%N ∈ matches ub2) ∧
    occurrences 2 (matches ua2) = 1%nat ∧
    occurrences 1 (matches ub2) = 1%nat.
Proof.
  assert (like campus 1 2 = Ok (alice_liked_bob, one_sided)) as H1
    by (vm_compute; reflexivity).
  assert (like alice_liked_bob 2 1 =
          Ok (alice_and_bob_matched,
              mutual_with 1 (set_matches [2%N] alice))) as H2
    by (vm_compute; reflexivity).
  split; [exact campus_ok|]. split; [exact H1|]. split; [exact H2|].
  exact (like_mutual_symmetric campus _ _ 1 2 _ _ campus_ok H1 H2).
Defined.

(** The three handlers keep every directory well formed. *)
Lemma like_preserves_ok s a b s' r :
  directory_ok s → like s a b = Ok (s', r) → directory_ok s'.
Proof.
  intros Hok H.
  apply like_Ok_inv in H as (ua & ub & Ha & Hb & Hnl & H).
  destruct (Hok _ _ Ha) as [Haa Hfa]. destruct (Hok _ _ Hb) as [Hbb Hfb].
  destruct H as [(_ & _ & _ & ->)|(Hr & _ & _ & ->)].
  - apply map_Forall_insert_2; [|done]. split; [done|]. simpl.
    eapply Forall_impl; [exact Hfa|]. intros x Hx. apply elem_of_app. by left.
  - assert (a ≠ b) as Hab by (intros ->; simplify_eq; done).
    apply map_Forall_insert_2; [|apply map_Forall_insert_2; [|done]].
    + split; simpl.
      * rewrite elem_of_app, list_elem_of_singleton. tauto.
      * apply Forall_app. split.
        -- eapply Forall_impl; [exact Hfa|]. intros x Hx.
           apply elem_of_app. by left.
        -- apply Forall_singleton, elem_of_app. right.
           by apply list_elem_of_singleton.
    + split; simpl.
      * rewrite elem_of_app, list_elem_of_singleton. intros [?|?]; done.
      * apply Forall_app. split; [done|]. by apply Forall_singleton.
Qed.

Lemma dislike_preserves_ok s a b s' :
  directory_ok s → dislike s a b = Ok s' → directory_ok s'.
Proof.
  unfold dislike. intros Hok H.
  destruct (s !! a) as [ua|] eqn:Ha; [|done].
  destruct (includes (dislikedUsers ua) b); [done|]. simplify_eq.
  apply map_Forall_insert_2; [|done]. exact (Hok _ _ Ha).
Qed.

Lemma user_ok_unmatch id x u :
  user_ok id u →
  user_ok id (set_likedUsers (without x (likedUsers u))
                (set_matches (without x (matches u)) u)).
Proof.
  intros [Hid Hall]. split; simpl.
  - rewrite elem_of_without. tauto.
  - apply Forall_forall. intros y Hy. apply elem_of_without in Hy as [? Hy].
    apply elem_of_without. split; [done|].
    rewrite Forall_forall in Hall. by apply Hall.
Qed.

Lemma unmatch_preserves_ok s a b s' :
  directory_ok s → unmatch s a b = Ok s' → directory_ok s'.
Proof.
  unfold unmatch. intros Hok H.
  destruct (s !! a) as [ua|] eqn:Ha; [|done].
  destruct (s !! b) as [ub|] eqn:Hb; [|done]. simplify_eq.
  apply map_Forall_insert_2; [|apply map_Forall_insert_2; [|done]].
  - apply user_ok_unmatch. exact (Hok _ _ Hb).
  - apply user_ok_unmatch. exact (Hok _ _ Ha).
Qed.

Lemma directory_ok_matched_distinct s a b ua :
  directory_ok s → s !! a = Some ua → b ∈ matches ua → a ≠ b.
Proof. intros Hok Ha Hb ->. by destruct (Hok _ _ Ha). Qed.


(** Two distinct users who have not liked each other can always do so, one
    after the other. *)
Lemma like_twice_succeeds s a b ua ub :
  s !! a = Some ua → s !! b = Some ub → a ≠ b →
  b ∉ likedUsers ua → a ∉ likedUsers ub →
  ∃ s1 s2 r2,
    like s a b = Ok (s1, one_sided) ∧ like s1 b a = Ok (s2, r2) ∧
    isMatch r2 = true.
Proof.
  intros Ha Hb Hab Hnl Hnr.
  set (ua1 := set_likedUsers (likedUsers ua ++ [b]) ua).
  eexists (<[a := ua1]> s), _, _. split.
  - unfold like. rewrite Ha, Hb.
    apply includes_false in Hnl as ->. by apply includes_false in Hnr as ->.
  - unfold like. rewrite lookup_insert_ne, lookup_insert_eq, Hb by done.
    apply includes_false in Hnr as ->.
    assert (includes (likedUsers ua1) b = true) as ->.
    { apply includes_true. simpl. apply elem_of_app. right.
      by apply list_elem_of_singleton. }
    done.
Qed.

Lemma not_elem_of_without x l : x ∉ without x l.
Proof. rewrite elem_of_without. tauto. Qed.

(** [C6] Unmatching two distinct existing users, matched or not, succeeds
    and leaves neither in the other's [matches] or [likedUsers]; liking in
    both directions afterwards succeeds, the first like one-sided and the
    second a mutual match that puts each user back into the other's
    [matches].  (In a well-formed directory matched users are distinct,
    [directory_ok_matched_distinct].) *)
Theorem unmatch_then_relike (s : Directory) (a b : ObjectId) (ua ub : User) :
  s !! a = Some ua → s !! b = Some ub → a ≠ b →
  ∃ s1 s2 s3 r2 r3 ua1 ub1 ua3 ub3,
    unmatch s a b = Ok s1 ∧
    s1 !! a = Some ua1 ∧ s1 !! b = Some ub1 ∧
    (b ∉ matches ua1) ∧ (a ∉ matches ub1) ∧
    (b ∉ likedUsers ua1) ∧ (a ∉ likedUsers ub1) ∧
    like s1 a b = Ok (s2, r2) ∧ isMatch r2 = false ∧
    like s2 b a = Ok (s3, r3) ∧ isMatch r3 = true ∧
    s3 !! a = Some ua3 ∧ s3 !! b = Some ub3 ∧
    b ∈ matches ua3 ∧ a ∈ matches ub3.
Proof.
  intros Ha Hb Hab.
  set (ua1 := set_likedUsers (without b (likedUsers ua))
                (set_matches (without b (matches ua)) ua)).
  set (ub1 := set_likedUsers (without a (likedUsers ub))
                (set_matches (without a (matches ub)) ub)).
  set (s1 := <[b := ub1]> (<[a := ua1]> s)).
  set (ua2 := set_likedUsers (likedUsers ua1 ++ [b]) ua1).
  set (s2 := <[a := ua2]> s1).
  set (ua3 := set_matches (matches ua2 ++ [b]) ua2).
  set (ub3 := set_matches (matches ub1 ++ [a])
                (set_likedUsers (likedUsers ub1 ++ [a]) ub1)).
  set (s3 := <[b := ub3]> (<[a := ua3]> s2)).
  assert (s1 !! a = Some ua1) as Ha1.
  { unfold s1. by rewrite lookup_insert_ne, lookup_insert_eq. }
  assert (s1 !! b = Some ub1) as Hb1.
  { unfold s1. by rewrite lookup_insert_eq. }
  assert (s2 !! a = Some ua2) as Ha2.
  { unfold s2. by rewrite lookup_insert_eq. }
  assert (s2 !! b = Some ub1) as Hb2.
  { unfold s2. by rewrite lookup_insert_ne. }
  assert (b ∉ likedUsers ua1) as Hnl by apply not_elem_of_without.
  assert (a ∉ likedUsers ub1) as Hnr by apply not_elem_of_without.
  exists s1, s2, s3, one_sided,
    (mutual_with a (set_matches (matches ua2 ++ [b]) ua2)), ua1, ub1, ua3, ub3.
  split_and!.
  - unfold unmatch. by rewrite Ha, Hb.
  - done.
  - done.
  - apply not_elem_of_without.
  - apply not_elem_of_without.
  - done.
  - done.
  - unfold like. rewrite Ha1, Hb1.
    apply includes_false in Hnl as ->. apply includes_false in Hnr as ->. done.
  - done.
  - unfold like. rewrite Ha2, Hb2.
    apply includes_false in Hnr as ->.
    assert (includes (likedUsers ua2) b = true) as ->.
    { apply includes_true. simpl. apply elem_of_app. right.
      by apply list_elem_of_singleton. }
    done.
  - done.
  - unfold s3. by rewrite lookup_insert_ne, lookup_insert_eq.
  - unfold s3. by rewrite lookup_insert_eq.
  - simpl. apply elem_of_app. right. by apply list_elem_of_singleton.
  - simpl. apply elem_of_app. right. by apply list_elem_of_singleton.
Qed.

Lemma unmatch_then_relike_witness :
  alice_and_bob_matched !! 1%N = Some (set_matches [2%N] (set_likedUsers [2%N] alice)) ∧
  alice_and_bob_matched !! 2%N = Some (set_matches [1%N] (set_likedUsers [1%N] bob)) ∧
  ∃ s1 s2 s3 r2 r3 ua1 ub1 ua3 ub3,
    unmatch alice_and_bob_matched 1 2 = Ok s1 ∧
    s1 !! 1%N = Some ua1 ∧ s1 !! 2%N = Some ub1 ∧
    (2%N ∉ matches ua1) ∧ (1%N ∉ matches ub1) ∧
    (2%N ∉ likedUsers ua1) ∧ (1%N ∉ likedUsers ub1) ∧
    like s1 1 2 = Ok (s2, r2) ∧ isMatch r2 = false ∧
    like s2 2 1 = Ok (s3, r3) ∧ isMatch r3 = true ∧
    s3 !! 1%N = Some ua3 ∧ s3 !! 2%N = Some ub3 ∧
    2%N ∈ matches ua3 ∧ 1%N ∈ matches ub3.
Proof.
  assert (alice_and_bob_matched !! 1%N =
          Some (set_matches [2%N] (set_likedUsers [2%N] alice))) as Ha
    by (vm_compute; reflexivity).
  assert (alice_and_bob_matched !! 2%N =
          Some (set_matches [1%N] (set_likedUsers [1%N] bob))) as Hb
    by (vm_compute; reflexivity).
  split; [exact Ha|]. split; [exact Hb|].
  apply (unmatch_then_relike alice_and_bob_matched 1 2 _ _ Ha Hb).
  discriminate.
Defined.




(** * Properties of the array helpers *)

Section ArrayFacts.
Context {A : Type}.
Implicit Types (cmp : A → A → Z) (key : A → Z) (l : list A).

Lemma js_insert_perm cmp x l : js_insert cmp x l ≡ₚ x :: l.
Proof.
  induction l as [|y l IH]; simpl; [done|].
  destruct (cmp x y <=? 0)%Z; [done|].
  rewrite IH. apply Permutation_swap.
Qed.

Lemma js_sort_perm cmp l : js_sort cmp l ≡ₚ l.
Proof.
  induction l as [|x l IH]; simpl; [done|].
  rewrite js_insert_perm. by rewrite IH.
Qed.

Lemma js_sort_length cmp l : length (js_sort cmp l) = length l.
Proof. apply Permutation_length, js_sort_perm. Qed.

Lemma elem_of_js_sort cmp l x : x ∈ js_sort cmp l ↔ x ∈ l.
Proof. by rewrite js_sort_perm. Qed.

Lemma js_insert_descending key x l :
  StronglySorted (λ a b, key b ≤ key a)%Z l →
  StronglySorted (λ a b, key b ≤ key a)%Z (js_insert (descending key) x l).
Proof.
  induction 1 as [|y l Hs IH Hy]; simpl.
  - repeat constructor.
  - unfold descending at 1.
    destruct (Z.leb_spec (key y - key x) 0) as [Hle|Hgt].
    + constructor; [by constructor|].
      constructor; [lia|]. eapply Forall_impl; [exact Hy|].
      simpl. intros z Hz. lia.
    + constructor; [done|].
      rewrite js_insert_perm. constructor; [lia|done].
Qed.

Lemma js_sort_descending key l :
  StronglySorted (λ a b, key b ≤ key a)%Z (js_sort (descending key) l).
Proof.
  induction l as [|x l IH]; simpl; [constructor|].
  by apply js_insert_descending.
Qed.

Lemma StronglySorted_rev (R : A → A → Prop) l :
  StronglySorted R l → StronglySorted (flip R) (rev l).
Proof.
  induction 1 as [|x l Hs IH Hx]; simpl; [constructor|].
  apply StronglySorted_app_2; [|done|repeat constructor].
  intros y z Hy Hz. apply list_elem_of_singleton in Hz as ->.
  rewrite Forall_forall in Hx. apply Hx.
  apply list_elem_of_In, in_rev, list_elem_of_In. done.
Qed.

Lemma StronglySorted_take (R : A → A → Prop) l n :
  StronglySorted R l → StronglySorted R (take n l).
Proof.
  intros H. rewrite <- (take_drop n l) in H.
  by apply StronglySorted_app_1_l in H.
Qed.

Lemma StronglySorted_drop (R : A → A → Prop) l n :
  StronglySorted R l → StronglySorted R (drop n l).
Proof.
  intros H. rewrite <- (take_drop n l) in H.
  by apply StronglySorted_app_1_r in H.
Qed.

Lemma js_slice_sorted (R : A → A → Prop) l i j :
  StronglySorted R l → StronglySorted R (js_slice l i j).
Proof. intros H. unfold js_slice. by apply StronglySorted_take, StronglySorted_drop. Qed.

(** Within the array, [slice(i, j)] skips [i] elements and keeps [j - i]. *)
Lemma js_slice_take_drop l (i n : Z) :
  (0 ≤ i)%Z → (0 ≤ n)%Z →
  js_slice l i (i + n) = take (Z.to_nat n) (drop (Z.to_nat i) l).
Proof.
  intros Hi Hn. unfold js_slice.
  destruct (Z.ltb_spec i 0) as [?|_]; [lia|].
  destruct (Z.ltb_spec (i + n) 0) as [?|_]; [lia|].
  destruct (Z.le_gt_cases i (Z.of_nat (length l))) as [Hle|Hgt].
  - rewrite (Z.min_l i) by done.
    destruct (Z.le_gt_cases (i + n) (Z.of_nat (length l))) as [Hle2|Hgt2].
    + rewrite Z.min_l by done. f_equal. lia.
    + rewrite Z.min_r by lia.
      rewrite !take_ge; [done| |]; rewrite length_drop; lia.
  - rewrite !drop_ge by lia. by rewrite !take_nil.
Qed.

End ArrayFacts.


(** * Properties of the haversine helper *)

Module GeoFacts.
Import Geo.
Local Open Scope R_scope.

(** Bounds on [PI] from the series of [2 atan (1/3) + atan (1/7)]. *)
Lemma PI_upper : PI < 31415927 / 10000000.
Proof.
  pose proof (PI_2_3_7_ineq 3) as [_ H].
  unfold sum_f_R0, tg_alt, PI_2_3_7_tg, Ratan_seq in H.
  simpl in H. lra.
Qed.

Lemma PI_lower : 31415926 / 10000000 < PI.
Proof.
  pose proof (PI_2_3_7_ineq 3) as [H _].
  unfold sum_f_R0, tg_alt, PI_2_3_7_tg, Ratan_seq in H.
  simpl in H. lra.
Qed.

Lemma atan2_pos_x y x : 0 < x → atan2 y x = atan (y / x).
Proof. intros Hx. unfold atan2. by destruct (Rlt_dec 0 x). Qed.

Lemma calculateDistance_hav lat1 lon1 lat2 lon2 :
  calculateDistance lat1 lon1 lat2 lon2 =
  6371 * (2 * atan2 (sqrt (hav lat1 lon1 lat2 lon2))
                    (sqrt (1 - hav lat1 lon1 lat2 lon2))).
Proof. reflexivity. Qed.

Lemma half_angle_opp x y : deg2rad (x - y) / 2 = - (deg2rad (y - x) / 2).
Proof. unfold deg2rad. field. Qed.

Lemma hav_sym lat1 lon1 lat2 lon2 :
  hav lat1 lon1 lat2 lon2 = hav lat2 lon2 lat1 lon1.
Proof.
  unfold hav.
  rewrite (half_angle_opp lat2 lat1), (half_angle_opp lon2 lon1).
  rewrite !sin_neg. ring.
Qed.

Lemma hav_same lat lon : hav lat lon lat lon = 0.
Proof.
  unfold hav, deg2rad.
  replace ((lat - lat) * (PI / 180) / 2) with 0 by field.
  replace ((lon - lon) * (PI / 180) / 2) with 0 by field.
  rewrite sin_0. ring.
Qed.

Lemma hav_quarter : hav 0 0 0 90 = 1 / 2.
Proof.
  unfold hav, deg2rad.
  replace ((0 - 0) * (PI / 180) / 2) with 0 by field.
  replace ((90 - 0) * (PI / 180) / 2) with (PI / 4) by field.
  replace (0 * (PI / 180)) with 0 by ring.
  rewrite sin_0, cos_0, sin_PI4.
  assert (sqrt 2 * sqrt 2 = 2) as H by (apply sqrt_sqrt; lra).
  assert (sqrt 2 ≠ 0) as Hn by (intros E; rewrite E in H; lra).
  field_simplify; [|done]. rewrite <- Rsqr_pow2. unfold Rsqr. rewrite H. field.
Qed.

Lemma calculateDistance_quarter : calculateDistance 0 0 0 90 = 6371 * (PI / 2).
Proof.
  rewrite calculateDistance_hav, hav_quarter.
  replace (1 - 1 / 2) with (1 / 2) by field.
  assert (0 < sqrt (1 / 2)) as Hs by (apply sqrt_lt_R0; lra).
  rewrite atan2_pos_x by done.
  replace (sqrt (1 / 2) / sqrt (1 / 2)) with 1 by (field; lra).
  rewrite atan_1. field.
Qed.

Lemma calculateDistance_same lat lon : calculateDistance lat lon lat lon = 0.
Proof.
  rewrite calculateDistance_hav, hav_same.
  replace (1 - 0) with 1 by ring. rewrite sqrt_0, sqrt_1.
  rewrite atan2_pos_x by lra.
  replace (0 / 1) with 0 by field. rewrite atan_0. ring.
Qed.

Lemma calculateDistance_sym lat1 lon1 lat2 lon2 :
  calculateDistance lat1 lon1 lat2 lon2 = calculateDistance lat2 lon2 lat1 lon1.
Proof. by rewrite !calculateDistance_hav, hav_sym. Qed.

(** [C8] The haversine distance of a point to itself is 0, the distance is
    symmetric, and from (0°, 0°) to (0°, 90°) it is a quarter of a great
    circle of radius 6371 km, within 0.05 km of 10007.5 km. *)
Theorem calculateDistance_properties :
  (∀ lat lon, calculateDistance lat lon lat lon = 0) ∧
  (∀ lat1 lon1 lat2 lon2,
     calculateDistance lat1 lon1 lat2 lon2 =
     calculateDistance lat2 lon2 lat1 lon1) ∧
  calculateDistance 0 0 0 90 = 6371 * (PI / 2) ∧
  Rabs (calculateDistance 0 0 0 90 - 100075 / 10) < 5 / 100.
Proof.
  split_and!.
  - apply calculateDistance_same.
  - apply calculateDistance_sym.
  - apply calculateDistance_quarter.
  - rewrite calculateDistance_quarter.
    pose proof PI_upper. pose proof PI_lower.
    apply Rabs_def1; lra.
Qed.

(** A small angle: the arc tangent of a ratio below 4/10000 is below
    1/1000. *)
Lemma atan_small t : 0 <= t < 4 / 10000 → atan t < 1 / 1000.
Proof.
  intros [Ht0 Ht].
  pose proof PI_lower as HPl. pose proof PI_upper as HPu.
  set (B := 1 / 1000).
  assert (- (PI / 2) < B < PI / 2) as HB by (unfold B; lra).
  rewrite <- (atan_tan B) by done.
  apply atan_increasing.
  assert (0 < cos B) as Hc by (apply cos_gt_0; lra).
  pose proof (COS_bound B) as [_ Hc1].
  destruct (sin_bound B 0) as [Hs _]; [unfold B; lra..|].
  unfold sin_approx, sum_f_R0, sin_term in Hs. simpl in Hs.
  assert (4 / 10000 < sin B) as Hsin by (unfold B in *; lra).
  unfold tan. apply Rlt_le_trans with (sin B); [lra|].
  apply Rle_trans with (sin B / 1); [lra|].
  unfold Rdiv. apply Rmult_le_compat_l; [lra|].
  apply Rinv_le_contravar; lra.
Qed.

(** On the boat, the point (0, 0) is less than 13 km away. *)
Lemma sailor_to_origin :
  calculateDistance (1 / 100) (1 / 100) 0 0 < 13.
Proof.
  pose proof PI_lower as HPl. pose proof PI_upper as HPu.
  rewrite calculateDistance_hav.
  set (h := PI / 36000).
  assert (0 < h < 1 / 9000) as [Hh0 Hh] by (unfold h; lra).
  assert (hav (1 / 100) (1 / 100) 0 0 =
          sin h * sin h + cos (deg2rad (1 / 100)) * cos (deg2rad 0) * sin h * sin h)
    as Ha.
  { unfold hav.
    replace (deg2rad (0 - 1 / 100) / 2) with (- h) by (unfold deg2rad, h; field).
    rewrite sin_neg. ring. }
  assert (0 < sin h < h) as [Hs0 Hs].
  { split; [apply sin_gt_0; lra|apply sin_lt_x; lra]. }
  assert (sin h * sin h < 1 / 81000000) as Hss by nra.
  pose proof (COS_bound (deg2rad (1 / 100))) as [Hc1 Hc1'].
  pose proof (COS_bound (deg2rad 0)) as [Hc2 Hc2'].
  assert (-1 <= cos (deg2rad (1 / 100)) * cos (deg2rad 0) <= 1) as [Hp Hp'] by nra.
  set (a := hav (1 / 100) (1 / 100) 0 0) in *.
  assert (0 <= a < 1 / 40000000) as [Ha0 Ha1].
  { rewrite Ha. split; nra. }
  assert (sqrt a < 16 / 100000) as Hy.
  { rewrite <- (sqrt_square (16 / 100000)) by lra.
    apply sqrt_lt_1_alt. lra. }
  assert (1 / 2 <= sqrt (1 - a)) as Hx.
  { rewrite <- (sqrt_square (1 / 2)) by lra.
    apply sqrt_le_1_alt. lra. }
  pose proof (sqrt_pos a) as Hy0.
  rewrite atan2_pos_x by lra.
  assert (0 <= sqrt a / sqrt (1 - a) < 4 / 10000) as Ht.
  { split.
    - apply Rmult_le_pos; [done|]. apply Rlt_le, Rinv_0_lt_compat. lra.
    - apply Rle_lt_trans with (sqrt a / (1 / 2)); [|lra].
      unfold Rdiv. apply Rmult_le_compat_l; [done|].
      apply Rinv_le_contravar; lra. }
  pose proof (atan_small _ Ht). lra.
Qed.

Lemma atan2_zero_x y : 0 < y → atan2 y 0 = PI / 2.
Proof.
  intros Hy. unfold atan2.
  destruct (Rlt_dec 0 0) as [H|_]; [lra|].
  destruct (Rlt_dec 0 y); [done|lra].
Qed.

(** Half a great circle along the equator. *)
Lemma calculateDistance_half : calculateDistance 0 90 0 (-90) = 6371 * PI.
Proof.
  rewrite calculateDistance_hav.
  assert (hav 0 90 0 (-90) = 1) as ->.
  { unfold hav, deg2rad.
    replace ((0 - 0) * (PI / 180) / 2) with 0 by field.
    replace ((-90 - 90) * (PI / 180) / 2) with (- (PI / 2)) by field.
    replace (0 * (PI / 180)) with 0 by ring.
    rewrite sin_0, cos_0, sin_neg, sin_PI2. ring. }
  replace (1 - 1) with 0 by ring. rewrite sqrt_0, sqrt_1.
  rewrite atan2_zero_x by lra. field.
Qed.

End GeoFacts.


(** * Properties of the candidate query *)

Section CandidateFacts.
Variable near : Location → Z → Location → bool.

(** The documents the query returns are documents of the collection that
    satisfy the criteria, at most ten of them. *)
Lemma find_users_elem q (s : Directory) doc :
  doc ∈ find_users near q s →
  s !! doc.1 = Some doc.2 ∧ satisfies near q doc = true.
Proof.
  unfold find_users. intros H.
  apply (subseteq_take 10) in H.
  apply elem_of_js_sort, list_elem_of_In, filter_In in H as [H Hsat].
  split; [|done]. by apply list_elem_of_In, elem_of_map_to_list' in H.
Qed.

Lemma find_users_length q (s : Directory) :
  (length (find_users near q s) ≤ 10)%nat.
Proof. unfold find_users. rewrite length_take. lia. Qed.

Lemma getCandidates_Ok_inv s userId res :
  getCandidates near s userId = Ok res →
  ∃ currentUser,
    s !! userId = Some currentUser ∧ isProfileComplete currentUser = true ∧
    res = map (candidate_of currentUser)
            (find_users near (matchCriteria userId currentUser) s).
Proof.
  unfold getCandidates. intros H.
  destruct (s !! userId) as [u|]; [|done].
  destruct (isProfileComplete u) eqn:Hc; [|done]. simpl in H.
  exists u. injection H as <-. done.
Qed.

End CandidateFacts.

(** [C3] For an existing user the candidate query fails with
    [ProfileIncomplete] unless the profile is complete; otherwise it returns
    at most ten candidates, and each is a user of the directory other than
    the acting user, neither liked nor disliked before, of the same
    university, email-verified and profile-complete, of an age within the
    acting user's range, of the gender the acting user is interested in
    (unless that is 'both'), and interested in the acting user's gender or
    in 'both'. *)
Theorem getCandidates_filters (near : Location → Z → Location → bool)
    (s : Directory) (userId : ObjectId) (currentUser : User) :
  s !! userId = Some currentUser →
  (isProfileComplete currentUser = false →
   getCandidates near s userId = Err ProfileIncomplete) ∧
  (isProfileComplete currentUser = true →
   ∃ res,
     getCandidates near s userId = Ok res ∧
     (length res ≤ 10)%nat ∧
     ∀ c, c ∈ res →
       ∃ t,
         s !! c_id c = Some t ∧
         c_id c ≠ userId ∧
         (c_id c ∉ likedUsers currentUser) ∧
         (c_id c ∉ dislikedUsers currentUser) ∧
         university t = university currentUser ∧
         isEmailVerified t = true ∧
         profileCompleted t = true ∧
         (ageRange_min (preferences currentUser) ≤ age t
          ≤ ageRange_max (preferences currentUser))%Z ∧
         (interestedIn currentUser ≠ both →
          interest_is_gender (interestedIn currentUser) (gender t) = true) ∧
         (interest_is_gender (interestedIn t) (gender currentUser) = true ∨
          interestedIn t = both)).
Proof.
  intros Hu. split; intros Hc.
  - unfold getCandidates. by rewrite Hu, Hc.
  - eexists. split; [unfold getCandidates; by rewrite Hu, Hc|].
    simpl. split; [rewrite length_map; apply find_users_length|].
    intros c Hin. apply list_elem_of_In, in_map_iff in Hin as (doc & <- & Hin).
    apply list_elem_of_In, find_users_elem in Hin as [Hdoc Hsat].
    exists doc.2. simpl. split; [done|].
    unfold satisfies in Hsat. simpl in Hsat.
    repeat (apply andb_prop in Hsat as [Hsat ?]).
    repeat match goal with
           | H : negb _ = true |- _ => apply negb_true_iff in H
           | H : bool_decide _ = true |- _ => apply bool_decide_eq_true in H
           | H : (_ <=? _)%Z = true |- _ => apply Z.leb_le in H
           | H : (_ =? _)%N = false |- _ => apply N.eqb_neq in H
           | H : includes _ _ = false |- _ => apply includes_false in H
           | H : (_ || _) = true |- _ => apply orb_prop in H
           end.
    match goal with H : _ ∉ _ ++ _ |- _ => apply not_elem_of_app in H as [??] end.
    split_and!; try done.
    + intros Hb. destruct (interestedIn currentUser); done.
    + match goal with H : _ ∨ _ |- _ => destruct H as [?|Hb] end; [by left|].
      right. by destruct (interestedIn doc.2).
Qed.


Lemma getCandidates_filters_witness :
  campus !! 1%N = Some alice ∧
  (isProfileComplete alice = false →
   getCandidates near_great_circle campus 1 = Err ProfileIncomplete) ∧
  (isProfileComplete alice = true →
   ∃ res,
     getCandidates near_great_circle campus 1 = Ok res ∧
     (length res ≤ 10)%nat ∧
     ∀ c, c ∈ res →
       ∃ t,
         campus !! c_id c = Some t ∧
         c_id c ≠ 1%N ∧
         (c_id c ∉ likedUsers alice) ∧
         (c_id c ∉ dislikedUsers alice) ∧
         university t = university alice ∧
         isEmailVerified t = true ∧
         profileCompleted t = true ∧
         (ageRange_min (preferences alice) ≤ age t
          ≤ ageRange_max (preferences alice))%Z ∧
         (interestedIn alice ≠ both →
          interest_is_gender (interestedIn alice) (gender t) = true) ∧
         (interest_is_gender (interestedIn t) (gender alice) = true ∨
          interestedIn t = both)).
Proof.
  assert (campus !! 1%N = Some alice) as H by (vm_compute; reflexivity).
  split; [exact H|].
  exact (getCandidates_filters near_great_circle campus 1 alice H).
Defined.

(** Alice is offered Bob, and nobody else. *)
Example getCandidates_campus :
  getCandidates near_great_circle campus 1 = Ok [candidate_of alice (2%N, bob)].
Proof. vm_compute. reflexivity. Qed.

(** [C4, as amended] When both coordinates of the acting user are non-zero,
    every returned target is a user of the directory whose location passes
    the database's [$near] test centred on the acting user's location, with
    [$maxDistance] the acting user's [maxDistance] times 1000 (metres). *)
Theorem getCandidates_near (near : Location → Z → Location → bool)
    (s : Directory) (userId : ObjectId) (currentUser : User)
    (res : list Candidate) :
  s !! userId = Some currentUser →
  coordinates_nonzero (location currentUser) = true →
  getCandidates near s userId = Ok res →
  ∀ c, c ∈ res →
    ∃ t,
      s !! c_id c = Some t ∧ c_location c = location t ∧
      near (location currentUser)
           (maxDistance (preferences currentUser) * 1000)%Z
           (location t) = true.
Proof.
  intros Hu Hloc Hres c Hin.
  apply getCandidates_Ok_inv in Hres as (u & Hu' & _ & ->).
  rewrite Hu in Hu'. injection Hu' as <-.
  apply list_elem_of_In, in_map_iff in Hin as (doc & <- & Hin).
  apply list_elem_of_In, find_users_elem in Hin as [Hdoc Hsat].
  exists doc.2. simpl. split; [done|]. split; [done|].
  unfold satisfies in Hsat. apply andb_prop in Hsat as [_ Hnear].
  simpl in Hnear. by rewrite Hloc in Hnear.
Qed.

Lemma gulf_candidates (near : Location → Z → Location → bool) :
  near (location sailor) 50000%Z (location bob) = true →
  getCandidates near gulf 1 = Ok [candidate_of sailor (2%N, bob)].
Proof.
  intros H. vm_compute in H. vm_compute. rewrite H. reflexivity.
Qed.

Lemma near_sailor_origin :
  near_great_circle (location sailor) 50000%Z (location bob) = true.
Proof.
  unfold near_great_circle.
  destruct (Rle_dec _ _) as [|Hn]; [done|]. exfalso. apply Hn. clear Hn.
  simpl. unfold Q2R. simpl.
  replace (1 * / 100)%R with (1 / 100)%R by lra.
  replace (0 * / 1)%R with 0%R by lra.
  pose proof GeoFacts.sailor_to_origin. lra.
Qed.

Lemma near_drifter_antipode :
  near_great_circle (location drifter) 50000%Z (location antipode) = false.
Proof.
  unfold near_great_circle.
  destruct (Rle_dec _ _) as [H|]; [|done]. exfalso. revert H.
  simpl. unfold Q2R. simpl.
  replace (0 * / 1)%R with 0%R by lra.
  replace (90 * / 1)%R with 90%R by lra.
  replace (-90 * / 1)%R with (-90)%R by lra.
  rewrite GeoFacts.calculateDistance_half.
  pose proof GeoFacts.PI_lower. lra.
Qed.

(** [C4, counterexample] With the database's test read as the great-circle
    distance on a sphere of radius 6371 km:
    - in [gulf], Alice's coordinates are both non-zero and her [maxDistance]
      is 50 km; Bob's location is still (0, 0), less than 13 km from her,
      and he is returned;
    - in [equator], Alice's location (90, 0) is not (0, 0) and her
      [maxDistance] is 50 km; Bob is half a great circle away, outside that
      distance, and he is returned. *)
Lemma near_filter_counterexample :
  (coordinates_nonzero (location sailor) = true ∧
   maxDistance (preferences sailor) = 50%Z ∧
   location bob = {| longitude := 0; latitude := 0 |} ∧
   getCandidates near_great_circle gulf 1 =
     Ok [candidate_of sailor (2%N, bob)]) ∧
  (location drifter = {| longitude := 90; latitude := 0 |} ∧
   maxDistance (preferences drifter) = 50%Z ∧
   near_great_circle (location drifter) (50 * 1000)%Z (location antipode) = false ∧
   getCandidates near_great_circle equator 1 =
     Ok [candidate_of drifter (2%N, antipode)]).
Proof.
  split; split_and!; try reflexivity.
  - apply gulf_candidates, near_sailor_origin.
  - exact near_drifter_antipode.
Qed.

Lemma getCandidates_near_witness :
  gulf !! 1%N = Some sailor ∧
  coordinates_nonzero (location sailor) = true ∧
  getCandidates near_great_circle gulf 1 = Ok [candidate_of sailor (2%N, bob)] ∧
  ∀ c, c ∈ [candidate_of sailor (2%N, bob)] →
    ∃ t,
      gulf !! c_id c = Some t ∧ c_location c = location t ∧
      near_great_circle (location sailor)
        (maxDistance (preferences sailor) * 1000)%Z (location t) = true.
Proof.
  assert (gulf !! 1%N = Some sailor) as H1 by (vm_compute; reflexivity).
  assert (getCandidates near_great_circle gulf 1 =
          Ok [candidate_of sailor (2%N, bob)]) as H3
    by (apply gulf_candidates, near_sailor_origin).
  split; [exact H1|]. split; [reflexivity|]. split; [exact H3|].
  exact (getCandidates_near near_great_circle gulf 1 sailor _ H1 eq_refl H3).
Defined.

(** A location with one zero coordinate puts no [$near] condition into the
    criteria. *)
Remark matchCriteria_no_location userId currentUser :
  coordinates_nonzero (location currentUser) = false →
  q_location (matchCriteria userId currentUser) = None.
Proof. intros H. simpl. by rewrite H. Qed.


(** * Properties of the chat store *)

Lemma save_chat_Ok cs chatId c cs' :
  save_chat cs chatId c = Ok cs' ↔
  length (participants c) = 2%nat ∧ cs' = <[chatId := c]> cs.
Proof.
  unfold save_chat. case_bool_decide as H; split.
  - done.
  - intros [? _]. done.
  - intros [= <-]. split; [|done]. by destruct (decide (length (participants c) = 2%nat)).
  - intros [_ ->]. done.
Qed.

Lemma save_chat_two cs chatId c :
  length (participants c) = 2%nat → save_chat cs chatId c = Ok (<[chatId := c]> cs).
Proof. intros H. by apply save_chat_Ok. Qed.

(** Replacing a chat by one with the same participants. *)
Lemma chats_ok_update cs chatId c c' :
  chats_ok cs → cs !! chatId = Some c →
  participants c' = participants c → chat_ok c' →
  chats_ok (<[chatId := c']> cs).
Proof.
  intros [Hall Huniq] Hc Hp Hok. split.
  - by apply map_Forall_insert_2.
  - intros i j c1 c2 H1 H2 Hsame. unfold same_pair in *.
    apply (Huniq i j (if decide (chatId = i) then c else c1)
                     (if decide (chatId = j) then c else c2)).
    + rewrite lookup_insert in H1. by destruct (decide (chatId = i)); simplify_eq.
    + rewrite lookup_insert in H2. by destruct (decide (chatId = j)); simplify_eq.
    + unfold same_pair.
      rewrite lookup_insert in H1. rewrite lookup_insert in H2.
      destruct (decide (chatId = i)), (decide (chatId = j)); simplify_eq;
        rewrite <- ?Hp; done.
Qed.

Lemma findOne_all_Some cs ids doc :
  findOne_all cs ids = Some doc →
  cs !! doc.1 = Some doc.2 ∧ ∀ x, x ∈ ids → x ∈ participants doc.2.
Proof.
  unfold findOne_all. intros H. apply find_some in H as [Hin Hall].
  split.
  - by apply list_elem_of_In, elem_of_map_to_list' in Hin.
  - intros x Hx. rewrite forallb_forall in Hall.
    apply includes_true, Hall, list_elem_of_In, Hx.
Qed.

Lemma forallb_false {A} (f : A → bool) (l : list A) :
  forallb f l = false → ∃ x, x ∈ l ∧ f x = false.
Proof.
  induction l as [|y l IH]; simpl; [done|].
  destruct (f y) eqn:E; simpl.
  - intros H. destruct (IH H) as (x & Hx & Hf). exists x. split; [by right|done].
  - intros _. exists y. split; [by left|done].
Qed.

Lemma findOne_all_None cs ids i c :
  findOne_all cs ids = None → cs !! i = Some c →
  ∃ x, x ∈ ids ∧ x ∉ participants c.
Proof.
  unfold findOne_all. intros H Hc.
  pose proof (find_none _ _ H (i, c)) as Hn. simpl in Hn.
  assert (In (i, c) (map_to_list cs)) as Hin
    by by apply list_elem_of_In, elem_of_map_to_list.
  specialize (Hn Hin).
  apply forallb_false in Hn as (x & Hx & Hf).
  exists x. split; [done|]. by apply includes_false.
Qed.

Lemma findOne_all_is_Some cs ids i c :
  cs !! i = Some c → (∀ x, x ∈ ids → x ∈ participants c) →
  is_Some (findOne_all cs ids).
Proof.
  intros Hc Hall. destruct (findOne_all cs ids) eqn:E; [by eexists|].
  destruct (findOne_all_None _ _ _ _ E Hc) as (x & Hx & Hn).
  exfalso. by apply Hn, Hall.
Qed.

Lemma getOrCreate_Ok_inv us cs a b newId now cs' doc :
  getOrCreate us cs a b newId now = Ok (cs', doc) →
  ∃ ua ub,
    us !! a = Some ua ∧ us !! b = Some ub ∧ b ∈ matches ua ∧
    ((findOne_all cs [a; b] = Some doc ∧ cs' = cs) ∨
     (findOne_all cs [a; b] = None ∧ cs !! newId = None ∧
      doc = (newId, new_chat [a; b] now) ∧
      cs' = <[newId := new_chat [a; b] now]> cs)).
Proof.
  unfold getOrCreate. intros H.
  destruct (us !! a) as [ua|]; [|done].
  destruct (us !! b) as [ub|]; [|done].
  destruct (includes (matches ua) b) eqn:Hm; [|done].
  apply includes_true in Hm. cbn [negb] in H.
  exists ua, ub. split_and!; [done..|].
  destruct (findOne_all cs [a; b]) as [found|].
  - left. by simplify_eq.
  - right. cbv zeta in H. destruct (cs !! newId); [done|].
    rewrite save_chat_two in H by done. by simplify_eq.
Qed.

Lemma new_chat_ok ps now : length ps = 2%nat → chat_ok (new_chat ps now).
Proof. intros H. split; [done|]. constructor. Qed.

Lemma getOrCreate_preserves_ok us cs a b newId now cs' doc :
  chats_ok cs → getOrCreate us cs a b newId now = Ok (cs', doc) → chats_ok cs'.
Proof.
  intros Hok H.
  apply getOrCreate_Ok_inv in H as (ua & ub & _ & _ & _ & H).
  destruct H as [[_ ->]|(Hnone & Hfresh & _ & ->)]; [done|].
  destruct Hok as [Hall Huniq]. split.
  - apply map_Forall_insert_2; [|done]. by apply new_chat_ok.
  - assert (∀ i c, cs !! i = Some c →
                   ¬ same_pair (new_chat [a; b] now) c) as Hnew.
    { intros i c Hc Hsame.
      destruct (findOne_all_None _ _ _ _ Hnone Hc) as (x & Hx & Hn).
      apply Hn. unfold same_pair in Hsame. simpl in Hsame.
      by rewrite <- Hsame. }
    intros i j c1 c2 H1 H2 Hsame.
    rewrite lookup_insert in H1. rewrite lookup_insert in H2.
    destruct (decide (newId = i)), (decide (newId = j)); simplify_eq.
    + done.
    + exfalso. by eapply Hnew.
    + exfalso. eapply Hnew; [done|]. unfold same_pair in *. by symmetry.
    + by eapply Huniq.
Qed.

Lemma sendMessage_preserves_ok cs chatId requester content ty msgId t1 t2 t3 cs' m :
  chats_ok cs →
  sendMessage cs chatId requester content ty msgId t1 t2 t3 = Ok (cs', m) →
  chats_ok cs'.
Proof.
  unfold sendMessage. intros Hok H.
  destruct (bool_decide _); [|done]. cbn [negb] in H.
  destruct (cs !! chatId) as [c|] eqn:Hc; [|done].
  destruct (includes (participants c) requester); [|done]. cbn [negb] in H.
  destruct (save_chat _ _ _) as [cs1|] eqn:Hs; [|done].
  apply save_chat_Ok in Hs as [Hlen ->]. simplify_eq.
  eapply chats_ok_update; [done..|].
  destruct Hok as [Hall _]. destruct (Hall _ _ Hc) as [_ Hmsgs].
  split; [done|]. simpl. apply Forall_app. split; [done|].
  apply Forall_singleton. simpl. apply NoDup_singleton.
Qed.

Lemma hasRead_true requester m :
  hasRead requester m = true ↔ requester ∈ user <$> readBy m.
Proof.
  unfold hasRead. rewrite existsb_exists, list_elem_of_fmap.
  split.
  - intros (r & Hin & Heq). apply N.eqb_eq in Heq.
    exists r. split; [done|]. by apply list_elem_of_In.
  - intros (r & -> & Hin). exists r. split; [by apply list_elem_of_In|].
    apply N.eqb_refl.
Qed.

Lemma hasRead_false requester m :
  hasRead requester m = false ↔ requester ∉ user <$> readBy m.
Proof.
  rewrite <- hasRead_true. by destruct (hasRead requester m).
Qed.

Lemma visit_NoDup requester clock i m :
  NoDup (user <$> readBy m) → NoDup (user <$> readBy (visit requester clock i m)).
Proof.
  unfold visit. destruct (hasRead requester m) eqn:E; [done|].
  apply hasRead_false in E. intros Hnd. simpl.
  rewrite fmap_app. simpl. apply NoDup_app. split_and!; [done| |apply NoDup_singleton].
  intros x Hx Hx'. apply list_elem_of_singleton in Hx' as ->. done.
Qed.

Lemma markRead_Ok_inv cs chatId requester clock cs' :
  markRead cs chatId requester clock = Ok cs' →
  ∃ c, cs !! chatId = Some c ∧ requester ∈ participants c ∧
       length (participants c) = 2%nat ∧
       cs' = <[chatId := set_messages (imap (visit requester clock) (messages c)) c]> cs.
Proof.
  unfold markRead. intros H.
  destruct (cs !! chatId) as [c|]; [|done].
  destruct (includes (participants c) requester) eqn:Hp; [|done].
  apply includes_true in Hp. cbn [negb] in H.
  apply save_chat_Ok in H as [Hlen ->]. by exists c.
Qed.

Lemma markRead_preserves_ok cs chatId requester clock cs' :
  chats_ok cs → markRead cs chatId requester clock = Ok cs' → chats_ok cs'.
Proof.
  intros Hok H. apply markRead_Ok_inv in H as (c & Hc & _ & Hlen & ->).
  eapply chats_ok_update; [done..|].
  destruct Hok as [Hall _]. destruct (Hall _ _ Hc) as [_ Hmsgs].
  split; [done|]. simpl. apply Forall_forall. intros m Hm.
  apply elem_of_lookup_imap in Hm as (i & m0 & -> & Hi).
  apply visit_NoDup. rewrite Forall_forall in Hmsgs.
  eapply Hmsgs, list_elem_of_lookup_2, Hi.
Qed.

Lemma refresh_lastMessage_participants c :
  participants (refresh_lastMessage c) = participants c.
Proof. unfold refresh_lastMessage. by destruct (last (messages c)). Qed.

Lemma refresh_lastMessage_messages c :
  messages (refresh_lastMessage c) = messages c.
Proof. unfold refresh_lastMessage. by destruct (last (messages c)). Qed.

Lemma deleteMessage_Ok_inv cs chatId messageId requester cs' :
  deleteMessage cs chatId messageId requester = Ok cs' →
  ∃ c m,
    cs !! chatId = Some c ∧ requester ∈ participants c ∧
    List.find (λ m, (msg_id m =? messageId)%N) (messages c) = Some m ∧
    sender m = requester ∧ length (participants c) = 2%nat ∧
    cs' = <[chatId := refresh_lastMessage
                        (set_messages (pull messageId (messages c)) c)]> cs.
Proof.
  unfold deleteMessage. intros H.
  destruct (cs !! chatId) as [c|]; [|done].
  destruct (includes (participants c) requester) eqn:Hp; [|done].
  apply includes_true in Hp. cbn [negb] in H.
  destruct (List.find _ _) as [m|] eqn:Hf; [|done].
  destruct (sender m =? requester)%N eqn:Hs; [|done].
  apply N.eqb_eq in Hs. cbn [negb] in H.
  apply save_chat_Ok in H as [Hlen ->].
  rewrite refresh_lastMessage_participants in Hlen.
  by exists c, m.
Qed.

Lemma deleteMessage_preserves_ok cs chatId messageId requester cs' :
  chats_ok cs → deleteMessage cs chatId messageId requester = Ok cs' → chats_ok cs'.
Proof.
  intros Hok H.
  apply deleteMessage_Ok_inv in H as (c & m & Hc & _ & _ & _ & Hlen & ->).
  eapply chats_ok_update; [done|done|by rewrite refresh_lastMessage_participants|].
  destruct Hok as [Hall _]. destruct (Hall _ _ Hc) as [_ Hmsgs].
  split; [by rewrite refresh_lastMessage_participants|].
  rewrite refresh_lastMessage_messages. simpl.
  apply Forall_forall. intros x Hx. unfold pull in Hx.
  apply list_elem_of_In, filter_In in Hx as [Hx _].
  rewrite Forall_forall in Hmsgs. by apply Hmsgs, list_elem_of_In.
Qed.

Lemma chats_ok_empty : chats_ok ∅.
Proof.
  split; [apply map_Forall_empty|].
  intros i j c1 c2 H. by rewrite lookup_empty in H.
Qed.

Lemma chat_step_preserves_ok cs cs' : chats_ok cs → chat_step cs cs' → chats_ok cs'.
Proof.
  intros Hok [].
  - by eapply getOrCreate_preserves_ok.
  - by eapply sendMessage_preserves_ok.
  - by eapply markRead_preserves_ok.
  - by eapply deleteMessage_preserves_ok.
Qed.

(** Every collection the handlers can produce is well formed. *)
Lemma reachable_ok cs : reachable cs → chats_ok cs.
Proof.
  unfold reachable. intros H.
  refine (rtc_ind_r (R := chat_step) (λ cs, chats_ok cs) ∅ chats_ok_empty _ cs H).
  intros y z _ Hstep IH. by eapply chat_step_preserves_ok.
Qed.


(** [C2] In every chats collection the handlers can produce, each chat has
    exactly two participants and no two chats have the same unordered pair
    of participants.  On such a collection, get-or-create between two
    existing users answers [NotMatched] when the other user is not among the
    current user's matches and succeeds otherwise (given an unused id for a
    new chat); when it succeeds the users are matched, the returned chat is
    stored and holds both users, a chat that already holds both is returned
    without any write, and a chat is created only when no chat holds both;
    the collection it leaves is again one the handlers can produce. *)
Theorem getOrCreate_one_chat_per_pair (us : Directory) (cs : Chats)
    (a b newId : ObjectId) (now : Time) :
  reachable cs →
  (∀ i c, cs !! i = Some c → length (participants c) = 2%nat) ∧
  (∀ i j c1 c2,
     cs !! i = Some c1 → cs !! j = Some c2 → same_pair c1 c2 → i = j) ∧
  (∀ ua ub, us !! a = Some ua → us !! b = Some ub → b ∉ matches ua →
     getOrCreate us cs a b newId now = Err NotMatched) ∧
  (∀ ua ub, us !! a = Some ua → us !! b = Some ub → b ∈ matches ua →
     cs !! newId = None →
     ∃ cs' doc, getOrCreate us cs a b newId now = Ok (cs', doc)) ∧
  (∀ cs' doc, getOrCreate us cs a b newId now = Ok (cs', doc) →
     (∃ ua, us !! a = Some ua ∧ b ∈ matches ua) ∧
     cs' !! doc.1 = Some doc.2 ∧
     a ∈ participants doc.2 ∧ b ∈ participants doc.2 ∧
     length (participants doc.2) = 2%nat ∧
     reachable cs' ∧
     ((∃ i c, cs !! i = Some c ∧ a ∈ participants c ∧ b ∈ participants c) →
      cs' = cs ∧ cs !! doc.1 = Some doc.2) ∧
     ((¬ ∃ i c, cs !! i = Some c ∧ a ∈ participants c ∧ b ∈ participants c) →
      doc = (newId, new_chat [a; b] now) ∧
      cs' = <[newId := new_chat [a; b] now]> cs)).
Proof.
  intros Hreach. pose proof (reachable_ok _ Hreach) as [Hall Huniq].
  split_and!.
  - intros i c Hc. by destruct (Hall _ _ Hc).
  - exact Huniq.
  - intros ua ub Ha Hb Hnm. unfold getOrCreate. rewrite Ha, Hb.
    by apply includes_false in Hnm as ->.
  - intros ua ub Ha Hb Hm Hfresh. unfold getOrCreate. rewrite Ha, Hb.
    apply includes_true in Hm as ->. cbn [negb].
    destruct (findOne_all cs [a; b]); [by eexists _, _|].
    rewrite Hfresh. cbv zeta. rewrite save_chat_two by done. by eexists _, _.
  - intros cs' doc H.
    assert (reachable cs') as Hreach'.
    { eapply rtc_r; [exact Hreach|]. by eapply step_getOrCreate. }
    pose proof (reachable_ok _ Hreach') as [Hall' _].
    apply getOrCreate_Ok_inv in H as (ua & ub & Ha & Hb & Hm & H).
    assert (∀ i c, cs !! i = Some c → a ∈ participants c → b ∈ participants c →
                   is_Some (findOne_all cs [a; b])) as Hfound.
    { intros i c Hc Hpa Hpb. eapply findOne_all_is_Some; [done|].
      intros x Hx. apply elem_of_cons in Hx as [->|Hx]; [done|].
      by apply list_elem_of_singleton in Hx as ->. }
    destruct H as [[Hf ->]|(Hnone & Hfresh & -> & ->)].
    + apply findOne_all_Some in Hf as [Hdoc Hboth].
      assert (a ∈ participants doc.2) by (apply Hboth; by left).
      assert (b ∈ participants doc.2) by (apply Hboth; right; by left).
      split_and!; try done.
      * by exists ua.
      * by destruct (Hall _ _ Hdoc).
      * intros Hno. exfalso. apply Hno. by exists doc.1, doc.2.
    + simpl. split_and!; try done.
      * by exists ua.
      * by rewrite lookup_insert_eq.
      * by left.
      * right; by left.
      * intros (i & c & Hc & Hpa & Hpb).
        destruct (Hfound _ _ Hc Hpa Hpb) as [? Hs]. by rewrite Hnone in Hs.
Qed.

Lemma first_chat_reachable : reachable first_chat.
Proof.
  eapply rtc_l; [|apply rtc_refl].
  apply (step_getOrCreate ∅ first_chat alice_and_bob_matched 1 2 7 500
           (7%N, new_chat [1%N; 2%N] 500)).
  vm_compute. reflexivity.
Qed.

Lemma getOrCreate_one_chat_per_pair_witness :
  reachable first_chat ∧
  (∀ i c, first_chat !! i = Some c → length (participants c) = 2%nat) ∧
  (∀ i j c1 c2,
     first_chat !! i = Some c1 → first_chat !! j = Some c2 →
     same_pair c1 c2 → i = j) ∧
  (∀ ua ub,
     alice_and_bob_matched !! 2%N = Some ua →
     alice_and_bob_matched !! 1%N = Some ub → 1%N ∉ matches ua →
     getOrCreate alice_and_bob_matched first_chat 2 1 8 600 = Err NotMatched) ∧
  (∀ ua ub,
     alice_and_bob_matched !! 2%N = Some ua →
     alice_and_bob_matched !! 1%N = Some ub → 1%N ∈ matches ua →
     first_chat !! 8%N = None →
     ∃ cs' doc,
       getOrCreate alice_and_bob_matched first_chat 2 1 8 600 = Ok (cs', doc)) ∧
  (∀ cs' doc,
     getOrCreate alice_and_bob_matched first_chat 2 1 8 600 = Ok (cs', doc) →
     (∃ ua, alice_and_bob_matched !! 2%N = Some ua ∧ 1%N ∈ matches ua) ∧
     cs' !! doc.1 = Some doc.2 ∧
     2%N ∈ participants doc.2 ∧ 1%N ∈ participants doc.2 ∧
     length (participants doc.2) = 2%nat ∧
     reachable cs' ∧
     ((∃ i c, first_chat !! i = Some c ∧
              2%N ∈ participants c ∧ 1%N ∈ participants c) →
      cs' = first_chat ∧ first_chat !! doc.1 = Some doc.2) ∧
     ((¬ ∃ i c, first_chat !! i = Some c ∧
                2%N ∈ participants c ∧ 1%N ∈ participants c) →
      doc = (8%N, new_chat [2%N; 1%N] 600) ∧
      cs' = <[8%N := new_chat [2%N; 1%N] 600]> first_chat)).
Proof.
  split; [exact first_chat_reachable|].
  exact (getOrCreate_one_chat_per_pair alice_and_bob_matched first_chat 2 1 8 600
           first_chat_reachable).
Defined.

(** The example chat is one the handlers produce: Alice opens the chat and
    writes, Bob answers. *)
Example talk_reachable : reachable talk.
Proof.
  eapply rtc_r; [eapply rtc_r; [exact first_chat_reachable|]|].
  - apply (step_sendMessage first_chat
             (<[7%N := set_lastMessage
                         (Some {| lm_content := Some "hi Bob";
                                  lm_sender := Some 1%N; lm_timestamp := 1001 |})
                         (set_messages [hello] (new_chat [1%N; 2%N] 500))]> ∅)
             7 1 "hi Bob" text 101 1000 1001 1001 hello).
    vm_compute. reflexivity.
  - apply (step_sendMessage _ talk 7 2 "hi Alice" text 102 2000 2001 2001 answer).
    vm_compute. reflexivity.
Qed.

(** Bob opens the chat Alice created: the same chat comes back. *)
Example getOrCreate_again :
  getOrCreate alice_and_bob_matched first_chat 2 1 8 600 =
  Ok (first_chat, (7%N, new_chat [1%N; 2%N] 500)).
Proof. vm_compute. reflexivity. Qed.

Lemma receipts_absent requester (l : list ReadReceipt) :
  requester ∉ user <$> l → filter (λ read, user read = requester) l = [].
Proof.
  induction l as [|r l IH]; [done|]. simpl. intros Hn.
  apply not_elem_of_cons in Hn as [Hr Hl].
  rewrite filter_cons_False by congruence. by apply IH.
Qed.

Lemma receipts_present requester m :
  NoDup (user <$> readBy m) → requester ∈ user <$> readBy m →
  receipts requester m = 1%nat.
Proof.
  unfold receipts. induction (readBy m) as [|r l IH]; simpl.
  - intros _ H. by apply elem_of_nil in H.
  - intros Hnd Hin. apply NoDup_cons in Hnd as [Hr Hnd].
    destruct (decide (user r = requester)) as [Heq|Hne].
    + rewrite filter_cons_True by done. simpl.
      rewrite receipts_absent; [done|]. by rewrite <- Heq.
    + rewrite filter_cons_False by done. apply IH; [done|].
      apply elem_of_cons in Hin as [Hin|Hin]; [congruence|done].
Qed.

Lemma visit_hasRead requester clock i m :
  hasRead requester (visit requester clock i m) = true.
Proof.
  unfold visit. destruct (hasRead requester m) eqn:E; [done|].
  apply hasRead_true. simpl. rewrite fmap_app. apply elem_of_app. right.
  by apply list_elem_of_singleton.
Qed.

Lemma visit_receipts requester clock i m :
  NoDup (user <$> readBy m) → receipts requester (visit requester clock i m) = 1%nat.
Proof.
  intros Hnd. apply receipts_present; [by apply visit_NoDup|].
  apply hasRead_true, visit_hasRead.
Qed.

Lemma visit_read requester clock i m :
  hasRead requester m = true → visit requester clock i m = m.
Proof. unfold visit. by intros ->. Qed.

Lemma imap_visit_twice requester clock1 clock2 (l : list Message) :
  imap (visit requester clock2) (imap (visit requester clock1) l) =
  imap (visit requester clock1) l.
Proof.
  apply list_eq. intros i. rewrite !list_lookup_imap.
  destruct (l !! i) as [m|]; [|done]. simpl.
  by rewrite visit_read by apply visit_hasRead.
Qed.

(** [C9] On a well-formed chat of which the requester is a participant,
    marking as read succeeds and leaves exactly one read receipt of the
    requester on every message; marking again, at any later times, succeeds
    and leaves the collection as it was. *)
Theorem markRead_idempotent (cs : Chats) (chatId requester : ObjectId)
    (chat : Chat) (clock1 clock2 : nat → Time) :
  cs !! chatId = Some chat → chat_ok chat → requester ∈ participants chat →
  ∃ cs1 chat1,
    markRead cs chatId requester clock1 = Ok cs1 ∧
    cs1 !! chatId = Some chat1 ∧
    length (messages chat1) = length (messages chat) ∧
    Forall (λ m, receipts requester m = 1%nat) (messages chat1) ∧
    markRead cs1 chatId requester clock2 = Ok cs1.
Proof.
  intros Hc [Hlen Hmsgs] Hp.
  set (chat1 := set_messages (imap (visit requester clock1) (messages chat)) chat).
  exists (<[chatId := chat1]> cs), chat1.
  assert (markRead cs chatId requester clock1 = Ok (<[chatId := chat1]> cs)) as H1.
  { unfold markRead. rewrite Hc. apply includes_true in Hp as ->. cbn [negb].
    by apply save_chat_two. }
  split_and!.
  - done.
  - by rewrite lookup_insert_eq.
  - simpl. by rewrite length_imap.
  - simpl. apply Forall_forall. intros m Hm.
    apply elem_of_lookup_imap in Hm as (i & m0 & -> & Hi).
    apply visit_receipts. rewrite Forall_forall in Hmsgs.
    eapply Hmsgs, list_elem_of_lookup_2, Hi.
  - unfold markRead. rewrite lookup_insert_eq.
    replace (includes (participants chat1) requester) with true
      by (symmetry; by apply includes_true).
    cbn [negb]. rewrite save_chat_two by done.
    f_equal. rewrite insert_insert_eq. f_equal.
    unfold chat1. simpl. by rewrite imap_visit_twice.
Qed.

Lemma conversation_ok : chat_ok conversation.
Proof.
  split; [reflexivity|]. simpl.
  repeat constructor; simpl; apply not_elem_of_nil.
Qed.

Lemma markRead_idempotent_witness :
  talk !! 7%N = Some conversation ∧ chat_ok conversation ∧
  2%N ∈ participants conversation ∧
  ∃ cs1 chat1,
    markRead talk 7 2 (λ i, 5000 + Z.of_nat i)%Z = Ok cs1 ∧
    cs1 !! 7%N = Some chat1 ∧
    length (messages chat1) = length (messages conversation) ∧
    Forall (λ m, receipts 2 m = 1%nat) (messages chat1) ∧
    markRead cs1 7 2 (λ i, 6000 + Z.of_nat i)%Z = Ok cs1.
Proof.
  assert (talk !! 7%N = Some conversation) as H1 by (vm_compute; reflexivity).
  assert (2%N ∈ participants conversation) as H3
    by (simpl; apply elem_of_cons; right; apply elem_of_cons; by left).
  split; [exact H1|]. split; [exact conversation_ok|]. split; [exact H3|].
  exact (markRead_idempotent talk 7 2 conversation _ _ H1 conversation_ok H3).
Defined.

(** Bob reads the chat: Alice's message gets his receipt, his own message
    keeps its single receipt. *)
Example markRead_talk :
  markRead talk 7 2 (λ i, 5000 + Z.of_nat i)%Z =
  Ok (<[7%N := set_messages
                 [set_readBy [{| user := 1; readAt := 1000 |};
                              {| user := 2; readAt := 5000 |}] hello;
                  answer] conversation]> talk).
Proof. vm_compute. reflexivity. Qed.

(** After a message is sent, [lastMessage] holds its content and sender and
    the time the handler read; the message's [createdAt] is the time of the
    save. *)
Lemma sendMessage_lastMessage cs chatId requester body ty msgId t1 t2 t3 cs' m :
  sendMessage cs chatId requester body ty msgId t1 t2 t3 = Ok (cs', m) →
  ∃ chat chat',
    cs !! chatId = Some chat ∧ cs' !! chatId = Some chat' ∧
    messages chat' = messages chat ++ [m] ∧
    createdAt m = t3 ∧
    lastMessage chat' =
      Some {| lm_content := Some (content m);
              lm_sender := Some (sender m); lm_timestamp := t2 |}.
Proof.
  unfold sendMessage. intros H.
  destruct (bool_decide _); [|done]. cbn [negb] in H.
  destruct (cs !! chatId) as [c|] eqn:Hc; [|done].
  destruct (includes (participants c) requester); [|done]. cbn [negb] in H.
  destruct (save_chat _ _ _) as [cs1|] eqn:Hs; [|done].
  apply save_chat_Ok in Hs as [Hlen ->]. simplify_eq.
  eexists c, _. split; [done|]. split; [by rewrite lookup_insert_eq|]. done.
Qed.




(** Alice deletes her first message: Bob's answer is still the last one. *)
Example deleteMessage_talk :
  deleteMessage talk 7 101 1 =
  Ok (<[7%N := set_messages [answer] conversation]> talk).
Proof. vm_compute. reflexivity. Qed.

(** Deleting the only message of a chat. *)
Example deleteMessage_only :
  deleteMessage (<[7%N := set_messages [answer] conversation]> talk) 7 102 2 =
  Ok (<[7%N := set_lastMessage None (set_messages [] conversation)]> talk).
Proof. vm_compute. reflexivity. Qed.

Lemma listMessages_Ok cs chatId requester chat page limit :
  cs !! chatId = Some chat → requester ∈ participants chat →
  listMessages cs chatId requester page limit =
  Ok (rev (js_slice (js_sort (descending createdAt) (messages chat))
             ((page - 1) * limit) ((page - 1) * limit + limit)),
      bool_decide ((page - 1) * limit + limit < Z.of_nat (length (messages chat)))%Z).
Proof.
  intros Hc Hp. unfold listMessages. rewrite Hc.
  by apply includes_true in Hp as ->.
Qed.

(** [C5] For a participant of the chat, a page number of at least 1 and a
    non-negative page size, the handler orders the messages newest first,
    skips [(page - 1) * limit] of them, keeps the next [limit] and returns
    them reversed, oldest first; [hasMore] is true exactly when there are
    more than [skip + limit] messages.  With 120 messages and a page size of
    50, page 1 is the 50 newest with [hasMore] true and page 3 the remaining
    20 with [hasMore] false. *)
Theorem listMessages_pages (cs : Chats) (chatId requester : ObjectId)
    (chat : Chat) (page limit : Z) :
  cs !! chatId = Some chat → requester ∈ participants chat →
  (1 ≤ page)%Z → (0 ≤ limit)%Z →
  let skip := ((page - 1) * limit)%Z in
  let newest_first := js_sort (descending createdAt) (messages chat) in
  ∃ msgs hasMore,
    listMessages cs chatId requester page limit = Ok (msgs, hasMore) ∧
    newest_first ≡ₚ messages chat ∧
    StronglySorted (λ a b, createdAt b ≤ createdAt a)%Z newest_first ∧
    msgs = rev (take (Z.to_nat limit) (drop (Z.to_nat skip) newest_first)) ∧
    StronglySorted (λ a b, createdAt a ≤ createdAt b)%Z msgs ∧
    (hasMore = true ↔ (skip + limit < Z.of_nat (length (messages chat)))%Z) ∧
    (length (messages chat) = 120%nat → limit = 50%Z →
     (page = 1%Z →
      msgs = rev (take 50 newest_first) ∧ length msgs = 50%nat ∧ hasMore = true) ∧
     (page = 3%Z →
      msgs = rev (drop 100 newest_first) ∧ length msgs = 20%nat ∧ hasMore = false)).
Proof.
  intros Hc Hp Hpage Hlimit skip newest_first.
  assert (0 ≤ skip)%Z as Hskip by (unfold skip; nia).
  pose proof (js_sort_descending createdAt (messages chat)) as Hsorted.
  fold newest_first in Hsorted.
  assert (length newest_first = length (messages chat)) as Hlen
    by apply js_sort_length.
  eexists _, _. split; [by apply listMessages_Ok|].
  fold skip newest_first. rewrite js_slice_take_drop by done.
  split_and!.
  - apply js_sort_perm.
  - done.
  - done.
  - apply (StronglySorted_rev (λ a b, createdAt b ≤ createdAt a)%Z).
    by apply StronglySorted_take, StronglySorted_drop.
  - apply bool_decide_eq_true.
  - intros H120 ->. split.
    + intros ->. unfold skip. simpl. split_and!.
      * done.
      * rewrite length_rev, length_take, length_drop. lia.
      * apply bool_decide_eq_true. lia.
    + intros ->. unfold skip. simpl.
      change (Pos.to_nat 100) with 100%nat. change (Pos.to_nat 50) with 50%nat.
      rewrite take_ge by (rewrite length_drop; lia).
      split_and!.
      * done.
      * rewrite length_rev, length_drop. lia.
      * apply bool_decide_eq_false. lia.
Qed.

Lemma listMessages_pages_witness :
  archive !! 9%N = Some long_conversation ∧
  1%N ∈ participants long_conversation ∧
  ∃ msgs hasMore,
    listMessages archive 9 1 1 50 = Ok (msgs, hasMore) ∧
    js_sort (descending createdAt) (messages long_conversation)
      ≡ₚ messages long_conversation ∧
    StronglySorted (λ a b, createdAt b ≤ createdAt a)%Z
      (js_sort (descending createdAt) (messages long_conversation)) ∧
    msgs = rev (take (Z.to_nat 50)
                  (drop (Z.to_nat ((1 - 1) * 50))
                     (js_sort (descending createdAt) (messages long_conversation)))) ∧
    StronglySorted (λ a b, createdAt a ≤ createdAt b)%Z msgs ∧
    (hasMore = true ↔
     ((1 - 1) * 50 + 50 < Z.of_nat (length (messages long_conversation)))%Z) ∧
    (length (messages long_conversation) = 120%nat → 50%Z = 50%Z →
     (1%Z = 1%Z →
      msgs = rev (take 50 (js_sort (descending createdAt) (messages long_conversation))) ∧
      length msgs = 50%nat ∧ hasMore = true) ∧
     (1%Z = 3%Z →
      msgs = rev (drop 100 (js_sort (descending createdAt) (messages long_conversation))) ∧
      length msgs = 20%nat ∧ hasMore = false)).
Proof.
  assert (archive !! 9%N = Some long_conversation) as H1 by (vm_compute; reflexivity).
  assert (1%N ∈ participants long_conversation) as H2
    by (simpl; apply elem_of_cons; by left).
  split; [exact H1|]. split; [exact H2|].
  apply (listMessages_pages archive 9 1 long_conversation 1 50 H1 H2); lia.
Defined.

(** The first page of the archive is notes 70 to 119, oldest first, and the
    third page is notes 0 to 19. *)
Example listMessages_archive_first :
  listMessages archive 9 1 1 50 = Ok (map note (seq 70 50), true).
Proof. vm_compute. reflexivity. Qed.

Example listMessages_archive_third :
  listMessages archive 9 1 3 50 = Ok (map note (seq 0 20), false).
Proof. vm_compute. reflexivity. Qed.

(** * Further properties of the users collection *)

Lemma dislike_Ok_inv s a b s' :
  dislike s a b = Ok s' →
  ∃ ua, s !! a = Some ua ∧ (b ∉ dislikedUsers ua) ∧
        s' = <[a := set_dislikedUsers (dislikedUsers ua ++ [b]) ua]> s.
Proof.
  unfold dislike. intros H.
  destruct (s !! a) as [ua|]; [|done].
  destruct (includes (dislikedUsers ua) b) eqn:E; [done|].
  apply includes_false in E. exists ua. by simplify_eq.
Qed.

Lemma unmatch_Ok_inv s a b s' :
  unmatch s a b = Ok s' →
  ∃ ua ub,
    s !! a = Some ua ∧ s !! b = Some ub ∧
    s' = <[b := set_likedUsers (without a (likedUsers ub))
                  (set_matches (without a (matches ub)) ub)]>
           (<[a := set_likedUsers (without b (likedUsers ua))
                     (set_matches (without b (matches ua)) ua)]> s).
Proof.
  unfold unmatch. intros H.
  destruct (s !! a) as [ua|]; [|done].
  destruct (s !! b) as [ub|]; [|done].
  exists ua, ub. by simplify_eq.
Qed.

(** What a successful profile handler saved: one user's document, with the
    three relationship arrays as they were. *)
Lemma updateProfile_Saved_inv s userId up s' :
  updateProfile s userId up = Saved s' →
  ∃ u, valid_updates up = true ∧ s !! userId = Some u ∧
       s' = <[userId := refresh_profileCompleted (apply_updates up u)]> s.
Proof.
  unfold updateProfile. intros H.
  destruct (valid_updates up); [|done]. cbn [negb] in H.
  destruct (s !! userId) as [u|]; [|done].
  exists u. by simplify_eq.
Qed.

Lemma uploadPhotos_Saved_inv s userId files s' :
  uploadPhotos s userId files = Saved s' →
  ∃ u, files ≠ [] ∧ s !! userId = Some u ∧
       s' = <[userId := refresh_profileCompleted
                           (set_photos (uploaded u files) u)]> s.
Proof.
  unfold uploadPhotos. intros H.
  destruct files as [|f files]; [done|]. cbn [length Nat.eqb] in H.
  destruct (s !! userId) as [u|]; [|done].
  exists u. by simplify_eq.
Qed.

Lemma setMainPhoto_Saved_inv s userId photoUrl s' :
  setMainPhoto s userId photoUrl = Saved s' →
  ∃ u, s !! userId = Some u ∧
       is_Some (List.find (has_url photoUrl) (map (set_isMain false) (photos u))) ∧
       s' = <[userId :=
                set_photos
                  (update_first (has_url photoUrl) (set_isMain true)
                     (map (set_isMain false) (photos u))) u]> s.
Proof.
  unfold setMainPhoto. intros H.
  destruct (s !! userId) as [u|]; [|done].
  destruct (List.find _ _) eqn:E; [|done].
  exists u. split; [done|]. split; [by eexists|]. by simplify_eq.
Qed.

Lemma deletePhoto_Saved_inv s userId photoUrl s' :
  deletePhoto s userId photoUrl = Saved s' →
  ∃ u i, s !! userId = Some u ∧
         findIndex (has_url photoUrl) (photos u) = Some i ∧
         s' = <[userId := refresh_profileCompleted
                             (set_photos (after_delete (photos u) i) u)]> s.
Proof.
  unfold deletePhoto. intros H.
  destruct (s !! userId) as [u|]; [|done].
  destruct (findIndex _ _) as [i|] eqn:E; [|done].
  exists u, i. by simplify_eq.
Qed.

Lemma updateLocation_Saved_inv s userId latitude longitude s' :
  updateLocation s userId latitude longitude = Saved s' →
  ∃ u lat lon,
    latitude = Some lat ∧ longitude = Some lon ∧
    Qle_bool (-90) lat = true ∧ Qle_bool lat 90 = true ∧
    Qle_bool (-180) lon = true ∧ Qle_bool lon 180 = true ∧
    s !! userId = Some u ∧
    s' = <[userId := set_location {| longitude := lon; latitude := lat |} u]> s.
Proof.
  unfold updateLocation. intros H.
  destruct latitude as [lat|]; [|done]. destruct longitude as [lon|]; [|done].
  destruct (isFloat_between (-90) 90 (Some lat) &&
            isFloat_between (-180) 180 (Some lon)) eqn:E; [|done].
  cbn [negb] in H. destruct (s !! userId) as [u|]; [|done].
  apply andb_prop in E as [E1 E2]. simpl in E1, E2.
  apply andb_prop in E1 as [??]. apply andb_prop in E2 as [??].
  exists u, lat, lon. split_and!; try done. by simplify_eq.
Qed.

Lemma updatePreferences_Saved_inv s userId ageRange newDistance s' :
  updatePreferences s userId ageRange newDistance = Saved s' →
  ∃ u, valid_preferences ageRange newDistance = true ∧
       (∀ r, ageRange = Some r → (r.1 ≤ r.2)%Z) ∧
       s !! userId = Some u ∧
       s' = <[userId :=
                set_preferences
                  (new_preferences ageRange newDistance (preferences u)) u]> s.
Proof.
  unfold updatePreferences. intros H.
  destruct (valid_preferences ageRange newDistance); [|done]. cbn [negb] in H.
  destruct (s !! userId) as [u|]; [|done].
  exists u. split; [done|].
  destruct ageRange as [r|].
  - destruct (Z.ltb_spec r.2 r.1); [done|].
    split; [by intros ? [= <-]|]. split; [done|]. by simplify_eq.
  - split; [done|]. split; [done|]. by simplify_eq.
Qed.

Lemma relations_ok_same s id u u' :
  relations_ok s → s !! id = Some u →
  likedUsers u' = likedUsers u → dislikedUsers u' = dislikedUsers u →
  matches u' = matches u →
  relations_ok (<[id := u']> s).
Proof.
  intros (Hok & Hnd & Hsym) Hu Hl Hd Hm. split_and!.
  - apply map_Forall_insert_2; [|done].
    destruct (Hok _ _ Hu) as [H1 H2]. split; rewrite Hm, ?Hl; done.
  - intros x ux Hx. rewrite lookup_insert in Hx.
    destruct (decide (id = x)) as [->|]; simplify_eq.
    + rewrite Hl, Hd, Hm. by apply (Hnd x).
    + by apply (Hnd x).
  - intros a b ua Ha Hb.
    assert (∃ ua0, s !! a = Some ua0 ∧ matches ua0 = matches ua) as (ua0 & Ha0 & Heq).
    { rewrite lookup_insert in Ha. destruct (decide (id = a)) as [->|]; simplify_eq.
      - by exists u.
      - by exists ua. }
    rewrite <- Heq in Hb. destruct (Hsym _ _ _ Ha0 Hb) as (ub & Hub & Hab).
    destruct (decide (id = b)) as [->|Hne].
    + exists u'. rewrite lookup_insert_eq. split; [done|].
      rewrite Hm. by simplify_eq.
    + exists ub. by rewrite lookup_insert_ne.
Qed.

Lemma like_keeps_relations s a b s' r :
  relations_ok s → like s a b = Ok (s', r) → relations_ok s'.
Proof.
  intros Hrel H. pose proof Hrel as (Hok & Hnd & Hsym).
  assert (directory_ok s') as Hok' by by eapply like_preserves_ok.
  apply like_Ok_inv in H as (ua & ub & Ha & Hb & Hnl & H).
  destruct (Hnd _ _ Ha) as (Hla & Hda & Hma).
  destruct (Hnd _ _ Hb) as (Hlb & Hdb & Hmb).
  pose proof (user_ok_not_liked _ _ _ (Hok _ _ Ha) Hnl) as Hnm.
  destruct H as [(_ & _ & _ & ->)|(Hr & _ & _ & ->)].
  - split_and!; [done| |].
    + intros x ux Hx. rewrite lookup_insert in Hx.
      destruct (decide (a = x)) as [->|]; simplify_eq; [|by apply (Hnd x)].
      simpl. split_and!; [|done|done].
      apply NoDup_app. split_and!; [done| |apply NoDup_singleton].
      intros y Hy ->%list_elem_of_singleton. done.
    + intros x y ux Hx Hy.
      assert (∃ ux0, s !! x = Some ux0 ∧ matches ux0 = matches ux) as (ux0 & Hx0 & Heq).
      { rewrite lookup_insert in Hx. destruct (decide (a = x)) as [->|]; simplify_eq.
        - by exists ua.
        - by exists ux. }
      rewrite <- Heq in Hy. destruct (Hsym _ _ _ Hx0 Hy) as (uy & Huy & Hxy).
      destruct (decide (a = y)) as [->|Hne].
      * eexists. rewrite lookup_insert_eq. split; [done|]. simpl. by simplify_eq.
      * exists uy. by rewrite lookup_insert_ne.
  - assert (a ≠ b) as Hab by (intros ->; simplify_eq; done).
    assert (a ∉ matches ub) as Hnm'.
    { intros Hin. destruct (Hsym _ _ _ Hb Hin) as (ua' & Ha' & Hin').
      by simplify_eq. }
    split_and!; [done| |].
    + intros x ux Hx. rewrite !lookup_insert in Hx.
      destruct (decide (a = x)) as [->|]; simplify_eq.
      { simpl. split_and!; [|done|].
        - apply NoDup_app. split_and!; [done| |apply NoDup_singleton].
          intros y Hy ->%list_elem_of_singleton. done.
        - apply NoDup_app. split_and!; [done| |apply NoDup_singleton].
          intros y Hy ->%list_elem_of_singleton. done. }
      destruct (decide (b = x)) as [->|]; simplify_eq; [|by apply (Hnd x)].
      simpl. split_and!; [done|done|].
      apply NoDup_app. split_and!; [done| |apply NoDup_singleton].
      intros y Hy ->%list_elem_of_singleton. done.
    + intros x y ux Hx Hy. rewrite !lookup_insert in Hx. rewrite !lookup_insert.
      assert (∀ z uz, s !! z = Some uz → x ∈ matches uz →
                ∃ uy0, (if decide (a = z)
                        then Some (set_matches (matches ua ++ [b])
                                     (set_likedUsers (likedUsers ua ++ [b]) ua))
                        else if decide (b = z)
                             then Some (set_matches (matches ub ++ [a]) ub)
                             else s !! z) = Some uy0 ∧ x ∈ matches uy0) as Hold.
      { intros z uz Hz Hin.
        destruct (decide (a = z)) as [->|]; [|destruct (decide (b = z)) as [->|]];
          simplify_eq; eexists; (split; [done|]); simpl; try done;
          apply elem_of_app; by left. }
      destruct (decide (a = x)) as [->|]; simplify_eq.
      { simpl in Hy. apply elem_of_app in Hy as [Hy|Hy].
        - destruct (Hsym _ _ _ Ha Hy) as (uy & Huy & Hxy). by eapply Hold.
        - apply list_elem_of_singleton in Hy as ->.
          rewrite decide_False by done. rewrite decide_True by done.
          eexists. split; [done|]. simpl. apply elem_of_app. right.
          by apply list_elem_of_singleton. }
      destruct (decide (b = x)) as [->|]; simplify_eq.
      { simpl in Hy. apply elem_of_app in Hy as [Hy|Hy].
        - destruct (Hsym _ _ _ Hb Hy) as (uy & Huy & Hxy). by eapply Hold.
        - apply list_elem_of_singleton in Hy as ->.
          rewrite decide_True by done.
          eexists. split; [done|]. simpl. apply elem_of_app. right.
          by apply list_elem_of_singleton. }
      destruct (Hsym _ _ _ Hx Hy) as (uy & Huy & Hxy). by eapply Hold.
Qed.

Lemma NoDup_without x l : NoDup l → NoDup (without x l).
Proof. unfold without. apply NoDup_filter. Qed.

Lemma unmatch_keeps_relations s a b s' :
  relations_ok s → unmatch s a b = Ok s' → relations_ok s'.
Proof.
  intros Hrel H. pose proof Hrel as (Hok & Hnd & Hsym).
  assert (directory_ok s') as Hok' by by eapply unmatch_preserves_ok.
  apply unmatch_Ok_inv in H as (ua & ub & Ha & Hb & ->).
  assert (∀ x ux',
            (<[b := set_likedUsers (without a (likedUsers ub))
                      (set_matches (without a (matches ub)) ub)]>
               (<[a := set_likedUsers (without b (likedUsers ua))
                         (set_matches (without b (matches ua)) ua)]> s)) !! x
            = Some ux' →
            ∃ ux, s !! x = Some ux ∧
                  dislikedUsers ux' = dislikedUsers ux ∧
                  ((x = b ∧ likedUsers ux' = without a (likedUsers ux) ∧
                    matches ux' = without a (matches ux)) ∨
                   (x ≠ b ∧ x = a ∧ likedUsers ux' = without b (likedUsers ux) ∧
                    matches ux' = without b (matches ux)) ∨
                   (x ≠ b ∧ x ≠ a ∧ ux' = ux))) as Hshape.
  { intros x ux' Hx. rewrite !lookup_insert in Hx.
    destruct (decide (b = x)) as [->|]; simplify_eq.
    { exists ub. split_and!; [done|done|]. left. done. }
    destruct (decide (a = x)) as [->|]; simplify_eq.
    { exists ua. split_and!; [done|done|]. right; left. done. }
    exists ux'. split_and!; [done|done|]. right; right. done. }
  split_and!; [done| |].
  - intros x ux' Hx. destruct (Hshape _ _ Hx) as (ux & Hux & Hd & Hcase).
    destruct (Hnd _ _ Hux) as (H1 & H2 & H3). rewrite Hd.
    destruct Hcase as [(_ & -> & ->)|[(_ & _ & -> & ->)|(_ & _ & ->)]];
      split_and!; try done; by apply NoDup_without.
  - intros x y ux' Hx Hy. destruct (Hshape _ _ Hx) as (ux & Hux & _ & Hcase).
    assert (y ∈ matches ux ∧ ¬ (x = b ∧ y = a) ∧ ¬ (x = a ∧ y = b)) as (Hy0 & Hn1 & Hn2).
    { destruct Hcase as [(-> & _ & Hm)|[(Hnb & -> & _ & Hm)|(Hnb & Hna & ->)]].
      - rewrite Hm in Hy. apply elem_of_without in Hy as [??].
        split_and!; [done|tauto|]. intros [-> ->]. done.
      - rewrite Hm in Hy. apply elem_of_without in Hy as [??].
        split_and!; [done| |tauto]. intros [-> _]. done.
      - split_and!; [done| |]; intros [-> ->]; done. }
    destruct (Hsym _ _ _ Hux Hy0) as (uy & Huy & Hxy).
    assert (is_Some ((<[b := set_likedUsers (without a (likedUsers ub))
                      (set_matches (without a (matches ub)) ub)]>
               (<[a := set_likedUsers (without b (likedUsers ua))
                         (set_matches (without b (matches ua)) ua)]> s)) !! y))
      as [uy' Huy'].
    { rewrite !lookup_insert. destruct (decide (b = y)); [by eexists|].
      destruct (decide (a = y)); [by eexists|]. by eexists. }
    exists uy'. split; [done|].
    destruct (Hshape _ _ Huy') as (uy0 & Huy0 & _ & Hcase').
    simplify_eq.
    destruct Hcase' as [(-> & _ & ->)|[(_ & -> & _ & ->)|(_ & _ & ->)]].
    + apply elem_of_without. split; [|done]. intros ->. tauto.
    + apply elem_of_without. split; [|done]. intros ->. tauto.
    + done.
Qed.

Lemma dislike_keeps_relations s a b s' :
  relations_ok s → dislike s a b = Ok s' → relations_ok s'.
Proof.
  intros Hrel H. pose proof Hrel as (Hok & Hnd & Hsym).
  assert (directory_ok s') as Hok' by by eapply dislike_preserves_ok.
  apply dislike_Ok_inv in H as (ua & Ha & Hn & ->).
  destruct (Hnd _ _ Ha) as (Hla & Hda & Hma).
  split_and!; [done| |].
  - intros x ux Hx. rewrite lookup_insert in Hx.
    destruct (decide (a = x)) as [->|]; simplify_eq; [|by apply (Hnd x)].
    simpl. split_and!; [done| |done].
    apply NoDup_app. split_and!; [done| |apply NoDup_singleton].
    intros y Hy ->%list_elem_of_singleton. done.
  - intros x y ux Hx Hy.
    assert (∃ ux0, s !! x = Some ux0 ∧ matches ux0 = matches ux) as (ux0 & Hx0 & Heq).
    { rewrite lookup_insert in Hx. destruct (decide (a = x)) as [->|]; simplify_eq.
      - by exists ua.
      - by exists ux. }
    rewrite <- Heq in Hy. destruct (Hsym _ _ _ Hx0 Hy) as (uy & Huy & Hxy).
    destruct (decide (a = y)) as [->|Hne].
    + eexists. rewrite lookup_insert_eq. split; [done|]. simpl. by simplify_eq.
    + exists uy. by rewrite lookup_insert_ne.
Qed.

Lemma set_relations_id u :
  set_matches (matches u) (set_dislikedUsers (dislikedUsers u)
                             (set_likedUsers (likedUsers u) u)) = u.
Proof. by destruct u. Qed.

Lemma user_step_relations u u' :
  dislikedUsers u `prefix_of` dislikedUsers u' →
  u' = set_matches (matches u')
         (set_dislikedUsers (dislikedUsers u') (set_likedUsers (likedUsers u') u)) →
  user_step u u'.
Proof. intros Hd ->. by constructor. Qed.

(** Every document of the directory a handler leaves is a document of the
    directory it found, changed by one [user_step]. *)
Lemma directory_step_users s s' :
  directory_step s s' →
  ∀ id u', s' !! id = Some u' → ∃ u, s !! id = Some u ∧ user_step u u'.
Proof.
  assert (∀ (s : Directory) id u, s !! id = Some u → ∃ u0, s !! id = Some u0 ∧ user_step u0 u)
    as Hsame.
  { intros s0 id u Hu. exists u. split; [done|].
    apply user_step_relations; [done|by destruct u]. }
  assert (∀ (s : Directory) k u0 u1 id u',
            s !! k = Some u0 → user_step u0 u1 → <[k := u1]> s !! id = Some u' →
            ∃ u, s !! id = Some u ∧ user_step u u') as Hone.
  { intros s0 k u0 u1 id u' Hk Hstep Hl. rewrite lookup_insert in Hl.
    destruct (decide (k = id)) as [->|]; simplify_eq; [by exists u0|by apply Hsame]. }
  intros [a b r H|a b H|a b H|k up H|k files H|k url H|k url H|k lat lon H|k ar nd H]
    id u' Hl.
  - apply like_Ok_inv in H as (ua & ub & Ha & Hb & _ & H).
    destruct H as [(_ & _ & _ & ->)|(_ & _ & _ & ->)].
    + eapply Hone; [exact Ha| |exact Hl].
      apply user_step_relations; [simpl; try done; by eexists|done].
    + rewrite !lookup_insert in Hl.
      destruct (decide (a = id)) as [->|]; simplify_eq.
      { exists ua. split; [done|]. apply user_step_relations; [simpl; try done; by eexists|done]. }
      destruct (decide (b = id)) as [->|]; simplify_eq.
      { exists ub. split; [done|]. apply user_step_relations; [simpl; try done; by eexists|done]. }
      by apply Hsame.
  - apply dislike_Ok_inv in H as (ua & Ha & _ & ->).
    eapply Hone; [exact Ha| |exact Hl].
    apply user_step_relations; [simpl; try done; by eexists|done].
  - apply unmatch_Ok_inv in H as (ua & ub & Ha & Hb & ->).
    rewrite !lookup_insert in Hl.
    destruct (decide (b = id)) as [->|]; simplify_eq.
    { exists ub. split; [done|]. apply user_step_relations; [simpl; try done; by eexists|done]. }
    destruct (decide (a = id)) as [->|]; simplify_eq.
    { exists ua. split; [done|]. apply user_step_relations; [simpl; try done; by eexists|done]. }
    by apply Hsame.
  - apply updateProfile_Saved_inv in H as (u & Hv & Hu & ->).
    eapply Hone; [exact Hu| |exact Hl]. by constructor.
  - apply uploadPhotos_Saved_inv in H as (u & Hf & Hu & ->).
    eapply Hone; [exact Hu| |exact Hl]. by constructor.
  - apply setMainPhoto_Saved_inv in H as (u & Hu & Hf & ->).
    eapply Hone; [exact Hu| |exact Hl]. by constructor.
  - apply deletePhoto_Saved_inv in H as (u & i & Hu & Hi & ->).
    eapply Hone; [exact Hu| |exact Hl]. by econstructor.
  - apply updateLocation_Saved_inv in H
      as (u & la & lo & -> & -> & ? & ? & ? & ? & Hu & ->).
    eapply Hone; [exact Hu| |exact Hl]. by constructor.
  - apply updatePreferences_Saved_inv in H as (u & Hv & Hr & Hu & ->).
    eapply Hone; [exact Hu| |exact Hl]. by constructor.
Qed.

(** A directory of users who have not acted yet. *)
Lemma relations_ok_fresh (s : Directory) :
  map_Forall (λ _ u, likedUsers u = [] ∧ dislikedUsers u = [] ∧ matches u = []) s →
  relations_ok s.
Proof.
  intros H. split_and!.
  - intros id u Hu. destruct (H _ _ Hu) as (_ & _ & Hm). split.
    + rewrite Hm. apply not_elem_of_nil.
    + rewrite Hm. constructor.
  - intros id u Hu. destruct (H _ _ Hu) as (-> & -> & ->).
    split_and!; constructor.
  - intros a b ua Ha Hb. destruct (H _ _ Ha) as (_ & _ & Hm).
    rewrite Hm in Hb. by apply elem_of_nil in Hb.
Qed.

Lemma campus_relations_ok : relations_ok campus.
Proof.
  apply relations_ok_fresh. refine (bool_decide_unpack _ _). vm_compute. exact I.
Qed.

(** [X1] Every handler that writes to the users collection keeps the
    relationship arrays well formed: no id twice in [likedUsers],
    [dislikedUsers] or [matches], every match among the liked users, nobody
    matched with themselves, and every match mutual. *)
Theorem directory_step_keeps_relations (s s' : Directory) :
  relations_ok s → directory_step s s' → relations_ok s'.
Proof.
  intros Hrel Hstep.
  destruct Hstep as
    [a b r H|a b H|a b H|k up H|k files H|k url H|k url H|k lat lon H|k ar nd H].
  - by eapply like_keeps_relations.
  - by eapply dislike_keeps_relations.
  - by eapply unmatch_keeps_relations.
  - apply updateProfile_Saved_inv in H as (u & _ & Hu & ->).
    by eapply relations_ok_same.
  - apply uploadPhotos_Saved_inv in H as (u & _ & Hu & ->).
    by eapply relations_ok_same.
  - apply setMainPhoto_Saved_inv in H as (u & Hu & _ & ->).
    by eapply relations_ok_same.
  - apply deletePhoto_Saved_inv in H as (u & i & Hu & _ & ->).
    by eapply relations_ok_same.
  - apply updateLocation_Saved_inv in H
      as (u & la & lo & _ & _ & _ & _ & _ & _ & Hu & ->).
    by eapply relations_ok_same.
  - apply updatePreferences_Saved_inv in H as (u & _ & _ & Hu & ->).
    by eapply relations_ok_same.
Qed.

Lemma directory_step_keeps_relations_witness :
  relations_ok campus ∧ directory_step campus alice_liked_bob ∧
  relations_ok alice_liked_bob.
Proof.
  assert (directory_step campus alice_liked_bob) as Hstep.
  { apply (step_like campus alice_liked_bob 1 2 one_sided). vm_compute. reflexivity. }
  split; [exact campus_relations_ok|]. split; [exact Hstep|].
  exact (directory_step_keeps_relations campus alice_liked_bob
           campus_relations_ok Hstep).
Defined.

(** ** Photos *)

Lemma mains_cons p l :
  mains (p :: l) = ((if isMain p then 1 else 0) + mains l)%nat.
Proof.
  unfold mains. destruct (isMain p) eqn:E.
  - by rewrite filter_cons_True.
  - rewrite filter_cons_False; [done|]. by rewrite E.
Qed.

Lemma mains_app l1 l2 : mains (l1 ++ l2) = (mains l1 + mains l2)%nat.
Proof. unfold mains. by rewrite filter_app, length_app. Qed.

Lemma mains_drop n l : (mains (drop n l) ≤ mains l)%nat.
Proof. rewrite <- (take_drop n l) at 2. rewrite mains_app. lia. Qed.

Lemma mains_none l : Forall (λ p, isMain p = false) l → mains l = 0%nat.
Proof.
  induction 1 as [|p l Hp _ IH]; [done|]. by rewrite mains_cons, Hp, IH.
Qed.

Lemma mains_delete i l p :
  l !! i = Some p →
  mains l = ((if isMain p then 1 else 0) + mains (delete i l))%nat.
Proof.
  revert i. induction l as [|q l IH]; intros [|i] H; simplify_eq/=.
  - by rewrite mains_cons.
  - rewrite !mains_cons, (IH _ H). lia.
Qed.

Lemma imap_not_main {A} (g : nat → A → Photo) (l : list A) :
  (∀ i x, isMain (g i x) = false) → Forall (λ p, isMain p = false) (imap g l).
Proof.
  revert g. induction l as [|x l IH]; intros g Hg; simpl; constructor.
  - apply Hg.
  - apply IH. intros i y. apply Hg.
Qed.

Lemma mains_newPhotos u files :
  mains (newPhotos u files) =
  if (length (photos u) =? 0)%nat && negb (length files =? 0)%nat then 1%nat else 0%nat.
Proof.
  unfold newPhotos. destruct files as [|x files]; simpl.
  - by rewrite andb_false_r.
  - rewrite mains_cons. simpl. rewrite andb_true_r.
    rewrite mains_none.
    + by destruct (length (photos u) =? 0)%nat.
    + apply imap_not_main. intros i y. simpl. apply andb_false_r.
Qed.

(** [slice(-6)] on more than six photos drops all but the last six. *)
Lemma uploaded_drop u files :
  uploaded u files =
  drop (length (photos u ++ newPhotos u files) - 6)
       (photos u ++ newPhotos u files).
Proof.
  unfold uploaded. cbv zeta.
  set (l := photos u ++ newPhotos u files).
  destruct (Nat.ltb_spec 6 (length l)) as [Hlt|Hge].
  - unfold js_slice. cbv zeta.
    replace (-6 <? 0)%Z with true by done.
    destruct (Z.ltb_spec (Z.of_nat (length l)) 0) as [?|_]; [lia|].
    rewrite Z.max_l by lia. rewrite Z.min_id.
    replace (Z.to_nat (Z.of_nat (length l) + -6)) with (length l - 6)%nat by lia.
    rewrite take_ge; [done|]. rewrite length_drop. lia.
  - replace (length l - 6)%nat with 0%nat by lia. done.
Qed.

Lemma length_newPhotos u files : length (newPhotos u files) = length files.
Proof. unfold newPhotos. by rewrite length_imap. Qed.

Lemma findIndex_Some {A} (test : A → bool) (l : list A) i :
  findIndex test l = Some i →
  ∃ x, l !! i = Some x ∧ test x = true ∧
       ∀ j y, (j < i)%nat → l !! j = Some y → test y = false.
Proof.
  revert i. induction l as [|x l IH]; intros i H; simpl in H; [done|].
  destruct (test x) eqn:E.
  - injection H as <-. exists x. split_and!; [done|done|]. intros j y Hj. lia.
  - destruct (findIndex test l) as [k|] eqn:Ek; [|done]. injection H as <-.
    destruct (IH k eq_refl) as (y & Hy & Ht & Hbefore).
    exists y. split_and!; [done|done|].
    intros [|j] z Hj Hz; simplify_eq/=; [done|].
    eapply Hbefore; [|done]. lia.
Qed.

Lemma findIndex_None {A} (test : A → bool) (l : list A) :
  findIndex test l = None ↔ Forall (λ x, test x = false) l.
Proof.
  induction l as [|x l IH]; simpl.
  - split; [constructor|done].
  - destruct (test x) eqn:E.
    + split; [done|]. intros H. apply Forall_cons in H as [H _]. congruence.
    + destruct (findIndex test l) as [k|].
      * split; [done|]. intros H. apply Forall_cons in H as [_ H].
        by apply IH in H.
      * split; [|done]. intros _. constructor; [done|]. by apply IH.
Qed.

Lemma find_findIndex {A} (test : A → bool) (l : list A) :
  is_Some (List.find test l) ↔ is_Some (findIndex test l).
Proof.
  induction l as [|x l IH]; simpl.
  - split; intros [? ?]; done.
  - destruct (test x); [split; by eexists|].
    rewrite IH. destruct (findIndex test l); split; intros [? ?]; by eexists.
Qed.

Lemma update_first_insert {A} (test : A → bool) (f : A → A) (l : list A) i :
  findIndex test l = Some i →
  ∃ x, l !! i = Some x ∧ update_first test f l = <[i := f x]> l.
Proof.
  revert i. induction l as [|x l IH]; intros i H; simpl in H; [done|].
  simpl. destruct (test x) eqn:E.
  - injection H as <-. by exists x.
  - destruct (findIndex test l) as [k|] eqn:Ek; [|done]. injection H as <-.
    destruct (IH k eq_refl) as (y & Hy & ->). by exists y.
Qed.

Lemma findIndex_has_url photoUrl (l : list Photo) :
  is_Some (findIndex (has_url photoUrl) l) ↔ photoUrl ∈ url <$> l.
Proof.
  destruct (findIndex (has_url photoUrl) l) as [i|] eqn:E.
  - split; [intros _|by eexists].
    apply findIndex_Some in E as (p & Hp & Ht & _).
    apply bool_decide_eq_true in Ht as <-.
    apply list_elem_of_fmap. exists p. split; [done|].
    by eapply list_elem_of_lookup_2.
  - split; [intros [? ?]; done|]. intros Hin. exfalso.
    apply findIndex_None in E. apply list_elem_of_fmap in Hin as (p & -> & Hp).
    rewrite Forall_forall in E. specialize (E _ Hp).
    by apply bool_decide_eq_false in E.
Qed.

Lemma findIndex_reset photoUrl (l : list Photo) :
  findIndex (has_url photoUrl) (map (set_isMain false) l) =
  findIndex (has_url photoUrl) l.
Proof.
  induction l as [|p l IH]; simpl; [done|].
  unfold has_url at 1 3. simpl. by rewrite IH.
Qed.

Lemma mains_reset (l : list Photo) : mains (map (set_isMain false) l) = 0%nat.
Proof. apply mains_none. apply Forall_forall. intros p Hp.
  apply list_elem_of_In, in_map_iff in Hp as (q & <- & _). done.
Qed.

Lemma mains_insert_main (l : list Photo) i p :
  l !! i = Some p → mains l = 0%nat → mains (<[i := set_isMain true p]> l) = 1%nat.
Proof.
  revert i. induction l as [|q l IH]; intros [|i] H H0; simplify_eq/=.
  - rewrite mains_cons in *. simpl. destruct (isMain p); lia.
  - rewrite mains_cons in *. rewrite (IH i); [|done|lia].
    destruct (isMain q); lia.
Qed.

Lemma mains_zero_lookup (l : list Photo) j p :
  mains l = 0%nat → l !! j = Some p → isMain p = false.
Proof.
  revert j. induction l as [|q l IH]; intros [|j] H0 H; simplify_eq/=;
    rewrite mains_cons in H0.
  - destruct (isMain p); [lia|done].
  - eapply IH; [|done]. lia.
Qed.

Lemma mains_promote_first (l : list Photo) :
  l ≠ [] → mains l = 0%nat → mains (promote_first l) = 1%nat.
Proof.
  destruct l as [|p l]; [done|]. intros _ H. simpl.
  rewrite mains_cons in *. simpl. destruct (isMain p); lia.
Qed.

Lemma url_promote_first (l : list Photo) : url <$> promote_first l = url <$> l.
Proof. by destruct l. Qed.

Lemma length_promote_first (l : list Photo) : length (promote_first l) = length l.
Proof. by destruct l. Qed.

Lemma url_after_delete (l : list Photo) i :
  url <$> after_delete l i = delete i (url <$> l).
Proof.
  unfold after_delete. cbv zeta.
  destruct (_ && _); by rewrite ?url_promote_first, list_fmap_delete.
Qed.

Lemma length_after_delete (l : list Photo) i :
  length (after_delete l i) = length (delete i l).
Proof.
  unfold after_delete. cbv zeta.
  destruct (_ && _); by rewrite ?length_promote_first.
Qed.

Lemma mains_after_delete_le (l : list Photo) i :
  is_Some (l !! i) → (mains l ≤ 1)%nat → (mains (after_delete l i) ≤ 1)%nat.
Proof.
  intros [p Hp] Hle. unfold after_delete. cbv zeta. rewrite Hp.
  pose proof (mains_delete _ _ _ Hp) as Hm.
  destruct (isMain p) eqn:E; cbn [andb].
  - destruct (Nat.ltb_spec 0 (length (delete i l))); [|lia].
    rewrite mains_promote_first; [lia| |lia].
    intros Hnil. rewrite Hnil in *. simpl in *. lia.
  - lia.
Qed.

Lemma mains_after_delete_one (l : list Photo) i :
  is_Some (l !! i) → mains l = 1%nat → (1 < length l)%nat →
  mains (after_delete l i) = 1%nat.
Proof.
  intros [p Hp] H1 Hlen. unfold after_delete. cbv zeta. rewrite Hp.
  pose proof (mains_delete _ _ _ Hp) as Hm.
  assert (length (delete i l) = length l - 1)%nat as Hd
    by (apply length_delete; by eexists).
  destruct (isMain p) eqn:E; cbn [andb].
  - destruct (Nat.ltb_spec 0 (length (delete i l))); [|lia].
    rewrite mains_promote_first; [lia| |lia].
    intros Hnil. rewrite Hnil in *. simpl in *. lia.
  - lia.
Qed.

(** ** Invariants of the users collection *)

(** A property of single documents that every change of a document keeps
    is kept by every handler. *)
Lemma directory_step_invariant (P : User → Prop) :
  (∀ u u', user_step u u' → P u → P u') →
  ∀ s s', directory_step s s' → map_Forall (λ _, P) s → map_Forall (λ _, P) s'.
Proof.
  intros HP s s' Hstep Hs id u' Hu'.
  destruct (directory_step_users _ _ Hstep _ _ Hu') as (u & Hu & Hch).
  eapply HP; [exact Hch|]. by eapply (Hs id).
Qed.

Lemma length_update_first {A} (test : A → bool) (f : A → A) (l : list A) :
  length (update_first test f l) = length l.
Proof.
  induction l as [|x l IH]; simpl; [done|].
  destruct (test x); simpl; by rewrite ?IH.
Qed.

Lemma isProfileComplete_photos u u' :
  firstName u' = firstName u → lastName u' = lastName u → age u' = age u →
  university u' = university u → bio u' = bio u →
  (length (photos u') = 0%nat ↔ length (photos u) = 0%nat) →
  isProfileComplete u' = isProfileComplete u.
Proof.
  unfold isProfileComplete. intros -> -> -> -> -> Hlen.
  f_equal. apply bool_decide_ext. lia.
Qed.

Lemma user_step_flag u u' :
  user_step u u' →
  profileCompleted u = isProfileComplete u →
  profileCompleted u' = isProfileComplete u'.
Proof.
  intros [l d m Hd|up Hv|files Hf|photoUrl Hfind|photoUrl i Hi|lat lon ? ? ? ?|ar nd Hv Hr] Hflag;
    try done.
  all: rewrite (isProfileComplete_photos u); try done.
  all: simpl; by rewrite ?length_update_first, ?length_map.
Qed.

(** [X2] Every handler that writes to the users collection keeps the
    stored profileCompleted flag of every user equal to what
    isProfileComplete() computes: the routes that change a field the
    method reads (update, upload-photos, delete-photo) refresh the flag,
    and the others (set-main-photo, update-location, update-preferences,
    like, dislike, unmatch) change no such field; set-main-photo keeps the
    number of photos. *)
Theorem directory_step_keeps_flags (s s' : Directory) :
  flags_ok s → directory_step s s' → flags_ok s'.
Proof.
  intros Hflags Hstep.
  exact (directory_step_invariant
           (λ u, profileCompleted u = isProfileComplete u)
           user_step_flag s s' Hstep Hflags).
Qed.

Lemma campus_flags_ok : flags_ok campus.
Proof.
  change (map_Forall (λ _ u, profileCompleted u = isProfileComplete u) campus).
  refine (bool_decide_unpack _ _). vm_compute. exact I.
Qed.

Lemma campus_to_camera_shy : directory_step campus camera_shy.
Proof.
  apply (step_deletePhoto campus camera_shy 1 "/uploads/photos/p.jpg").
  vm_compute. reflexivity.
Qed.

Lemma directory_step_keeps_flags_witness :
  flags_ok campus ∧ directory_step campus camera_shy ∧ flags_ok camera_shy.
Proof.
  split; [exact campus_flags_ok|]. split; [exact campus_to_camera_shy|].
  exact (directory_step_keeps_flags campus camera_shy
           campus_flags_ok campus_to_camera_shy).
Defined.

(** ** Galleries *)

Lemma length_uploaded u files :
  length (uploaded u files) = (length (photos u) + length files) `min` 6.
Proof.
  rewrite uploaded_drop, length_drop, length_app, length_newPhotos. lia.
Qed.

Lemma mains_uploaded u files :
  (mains (uploaded u files) ≤ mains (photos u) `max` 1)%nat.
Proof.
  rewrite uploaded_drop.
  etrans; [apply mains_drop|]. rewrite mains_app.
  pose proof (mains_newPhotos u files) as H.
  destruct (photos u) as [|p l] eqn:E.
  - simpl in H. destruct (negb _) in H; change (mains []) with 0%nat; lia.
  - simpl in H. lia.
Qed.

Lemma user_step_gallery u u' :
  user_step u u' → gallery_ok (photos u) → gallery_ok (photos u').
Proof.
  intros [l d m Hd|up Hv|files Hf|photoUrl Hfind|photoUrl i Hi|lat lon ? ? ? ?|ar nd Hv Hr]
    [Hlen Hmain]; try done; simpl.
  - split.
    + rewrite length_uploaded. lia.
    + pose proof (mains_uploaded u files). lia.
  - apply find_findIndex in Hfind as [i Hi].
    destruct (update_first_insert _ (set_isMain true) _ _ Hi) as (p & Hp & ->).
    split.
    + by rewrite length_insert, length_map.
    + rewrite (mains_insert_main _ _ _ Hp); [done|apply mains_reset].
  - assert (is_Some (photos u !! i)) as Hsome.
    { apply findIndex_Some in Hi as (p & Hp & _). by eexists. }
    split.
    + rewrite length_after_delete, length_delete by done. lia.
    + by apply mains_after_delete_le.
Qed.

(** [X3] Every handler that writes to the users collection keeps every
    user's photos within six photos with at most one photo marked isMain. *)
Theorem directory_step_keeps_galleries (s s' : Directory) :
  map_Forall (λ _ u, gallery_ok (photos u)) s → directory_step s s' →
  map_Forall (λ _ u, gallery_ok (photos u)) s'.
Proof.
  intros Hs Hstep.
  exact (directory_step_invariant (λ u, gallery_ok (photos u))
           user_step_gallery s s' Hstep Hs).
Qed.

Lemma campus_galleries : map_Forall (λ _ u, gallery_ok (photos u)) campus.
Proof.
  intros id u Hu.
  assert (photos u = [{| url := "/uploads/photos/p.jpg"; isMain := true |}]) as ->.
  { unfold campus in Hu. rewrite !lookup_insert in Hu.
    repeat case_decide; simplify_eq; done. }
  split; vm_compute; lia.
Qed.

Lemma directory_step_keeps_galleries_witness :
  map_Forall (λ _ u, gallery_ok (photos u)) campus ∧
  directory_step campus camera_shy ∧
  map_Forall (λ _ u, gallery_ok (photos u)) camera_shy.
Proof.
  split; [exact campus_galleries|]. split; [exact campus_to_camera_shy|].
  exact (directory_step_keeps_galleries campus camera_shy
           campus_galleries campus_to_camera_shy).
Defined.

(** ** Preferences *)






(** ** The main photo *)

Lemma url_reset (l : list Photo) : url <$> map (set_isMain false) l = url <$> l.
Proof. induction l as [|p l IH]; simpl; [done|]. by f_equal. Qed.

Lemma lookup_reset (l : list Photo) j q :
  map (set_isMain false) l !! j = Some q → isMain q = false.
Proof.
  change (map (set_isMain false) l) with (set_isMain false <$> l).
  rewrite list_lookup_fmap. destruct (l !! j); [|done]. simpl. by intros [= <-].
Qed.

(** [X5] For an existing user, set-main-photo answers 404 'Photo not
    found' when no photo has the given url; otherwise it saves the photos
    with the same urls in the same order, and the first photo with that
    url is then the one and only main photo (every other photo has isMain
    false), whatever the flags were before. Nothing else of the user
    changes. *)
Theorem setMainPhoto_selects (s : Directory) (userId : ObjectId) (u : User)
    (photoUrl : string) :
  s !! userId = Some u →
  (photoUrl ∉ url <$> photos u →
   setMainPhoto s userId photoUrl = Refused PhotoNotFound) ∧
  (photoUrl ∈ url <$> photos u →
   ∃ i l,
     findIndex (has_url photoUrl) (photos u) = Some i ∧
     setMainPhoto s userId photoUrl = Saved (<[userId := set_photos l u]> s) ∧
     url <$> l = url <$> photos u ∧
     (url <$> l) !! i = Some photoUrl ∧
     (∀ j q, l !! j = Some q → isMain q = true ↔ j = i) ∧
     mains l = 1%nat).
Proof.
  intros Hu. unfold setMainPhoto. rewrite Hu. cbv zeta. split.
  - intros Hnot.
    destruct (List.find _ _) eqn:E; [|done]. exfalso. apply Hnot.
    assert (is_Some (findIndex (has_url photoUrl)
                       (map (set_isMain false) (photos u)))) as Hi
      by (apply find_findIndex; by eexists).
    rewrite findIndex_reset in Hi. by apply findIndex_has_url.
  - intros Hin. apply findIndex_has_url in Hin as [i Hi].
    pose proof Hi as Hi'. rewrite <- findIndex_reset in Hi'.
    destruct (update_first_insert _ (set_isMain true) _ _ Hi') as (p & Hp & Hl).
    exists i, (update_first (has_url photoUrl) (set_isMain true)
                 (map (set_isMain false) (photos u))).
    assert (is_Some (List.find (has_url photoUrl)
                       (map (set_isMain false) (photos u)))) as [x ->]
      by (apply find_findIndex; by eexists).
    apply findIndex_Some in Hi' as (p' & Hp' & Hurl & _).
    rewrite Hp in Hp'. injection Hp' as <-.
    apply bool_decide_eq_true in Hurl.
    assert (url <$> <[i := set_isMain true p]> (map (set_isMain false) (photos u))
            = url <$> photos u) as Hurls.
    { rewrite list_fmap_insert. simpl. rewrite list_insert_id; [apply url_reset|].
      by rewrite list_lookup_fmap, Hp. }
    split_and!; [done|done|by rewrite Hl| | |].
    + rewrite Hl, Hurls, <- url_reset.
      by rewrite list_lookup_fmap, Hp; simpl; rewrite Hurl.
    + intros j q. rewrite Hl. destruct (decide (j = i)) as [->|Hne].
      * rewrite list_lookup_insert_eq by (by eapply lookup_lt_Some).
        intros [= <-]. done.
      * rewrite list_lookup_insert_ne by done. intros Hq.
        apply lookup_reset in Hq. rewrite Hq. split; [done|by intros ->].
    + rewrite Hl. apply (mains_insert_main _ _ _ Hp), mains_reset.
Qed.

Lemma setMainPhoto_selects_witness :
  campus !! 1%N = Some alice ∧
  setMainPhoto campus 1 "/uploads/photos/other.jpg" = Refused PhotoNotFound.
Proof.
  split; [reflexivity|].
  apply (proj1 (setMainPhoto_selects campus 1 alice "/uploads/photos/other.jpg"
                  eq_refl)).
  refine (bool_decide_unpack _ _). vm_compute. exact I.
Defined.

(** [X6] For an existing user, delete-photo answers 404 'Photo not found'
    when no photo has the given url; otherwise it removes the first photo
    with that url and no other (the urls that remain are the old ones
    without that index), keeps exactly one main photo when there was
    exactly one and photos remain, stores profileCompleted =
    isProfileComplete(), which is false when the deleted photo was the
    only one, and changes nothing else of the user. *)
Theorem deletePhoto_removes_first (s : Directory) (userId : ObjectId) (u : User)
    (photoUrl : string) :
  s !! userId = Some u →
  (photoUrl ∉ url <$> photos u →
   deletePhoto s userId photoUrl = Refused PhotoNotFound) ∧
  (photoUrl ∈ url <$> photos u →
   ∃ i u',
     findIndex (has_url photoUrl) (photos u) = Some i ∧
     deletePhoto s userId photoUrl = Saved (<[userId := u']> s) ∧
     u' = set_profileCompleted (profileCompleted u') (set_photos (photos u') u) ∧
     url <$> photos u' = delete i (url <$> photos u) ∧
     S (length (photos u')) = length (photos u) ∧
     (mains (photos u) = 1%nat → (1 < length (photos u))%nat →
      mains (photos u') = 1%nat) ∧
     profileCompleted u' = isProfileComplete u' ∧
     (length (photos u) = 1%nat → profileCompleted u' = false)).
Proof.
  intros Hu. unfold deletePhoto. rewrite Hu. split.
  - intros Hnot. destruct (findIndex _ _) eqn:E; [|done].
    exfalso. apply Hnot, findIndex_has_url. by eexists.
  - intros Hin. apply findIndex_has_url in Hin as [i Hi]. rewrite Hi.
    assert (is_Some (photos u !! i)) as Hsome.
    { apply findIndex_Some in Hi as (p & Hp & _). by eexists. }
    pose proof (lookup_lt_is_Some_1 _ _ Hsome) as Hlt.
    exists i, (refresh_profileCompleted (set_photos (after_delete (photos u) i) u)).
    split_and!; try done.
    + simpl. apply url_after_delete.
    + simpl. rewrite length_after_delete, length_delete by done. lia.
    + intros H1 Hlen. simpl. by apply mains_after_delete_one.
    + intros Hlen. simpl. unfold isProfileComplete. simpl.
      rewrite length_after_delete, length_delete, Hlen by done.
      rewrite (bool_decide_eq_false_2 (0 < 1 - 1)%nat) by lia.
      by rewrite andb_false_r.
Qed.

Lemma deletePhoto_removes_first_witness :
  campus !! 1%N = Some alice ∧
  deletePhoto campus 1 "/uploads/photos/other.jpg" = Refused PhotoNotFound.
Proof.
  split; [reflexivity|].
  apply (proj1 (deletePhoto_removes_first campus 1 alice "/uploads/photos/other.jpg"
                  eq_refl)).
  refine (bool_decide_unpack _ _). vm_compute. exact I.
Defined.

(** ** Uploads *)

Lemma url_newPhotos u files :
  url <$> newPhotos u files = (λ filename, "/uploads/photos/" +:+ filename) <$> files.
Proof.
  unfold newPhotos. generalize (length (photos u) =? 0)%nat. intros b.
  rewrite fmap_imap. simpl. 
  apply list_eq. intros i. rewrite list_lookup_imap, list_lookup_fmap.
  by destruct (files !! i).
Qed.

(** [X7] For an existing user and at least one uploaded file, upload-
    photos saves the last six of (old photos followed by the new ones,
    urls '/uploads/photos/<filename>'), all of them when there are at most
    six, so min(6, old + new) photos; an upload of at most six files to an
    empty gallery makes exactly its first photo the main photo; an upload
    that fits into a non-empty gallery leaves the number of main photos
    unchanged; profileCompleted is refreshed and nothing else of the user
    changes. *)
Theorem uploadPhotos_keeps_newest_six (s : Directory) (userId : ObjectId)
    (u : User) (files : list string) :
  s !! userId = Some u → files ≠ [] →
  ∃ u',
    uploadPhotos s userId files = Saved (<[userId := u']> s) ∧
    u' = set_profileCompleted (profileCompleted u') (set_photos (photos u') u) ∧
    (let all := (url <$> photos u) ++
                ((λ filename, "/uploads/photos/" +:+ filename) <$> files) in
     url <$> photos u' = drop (length all - 6) all) ∧
    length (photos u') = (length (photos u) + length files) `min` 6 ∧
    (photos u = [] → (length files ≤ 6)%nat →
     mains (photos u') = 1%nat ∧
     ∃ p, photos u' !! 0%nat = Some p ∧ isMain p = true) ∧
    (photos u ≠ [] → (length (photos u) + length files ≤ 6)%nat →
     mains (photos u') = mains (photos u)) ∧
    profileCompleted u' = isProfileComplete u'.
Proof.
  intros Hu Hfiles. unfold uploadPhotos. rewrite Hu.
  destruct files as [|f files]; [done|]. cbn [length Nat.eqb].
  set (fs := f :: files).
  exists (refresh_profileCompleted (set_photos (uploaded u fs) u)).
  split_and!; try done.
  - cbv zeta. simpl. rewrite uploaded_drop, fmap_drop, fmap_app, url_newPhotos.
    rewrite !length_app, !length_fmap, length_newPhotos.
    f_equal. simpl. by rewrite length_fmap.
  - simpl. apply length_uploaded.
  - intros Hnil Hlen. cbn [photos refresh_profileCompleted set_profileCompleted set_photos].
    rewrite uploaded_drop, Hnil.
    rewrite length_app, length_newPhotos.
    replace (length (@nil Photo) + length fs - 6)%nat with 0%nat
      by (change (length fs) with (S (length files)); simpl; lia).
    rewrite drop_0. simpl app. split.
    + rewrite mains_newPhotos, Hnil. done.
    + unfold newPhotos, fs. rewrite Hnil. simpl. by eexists.
  - intros Hne Hlen. cbn [photos refresh_profileCompleted set_profileCompleted set_photos].
    rewrite uploaded_drop.
    rewrite length_app, length_newPhotos.
    replace (length (photos u) + length fs - 6)%nat with 0%nat
      by (change (length fs) with (S (length files)); lia).
    rewrite drop_0, mains_app, mains_newPhotos.
    destruct (photos u); [done|]. simpl. lia.
Qed.

Lemma uploadPhotos_keeps_newest_six_witness :
  campus !! 1%N = Some alice ∧ ["a.jpg"; "b.jpg"] ≠ [] ∧
  ∃ u', uploadPhotos campus 1 ["a.jpg"; "b.jpg"] = Saved (<[1%N := u']> campus) ∧
        length (photos u') = 3%nat.
Proof.
  split; [reflexivity|]. split; [discriminate|].
  destruct (uploadPhotos_keeps_newest_six campus 1 alice ["a.jpg"; "b.jpg"]
              eq_refl ltac:(discriminate)) as (u' & H1 & _ & _ & H2 & _).
  exists u'. split; [exact H1|exact H2].
Defined.

(** [X8] A user whose gallery is full (six photos) and whose only main
    photo is the oldest one loses the main photo by any upload: slice(-6)
    drops the oldest photos and new photos are never main in a non-empty
    gallery, so afterwards the gallery has six photos and none of them is
    the main photo. *)
Theorem uploadPhotos_drops_oldest_main (s : Directory) (userId : ObjectId)
    (u : User) (p : Photo) (rest : list Photo) (files : list string) :
  s !! userId = Some u → photos u = p :: rest → length rest = 5%nat →
  isMain p = true → mains (photos u) = 1%nat → files ≠ [] →
  ∃ u',
    uploadPhotos s userId files = Saved (<[userId := u']> s) ∧
    length (photos u') = 6%nat ∧ mains (photos u') = 0%nat.
Proof.
  intros Hu Hphotos Hrest Hmain Hone Hfiles. unfold uploadPhotos. rewrite Hu.
  destruct files as [|f files]; [done|]. cbn [length Nat.eqb].
  set (fs := f :: files).
  exists (refresh_profileCompleted (set_photos (uploaded u fs) u)).
  split; [done|]. simpl. split.
  - rewrite length_uploaded, Hphotos. simpl. lia.
  - rewrite uploaded_drop, Hphotos.
    rewrite length_app, length_newPhotos. simpl length.
    replace (S (length rest) + S (length files) - 6)%nat
      with (S (length files)) by lia.
    simpl drop.
    assert (mains rest = 0%nat) as Hr.
    { rewrite Hphotos, mains_cons, Hmain in Hone. lia. }
    pose proof (mains_drop (length files) (rest ++ newPhotos u fs)) as Hle.
    rewrite mains_app, mains_newPhotos, Hphotos, Hr in Hle. simpl in Hle. lia.
Qed.

Lemma uploadPhotos_drops_oldest_main_witness :
  studio !! 1%N = Some collector ∧
  mains (photos collector) = 1%nat ∧
  ∃ u',
    uploadPhotos studio 1 ["7.jpg"] = Saved (<[1%N := u']> studio) ∧
    length (photos u') = 6%nat ∧ mains (photos u') = 0%nat.
Proof.
  split; [reflexivity|]. split; [reflexivity|].
  exact (uploadPhotos_drops_oldest_main studio 1 collector _ _ ["7.jpg"]
           eq_refl eq_refl eq_refl eq_refl eq_refl ltac:(discriminate)).
Defined.

(** ** Photos and the candidate query *)

Lemma getCandidates_elem near s userId res c :
  getCandidates near s userId = Ok res → c ∈ res →
  ∃ currentUser t,
    s !! userId = Some currentUser ∧ s !! c_id c = Some t ∧
    satisfies near (matchCriteria userId currentUser) (c_id c, t) = true.
Proof.
  intros H Hc. apply getCandidates_Ok_inv in H as (cu & Hcu & _ & ->).
  apply list_elem_of_In, in_map_iff in Hc as ([id t] & <- & Hdoc).
  apply list_elem_of_In, find_users_elem in Hdoc as [Hl Hsat].
  by exists cu, t.
Qed.

Lemma satisfies_profileCompleted near userId cu doc :
  satisfies near (matchCriteria userId cu) doc = true →
  profileCompleted doc.2 = true.
Proof.
  unfold satisfies. intros H.
  repeat (apply andb_prop in H as [H ?]).
  match goal with
  | Hb : bool_decide (profileCompleted _ = _) = true |- _ =>
      by apply bool_decide_eq_true in Hb
  end.
Qed.

(** [X9] After a user deletes their only photo, their own candidate query
    is refused with 400 'Please complete your profile first', and no
    user's candidate query returns them any more, whatever the database's
    $near test. *)
Theorem deletePhoto_last_hides (near : Location → Z → Location → bool)
    (s : Directory) (userId : ObjectId) (u : User) (p : Photo) :
  s !! userId = Some u → photos u = [p] →
  ∃ s',
    deletePhoto s userId (url p) = Saved s' ∧
    getCandidates near s' userId = Err ProfileIncomplete ∧
    ∀ other res,
      getCandidates near s' other = Ok res → userId ∉ c_id <$> res.
Proof.
  intros Hu Hp. unfold deletePhoto. rewrite Hu, Hp.
  assert (findIndex (has_url (url p)) [p] = Some 0%nat) as ->.
  { simpl. unfold has_url. by rewrite bool_decide_eq_true_2. }
  eexists. split; [done|].
  set (u' := refresh_profileCompleted (set_photos (after_delete [p] 0) u)).
  assert (photos u' = []) as Hnil.
  { unfold u', after_delete. simpl. by destruct (isMain p). }
  assert (isProfileComplete u' = false) as Hinc.
  { unfold isProfileComplete. rewrite Hnil. simpl. by rewrite andb_false_r. }
  split.
  - unfold getCandidates. rewrite lookup_insert_eq. by rewrite Hinc.
  - intros other res Hres Hin.
    apply list_elem_of_fmap in Hin as (c & Hid & Hc).
    destruct (getCandidates_elem _ _ _ _ _ Hres Hc) as (cu & t & _ & Ht & Hsat).
    apply satisfies_profileCompleted in Hsat. simpl in Hsat.
    rewrite <- Hid, lookup_insert_eq in Ht. injection Ht as <-.
    unfold u' in Hsat. simpl in Hsat. fold u' in Hsat.
    change (isProfileComplete u' = true) in Hsat. congruence.
Qed.

Lemma deletePhoto_last_hides_witness :
  campus !! 1%N = Some alice ∧
  ∃ s',
    deletePhoto campus 1 "/uploads/photos/p.jpg" = Saved s' ∧
    getCandidates near_great_circle s' 1 = Err ProfileIncomplete ∧
    ∀ other res,
      getCandidates near_great_circle s' other = Ok res → 1%N ∉ c_id <$> res.
Proof.
  split; [reflexivity|].
  exact (deletePhoto_last_hides near_great_circle campus 1 alice
           {| url := "/uploads/photos/p.jpg"; isMain := true |} eq_refl eq_refl).
Defined.

(** ** Location *)

Lemma isFloat_between_spec lo hi v :
  isFloat_between lo hi (Some v) = true ↔ (lo <= v)%Q ∧ (v <= hi)%Q.
Proof.
  unfold isFloat_between. rewrite andb_true_iff, !Qle_bool_iff. done.
Qed.

(** [X10] For an existing user, update-location accepts a request exactly
    when latitude and longitude are both present with -90 <= latitude <=
    90 and -180 <= longitude <= 180, and answers 400 otherwise; an
    accepted request stores the point as [longitude, latitude] and changes
    nothing else, and the user's next candidate criteria hold $near
    centred on that point with $maxDistance = maxDistance * 1000, unless
    one of the two coordinates is 0, in which case the criteria hold no
    location condition. *)
Theorem updateLocation_in_range (s : Directory) (userId : ObjectId) (u : User)
    (lat lon : Q) :
  s !! userId = Some u →
  let here := {| longitude := lon; latitude := lat |} in
  ((-90 <= lat)%Q ∧ (lat <= 90)%Q ∧ (-180 <= lon)%Q ∧ (lon <= 180)%Q →
   updateLocation s userId (Some lat) (Some lon) =
     Saved (<[userId := set_location here u]> s) ∧
   q_location (matchCriteria userId (set_location here u)) =
     if coordinates_nonzero here
     then Some {| geometry := here;
                  max_meters := (maxDistance (preferences u) * 1000)%Z |}
     else None) ∧
  (¬ ((-90 <= lat)%Q ∧ (lat <= 90)%Q ∧ (-180 <= lon)%Q ∧ (lon <= 180)%Q) →
   updateLocation s userId (Some lat) (Some lon) = Refused InvalidFields) ∧
  (∀ latitude longitude,
     latitude = None ∨ longitude = None →
     updateLocation s userId latitude longitude = Refused InvalidFields).
Proof.
  intros Hu here. split_and!.
  - intros (H1 & H2 & H3 & H4). unfold updateLocation.
    rewrite (proj2 (isFloat_between_spec _ _ _)) by done.
    rewrite (proj2 (isFloat_between_spec _ _ _)) by done.
    simpl. by rewrite Hu.
  - intros Hnot. unfold updateLocation.
    destruct (isFloat_between (-90) 90 (Some lat)) eqn:E1;
      destruct (isFloat_between (-180) 180 (Some lon)) eqn:E2; try done.
    exfalso. apply Hnot.
    apply isFloat_between_spec in E1 as [??].
    apply isFloat_between_spec in E2 as [??]. done.
  - intros latitude longitude [-> | ->]; unfold updateLocation; [done|].
    by destruct latitude.
Qed.

Lemma updateLocation_in_range_witness :
  campus !! 1%N = Some alice ∧
  updateLocation campus 1 (Some (1 # 100)) (Some (1 # 100)) =
    Saved (<[1%N := sailor]> campus).
Proof.
  split; [reflexivity|].
  refine (proj1 (proj1 (updateLocation_in_range campus 1 alice (1 # 100) (1 # 100)
                          eq_refl) _)).
  repeat split; discriminate.
Defined.

(** ** Profile updates *)




(** * Likes, dislikes and matches over time *)

(** [X12] After like(A,B) succeeded, the same like is refused with 400
    'User already liked'; and when it made a match (A and B distinct),
    like(B,A) is refused with 'User already liked' as well. *)
Theorem like_once (s s' : Directory) (a b : ObjectId) (r : LikeResponse) :
  like s a b = Ok (s', r) →
  like s' a b = Err AlreadyLiked ∧
  (isMatch r = true → a ≠ b → like s' b a = Err AlreadyLiked).
Proof.
  intros H. apply like_Ok_inv in H as (ua & ub & Ha & Hb & Hnl & H).
  assert (b ∈ likedUsers ua ++ [b]) as Hin by (apply elem_of_app; right; by left).
  destruct H as [(Hnr & Hr & _ & ->)|(Hl & Hr & _ & ->)].
  - split; [|by rewrite Hr]. unfold like.
    rewrite lookup_insert_eq.
    destruct (decide (a = b)) as [->|Hne].
    + rewrite lookup_insert_eq. simpl.
      by rewrite (proj2 (includes_true _ _) Hin).
    + rewrite lookup_insert_ne, Hb by done. simpl.
      by rewrite (proj2 (includes_true _ _) Hin).
  - split.
    + unfold like. rewrite lookup_insert_eq.
      destruct (decide (a = b)) as [->|Hne].
      * rewrite lookup_insert_eq. simpl.
        by rewrite (proj2 (includes_true _ _) Hin).
      * rewrite lookup_insert_ne, lookup_insert_eq by done. simpl.
        by rewrite (proj2 (includes_true _ _) Hin).
    + intros _ Hne. unfold like.
      rewrite lookup_insert_ne, lookup_insert_eq, lookup_insert_eq by done.
      simpl. by rewrite (proj2 (includes_true _ _) Hl).
Qed.

Lemma like_once_witness :
  like campus 1 2 = Ok (alice_liked_bob, one_sided) ∧
  like alice_liked_bob 1 2 = Err AlreadyLiked.
Proof.
  assert (like campus 1 2 = Ok (alice_liked_bob, one_sided)) as H
    by (vm_compute; reflexivity).
  split; [exact H|].
  exact (proj1 (like_once campus alice_liked_bob 1 2 one_sided H)).
Defined.

Lemma user_step_disliked u u' :
  user_step u u' → dislikedUsers u `prefix_of` dislikedUsers u'.
Proof. intros [l d m Hd| | | | | |]; done. Qed.

Lemma directory_steps_disliked s s' a ua :
  rtc directory_step s s' → s !! a = Some ua →
  ∃ ua', s' !! a = Some ua' ∧ dislikedUsers ua `prefix_of` dislikedUsers ua'.
Proof.
  intros Hsteps. revert ua.
  induction Hsteps as [s|s s1 s2 Hstep _ IH]; intros ua Ha.
  - by exists ua.
  - assert (∃ u1, s1 !! a = Some u1 ∧ dislikedUsers ua `prefix_of` dislikedUsers u1)
      as (u1 & H1 & Hp1).
    { destruct (s1 !! a) as [u1|] eqn:E.
      - destruct (directory_step_users _ _ Hstep _ _ E) as (u0 & Hu0 & Hch).
        exists u1. split; [done|]. rewrite Ha in Hu0. injection Hu0 as <-.
        by apply user_step_disliked.
      - exfalso. clear IH.
        destruct Hstep as
          [x y r H|x y H|x y H|k up H|k files H|k url H|k url H|k lat lon H|k ar nd H].
        + apply like_Ok_inv in H as (ux & uy & Hx & Hy & _ & H).
          destruct H as [(_ & _ & _ & ->)|(_ & _ & _ & ->)];
            rewrite ?lookup_insert in E; repeat case_decide; simplify_eq.
        + apply dislike_Ok_inv in H as (ux & Hx & _ & ->).
          rewrite ?lookup_insert in E; repeat case_decide; simplify_eq.
        + apply unmatch_Ok_inv in H as (ux & uy & Hx & Hy & ->).
          rewrite ?lookup_insert in E; repeat case_decide; simplify_eq.
        + apply updateProfile_Saved_inv in H as (u & _ & Hu & ->).
          rewrite ?lookup_insert in E; repeat case_decide; simplify_eq.
        + apply uploadPhotos_Saved_inv in H as (u & _ & Hu & ->).
          rewrite ?lookup_insert in E; repeat case_decide; simplify_eq.
        + apply setMainPhoto_Saved_inv in H as (u & Hu & _ & ->).
          rewrite ?lookup_insert in E; repeat case_decide; simplify_eq.
        + apply deletePhoto_Saved_inv in H as (u & i & Hu & _ & ->).
          rewrite ?lookup_insert in E; repeat case_decide; simplify_eq.
        + apply updateLocation_Saved_inv in H
            as (u & la & lo & _ & _ & _ & _ & _ & _ & Hu & ->).
          rewrite ?lookup_insert in E; repeat case_decide; simplify_eq.
        + apply updatePreferences_Saved_inv in H as (u & _ & _ & Hu & ->).
          rewrite ?lookup_insert in E; repeat case_decide; simplify_eq. }
    destruct (IH _ H1) as (u2 & H2 & Hp2).
    exists u2. split; [done|]. by etrans.
Qed.

Lemma satisfies_not_seen near userId cu doc :
  satisfies near (matchCriteria userId cu) doc = true →
  doc.1 ∉ likedUsers cu ++ dislikedUsers cu.
Proof.
  unfold satisfies. intros H.
  repeat (apply andb_prop in H as [H ?]).
  match goal with
  | Hb : negb (includes _ _) = true |- _ =>
      apply negb_true_iff, includes_false in Hb; exact Hb
  end.
Qed.

(** [X13] A dislike is permanent: after dislike(A,B) succeeded, whatever
    successful calls of the handlers that write to the users collection
    follow (like, dislike, unmatch and the six profile routes),
    dislike(A,B) is refused with 400 'User already disliked' and no
    candidate query of A returns B. No handler removes an id from
    dislikedUsers. *)
Theorem dislike_is_permanent (s s1 s2 : Directory) (a b : ObjectId) :
  dislike s a b = Ok s1 → rtc directory_step s1 s2 →
  dislike s2 a b = Err AlreadyDisliked ∧
  ∀ near res, getCandidates near s2 a = Ok res → b ∉ c_id <$> res.
Proof.
  intros H Hsteps. apply dislike_Ok_inv in H as (ua & Ha & _ & ->).
  destruct (directory_steps_disliked _ _ a _ Hsteps (lookup_insert_eq _ _ _))
    as (u2 & H2 & [k Hk]).
  simpl in Hk.
  assert (b ∈ dislikedUsers u2) as Hin.
  { rewrite Hk. apply elem_of_app. left. apply elem_of_app. right. by left. }
  split.
  - unfold dislike. rewrite H2. by rewrite (proj2 (includes_true _ _) Hin).
  - intros near res Hres Hb.
    apply list_elem_of_fmap in Hb as (c & -> & Hc).
    destruct (getCandidates_elem _ _ _ _ _ Hres Hc) as (cu & t & Hcu & _ & Hsat).
    rewrite H2 in Hcu. injection Hcu as <-.
    apply satisfies_not_seen in Hsat. apply Hsat.
    apply elem_of_app. by right.
Qed.

Lemma dislike_is_permanent_witness :
  dislike campus 1 2 = Ok alice_disliked_bob ∧
  rtc directory_step alice_disliked_bob alice_moved_on ∧
  dislike alice_moved_on 1 2 = Err AlreadyDisliked.
Proof.
  assert (dislike campus 1 2 = Ok alice_disliked_bob) as H
    by (vm_compute; reflexivity).
  assert (rtc directory_step alice_disliked_bob alice_moved_on) as Hsteps.
  { apply rtc_once.
    apply (step_updatePreferences _ _ 1 (Some (20, 25)%Z) (Some 10%Z)).
    vm_compute. reflexivity. }
  split; [exact H|]. split; [exact Hsteps|].
  exact (proj1 (dislike_is_permanent campus alice_disliked_bob alice_moved_on 1 2
                  H Hsteps)).
Defined.


Lemma without_not_in x l : x ∉ l → without x l = l.
Proof.
  unfold without. induction l as [|y l IH]; [done|]. intros Hx.
  apply not_elem_of_cons in Hx as [Hne Hx].
  rewrite filter_cons, decide_True by done. by rewrite IH.
Qed.



(** * Matches and chats *)

(** [X15] After unmatch(A,B) succeeded, get-or-create chat is refused with
    403 'You can only chat with matched users' for A asking for B and for
    B asking for A, whatever chats exist; but an existing chat whose
    participants are [A, B] still accepts a message of 1 to 1000
    characters from A, since sending checks only the participants of the
    chat: the message is appended and becomes the lastMessage. *)
Theorem unmatch_blocks_new_chats (s s' : Directory) (a b : ObjectId) :
  unmatch s a b = Ok s' →
  ∀ (cs : Chats) (newId : ObjectId) (now : Time),
    getOrCreate s' cs a b newId now = Err NotMatched ∧
    getOrCreate s' cs b a newId now = Err NotMatched ∧
    ∀ chatId chat body ty msgId t1 t2 t3,
      cs !! chatId = Some chat → participants chat = [a; b] →
      (1 ≤ String.length body ≤ 1000)%nat →
      ∃ cs' message,
        sendMessage cs chatId a body ty msgId t1 t2 t3 = Ok (cs', message) ∧
        cs' !! chatId =
          Some (set_lastMessage
                  (Some {| lm_content := Some body; lm_sender := Some a;
                           lm_timestamp := t2 |})
                  (set_messages (messages chat ++ [message]) chat)).
Proof.
  intros H cs newId now.
  apply unmatch_Ok_inv in H as (ua & ub & Ha & Hb & ->).
  set (ua1 := set_likedUsers (without b (likedUsers ua))
                (set_matches (without b (matches ua)) ua)).
  set (ub1 := set_likedUsers (without a (likedUsers ub))
                (set_matches (without a (matches ub)) ub)).
  assert (includes (matches ua1) b = false) as Hua
    by (apply includes_false, not_elem_of_without).
  assert (includes (matches ub1) a = false) as Hub
    by (apply includes_false, not_elem_of_without).
  split_and!.
  - unfold getOrCreate. rewrite lookup_insert_eq.
    destruct (decide (a = b)) as [->|Hne].
    + rewrite lookup_insert_eq. by rewrite Hub.
    + rewrite lookup_insert_ne, lookup_insert_eq by done. by rewrite Hua.
  - unfold getOrCreate. rewrite lookup_insert_eq.
    destruct (decide (a = b)) as [->|Hne].
    + rewrite lookup_insert_eq. by rewrite Hub.
    + rewrite lookup_insert_ne, lookup_insert_eq by done. by rewrite Hub.
  - intros chatId chat body ty msgId t1 t2 t3 Hchat Hps Hlen.
    unfold sendMessage. rewrite bool_decide_eq_true_2 by done. cbn [negb].
    rewrite Hchat.
    assert (includes (participants chat) a = true) as ->.
    { apply includes_true. rewrite Hps. by left. }
    cbn [negb]. cbv zeta. unfold save_chat. simpl participants. rewrite Hps.
    rewrite bool_decide_eq_false_2 by (simpl; lia).
    eexists _, _. split; [done|]. by rewrite lookup_insert_eq.
Qed.

(** [X16] A dislike does not touch matches: after dislike(A,B) the matches
    and likedUsers of every user are as before, and get-or-create chat
    gives, for every pair of users and every chats collection, exactly the
    answer it gave before; disliking a matched user neither unmatches nor
    closes the chat. *)
Theorem dislike_keeps_chat (s s' : Directory) (a b : ObjectId) :
  dislike s a b = Ok s' →
  (∀ id u, s !! id = Some u →
     ∃ u', s' !! id = Some u' ∧ matches u' = matches u ∧
           likedUsers u' = likedUsers u) ∧
  ∀ (cs : Chats) (x y newId : ObjectId) (now : Time),
    getOrCreate s' cs x y newId now = getOrCreate s cs x y newId now.
Proof.
  intros H. apply dislike_Ok_inv in H as (ua & Ha & _ & ->). split.
  - intros id u Hu. destruct (decide (a = id)) as [->|Hne].
    + rewrite lookup_insert_eq. eexists. split; [done|].
      rewrite Ha in Hu. by injection Hu as <-.
    + rewrite lookup_insert_ne by done. by exists u.
  - intros cs x y newId now. unfold getOrCreate.
    rewrite !lookup_insert.
    repeat case_decide; subst; rewrite ?Ha; done.
Qed.

Lemma unmatch_blocks_new_chats_witness :
  unmatch alice_and_bob_matched 1 2 = Ok campus ∧
  getOrCreate campus talk 1 2 8 3000 = Err NotMatched.
Proof.
  assert (unmatch alice_and_bob_matched 1 2 = Ok campus) as H.
  { vm_compute. reflexivity. }
  split; [exact H|].
  exact (proj1 (unmatch_blocks_new_chats alice_and_bob_matched campus 1 2 H
                  talk 8%N 3000%Z)).
Defined.

Lemma dislike_keeps_chat_witness :
  dislike campus 1 2 = Ok alice_disliked_bob ∧
  ∀ (cs : Chats) (x y newId : ObjectId) (now : Time),
    getOrCreate alice_disliked_bob cs x y newId now =
    getOrCreate campus cs x y newId now.
Proof.
  assert (dislike campus 1 2 = Ok alice_disliked_bob) as H
    by (vm_compute; reflexivity).
  split; [exact H|].
  exact (proj2 (dislike_keeps_chat campus alice_disliked_bob 1 2 H)).
Defined.

(** * The list of matches *)

Lemma populate_present (s : Directory) (ids : list ObjectId) :
  Forall (λ id, is_Some (s !! id)) ids → (populate s ids).*1 = ids.
Proof.
  induction 1 as [|id ids [u Hu] _ IH]; [done|].
  unfold populate in *. simpl. rewrite Hu. simpl. by f_equal.
Qed.

Lemma getMatches_ids (s : Directory) (userId : ObjectId) (l : list MatchEntry) :
  getMatches s userId = Ok l →
  ∃ u, s !! userId = Some u ∧ me_id <$> l = (populate s (matches u)).*1.
Proof.
  unfold getMatches. destruct (s !! userId) as [u|]; [|done].
  intros [= <-]. exists u. split; [done|].
  change (map matchEntry_of (populate s (matches u)))
    with (matchEntry_of <$> populate s (matches u)).
  rewrite <- list_fmap_compose. done.
Qed.

(** [X17] In a well-formed directory (as every writing handler keeps it),
    the matches route returns for an existing user one populated entry per
    id of user.matches, in that order, no user twice and never the user
    themselves; and every user listed has the first user in their own list
    of matches. *)
Theorem getMatches_mutual (s : Directory) (a : ObjectId) (ua : User) :
  relations_ok s → s !! a = Some ua →
  ∃ l,
    getMatches s a = Ok l ∧
    me_id <$> l = matches ua ∧
    NoDup (me_id <$> l) ∧ (a ∉ me_id <$> l) ∧
    ∀ b, b ∈ me_id <$> l →
      ∃ l', getMatches s b = Ok l' ∧ a ∈ me_id <$> l'.
Proof.
  intros (Hok & Hnd & Hmut) Ha.
  assert (∀ x ux, s !! x = Some ux → (populate s (matches ux)).*1 = matches ux)
    as Hpop.
  { intros x ux Hx. apply populate_present, Forall_forall. intros y Hy.
    destruct (Hmut _ _ _ Hx Hy) as (uy & Huy & _). by eexists. }
  destruct (getMatches s a) as [l|e] eqn:E;
    [|unfold getMatches in E; by rewrite Ha in E].
  destruct (getMatches_ids _ _ _ E) as (u & Hu & Hids).
  rewrite Ha in Hu. injection Hu as <-. rewrite (Hpop _ _ Ha) in Hids.
  exists l. rewrite Hids. split_and!; try done.
  - by apply (Hnd _ _ Ha).
  - by apply (Hok _ _ Ha).
  - intros b Hb. destruct (Hmut _ _ _ Ha Hb) as (ub & Hub & Hab).
    destruct (getMatches s b) as [l'|e] eqn:E';
      [|unfold getMatches in E'; by rewrite Hub in E'].
    exists l'. split; [done|].
    destruct (getMatches_ids _ _ _ E') as (u & Hu & ->).
    rewrite Hub in Hu. injection Hu as <-. by rewrite (Hpop _ _ Hub).
Qed.

Lemma matched_relations_ok : relations_ok alice_and_bob_matched.
Proof.
  assert (like campus 1 2 = Ok (alice_liked_bob, one_sided)) as H1
    by (vm_compute; reflexivity).
  assert (like alice_liked_bob 2 1 =
          Ok (alice_and_bob_matched,
              mutual_with 1 (set_matches [2%N] (set_likedUsers [2%N] alice))))
    as H2 by (vm_compute; reflexivity).
  eapply like_keeps_relations; [|exact H2].
  eapply like_keeps_relations; [|exact H1].
  exact campus_relations_ok.
Qed.

Lemma getMatches_mutual_witness :
  relations_ok alice_and_bob_matched ∧
  alice_and_bob_matched !! 1%N =
    Some (set_matches [2%N] (set_likedUsers [2%N] alice)) ∧
  ∃ l, getMatches alice_and_bob_matched 1 = Ok l ∧ me_id <$> l = [2%N].
Proof.
  split; [exact matched_relations_ok|]. split; [reflexivity|].
  destruct (getMatches_mutual alice_and_bob_matched 1 _
              matched_relations_ok eq_refl) as (l & H1 & H2 & _).
  exists l. split; [exact H1|exact H2].
Defined.

(** * The order of the candidates *)

Lemma NoDup_fst_filter {A B} (f : A * B → bool) (l : list (A * B)) :
  NoDup l.*1 → NoDup (List.filter f l).*1.
Proof.
  induction l as [|x l IH]; simpl; [done|].
  intros Hnd. apply NoDup_cons in Hnd as [Hx Hnd].
  destruct (f x); simpl; [|by apply IH].
  apply NoDup_cons. split; [|by apply IH].
  intros Hin. apply Hx.
  apply list_elem_of_fmap in Hin as (y & -> & Hy).
  apply list_elem_of_fmap. exists y. split; [done|].
  by apply list_elem_of_In, filter_In in Hy as [Hy%list_elem_of_In _].
Qed.

(** [X18] The candidates are returned most recently active first
    (lastActive descending), no user twice, and they are the top ten: a
    user who satisfies the match criteria and is not returned was active
    no later than each returned candidate, and then exactly ten candidates
    were returned. *)
Theorem getCandidates_ranked (near : Location → Z → Location → bool)
    (s : Directory) (userId : ObjectId) (res : list Candidate) :
  getCandidates near s userId = Ok res →
  StronglySorted (λ c1 c2, c_lastActive c2 ≤ c_lastActive c1)%Z res ∧
  NoDup (c_id <$> res) ∧
  ∀ currentUser id t,
    s !! userId = Some currentUser → s !! id = Some t →
    satisfies near (matchCriteria userId currentUser) (id, t) = true →
    id ∈ c_id <$> res ∨
    (length res = 10%nat ∧
     Forall (λ c, lastActive t ≤ c_lastActive c)%Z res).
Proof.
  intros H. apply getCandidates_Ok_inv in H as (cu & Hcu & _ & ->).
  unfold find_users.
  set (q := matchCriteria userId cu).
  set (found := List.filter (satisfies near q) (map_to_list s)).
  set (sorted := js_sort (λ a b, lastActive b.2 - lastActive a.2)%Z found).
  assert (StronglySorted (λ a b : ObjectId * User, lastActive b.2 ≤ lastActive a.2)%Z
            sorted) as Hsorted.
  { exact (js_sort_descending (λ d : ObjectId * User, lastActive d.2) found). }
  split_and!.
  - apply (StronglySorted_take _ _ 10) in Hsorted.
    induction Hsorted as [|x l Hs IH Hx]; simpl; constructor; [done|].
    apply Forall_forall. intros c Hc.
    apply list_elem_of_In, in_map_iff in Hc as (y & <- & Hy). simpl.
    rewrite Forall_forall in Hx. by apply Hx, list_elem_of_In.
  - change (map (candidate_of cu) (take 10 sorted))
      with (candidate_of cu <$> take 10 sorted).
    rewrite <- list_fmap_compose.
    change (c_id ∘ candidate_of cu) with (@fst ObjectId User).
    eapply sublist_NoDup; [|apply fmap_sublist, sublist_take].
    unfold sorted. rewrite js_sort_perm.
    apply NoDup_fst_filter, NoDup_fst_map_to_list.
  - intros cu' id t Hcu' Ht Hsat.
    rewrite Hcu in Hcu'. injection Hcu' as <-.
    assert ((id, t) ∈ sorted) as Hin.
    { apply elem_of_js_sort, list_elem_of_In, filter_In. split; [|done].
      by apply list_elem_of_In, elem_of_map_to_list. }
    rewrite <- (take_drop 10 sorted) in Hin, Hsorted.
    apply elem_of_app in Hin as [Hin|Hin].
    + left. apply list_elem_of_fmap. exists (candidate_of cu (id, t)).
      split; [done|]. apply list_elem_of_In, in_map, list_elem_of_In, Hin.
    + right. split.
      * rewrite length_map, length_take.
        destruct (decide (length sorted ≤ 10)%nat) as [Hle|]; [|lia].
        rewrite drop_ge in Hin by done. by apply elem_of_nil in Hin.
      * apply Forall_forall. intros c Hc.
        apply list_elem_of_In, in_map_iff in Hc as (y & <- & Hy). simpl.
        apply list_elem_of_In in Hy.
        exact (StronglySorted_app_1_elem_of _ _ _ _ _ Hsorted Hy Hin).
Qed.

Lemma campus_candidates (near : Location → Z → Location → bool) :
  getCandidates near campus 1 = Ok [candidate_of alice (2%N, bob)].
Proof. vm_compute. reflexivity. Qed.

Lemma getCandidates_ranked_witness :
  getCandidates near_great_circle campus 1 = Ok [candidate_of alice (2%N, bob)] ∧
  NoDup (c_id <$> [candidate_of alice (2%N, bob)]).
Proof.
  split; [exact (campus_candidates near_great_circle)|].
  exact (proj1 (proj2 (getCandidates_ranked near_great_circle campus 1 _
                         (campus_candidates near_great_circle)))).
Defined.

(** * Further properties of the chats collection *)

Lemma sendMessage_Ok_inv cs chatId requester body ty msgId t1 t2 t3 cs' m :
  sendMessage cs chatId requester body ty msgId t1 t2 t3 = Ok (cs', m) →
  ∃ c,
    cs !! chatId = Some c ∧ requester ∈ participants c ∧
    length (participants c) = 2%nat ∧
    (1 ≤ String.length body ≤ 1000)%nat ∧
    m = {| msg_id := msgId; sender := requester; content := body;
           messageType := ty;
           readBy := [{| user := requester; readAt := t1 |}];
           createdAt := t3 |} ∧
    cs' = <[chatId :=
              set_lastMessage
                (Some {| lm_content := Some body; lm_sender := Some requester;
                         lm_timestamp := t2 |})
                (set_messages (messages c ++ [m]) c)]> cs.
Proof.
  unfold sendMessage. intros H.
  case_bool_decide as Hlen; [|done]. cbn [negb] in H.
  destruct (cs !! chatId) as [c|] eqn:Hc; [|done].
  destruct (includes (participants c) requester) eqn:Hp; [|done].
  apply includes_true in Hp. cbn [negb] in H.
  destruct (save_chat _ _ _) as [cs1|] eqn:Hs; [|done].
  apply save_chat_Ok in Hs as [Hl ->]. simplify_eq.
  by exists c.
Qed.

(** Every chat of the collection a handler leaves is new, or a chat of the
    collection it found, unchanged or changed by one [chat_change]. *)
Lemma chat_step_chats cs cs' :
  chat_step cs cs' →
  ∀ i c', cs' !! i = Some c' →
    (∃ a b now, c' = new_chat [a; b] now) ∨
    cs !! i = Some c' ∨
    ∃ c, cs !! i = Some c ∧ chat_change c c'.
Proof.
  intros [us a b newId now doc H|chatId a body ty msgId t1 t2 t3 m H
          |chatId a clock H|chatId messageId a H] i c' Hi.
  - apply getOrCreate_Ok_inv in H as (ua & ub & _ & _ & _ & H).
    destruct H as [[_ ->]|(_ & _ & _ & ->)]; [by right; left|].
    rewrite lookup_insert in Hi. case_decide; simplify_eq.
    + left. by eexists _, _, _.
    + by right; left.
  - apply sendMessage_Ok_inv in H as (c & Hc & Hp & _ & Hlen & -> & ->).
    rewrite lookup_insert in Hi. case_decide; simplify_eq; [|by right; left].
    right; right. exists c. split; [done|]. by constructor.
  - apply markRead_Ok_inv in H as (c & Hc & Hp & _ & ->).
    rewrite lookup_insert in Hi. case_decide; simplify_eq; [|by right; left].
    right; right. exists c. split; [done|]. by constructor.
  - apply deleteMessage_Ok_inv in H as (c & m & Hc & _ & _ & _ & _ & ->).
    rewrite lookup_insert in Hi. case_decide; simplify_eq; [|by right; left].
    right; right. exists c. split; [done|]. by constructor.
Qed.

(** A property of single chats that holds for new chats and is kept by
    every change holds in every reachable collection. *)
Lemma reachable_invariant (P : Chat → Prop) :
  (∀ a b now, P (new_chat [a; b] now)) →
  (∀ c c', chat_change c c' → P c → P c') →
  ∀ cs, reachable cs → map_Forall (λ _, P) cs.
Proof.
  intros Hnew Hchange cs H. unfold reachable in H.
  refine (rtc_ind_r (R := chat_step) (λ cs, map_Forall (λ _, P) cs) ∅ _ _ cs H).
  - intros i c Hi. by rewrite lookup_empty in Hi.
  - intros cs1 cs2 _ Hstep IH i c' Hi.
    destruct (chat_step_chats _ _ Hstep _ _ Hi)
      as [(a & b & now & ->)|[Hsame|(c & Hc & Hch)]].
    + apply Hnew.
    + by apply (IH i).
    + eapply Hchange; [exact Hch|]. by apply (IH i).
Qed.

Lemma last_imap {A B} (f : nat → A → B) (l : list A) :
  last (imap f l) = f (length l - 1)%nat <$> last l.
Proof.
  revert f. induction l as [|x l IH]; intros f; [done|].
  destruct l as [|y l]; [done|].
  change (imap f (x :: y :: l)) with (f 0%nat x :: imap (f ∘ S) (y :: l)).
  change (last (x :: y :: l)) with (last (y :: l)).
  change (last (f 0%nat x :: imap (f ∘ S) (y :: l)))
    with (last (imap (f ∘ S) (y :: l))).
  rewrite IH. simpl. by rewrite Nat.sub_0_r.
Qed.

Lemma visit_fields requester clock i m :
  msg_id (visit requester clock i m) = msg_id m ∧
  sender (visit requester clock i m) = sender m ∧
  content (visit requester clock i m) = content m ∧
  messageType (visit requester clock i m) = messageType m ∧
  createdAt (visit requester clock i m) = createdAt m ∧
  readBy m `prefix_of` readBy (visit requester clock i m).
Proof.
  unfold visit. destruct (hasRead requester m); simpl; split_and!; try done.
  by eexists.
Qed.

Lemma chat_change_preview c c' : chat_change c c' → preview_ok c → preview_ok c'.
Proof.
  intros [a body ty msgId t1 t2 t3 Hp Hlen|a clock Hp|messageId] Hok;
    unfold preview_ok in *.
  - simpl. rewrite last_snoc. simpl. by eexists.
  - simpl. rewrite last_imap. destruct (last (messages c)) as [m|]; simpl; [|done].
    destruct (visit_fields a clock (length (messages c) - 1) m)
      as (_ & -> & -> & _). done.
  - unfold refresh_lastMessage. simpl.
    destruct (last (pull messageId (messages c))) as [m|] eqn:E; simpl; rewrite E.
    + by eexists.
    + by left.
Qed.

(** [X20] In every chats collection the chat handlers can produce from the
    empty one, the lastMessage of a chat shows the content and the sender
    of the last message of its messages array (its timestamp aside), and a
    chat without messages has lastMessage null or the empty preview it was
    created with. *)
Theorem reachable_previews (cs : Chats) (chatId : ObjectId) (chat : Chat) :
  reachable cs → cs !! chatId = Some chat → preview_ok chat.
Proof.
  intros H Hc.
  refine (reachable_invariant preview_ok _ chat_change_preview cs H chatId chat Hc).
  intros a b now. right. by eexists.
Qed.

Lemma reachable_previews_witness :
  reachable talk ∧ talk !! 7%N = Some conversation ∧ preview_ok conversation.
Proof.
  split; [exact talk_reachable|]. split; [reflexivity|].
  exact (reachable_previews talk 7 conversation talk_reachable eq_refl).
Defined.






(** ** One chat, whoever asks *)

Lemma find_pointwise {A} (f g : A → bool) (l : list A) :
  (∀ x, f x = g x) → List.find f l = List.find g l.
Proof.
  intros Hfg. induction l as [|x l IH]; simpl; [done|].
  by rewrite Hfg, IH.
Qed.

Lemma findOne_all_swap cs a b : findOne_all cs [b; a] = findOne_all cs [a; b].
Proof.
  unfold findOne_all. apply find_pointwise. intros doc. simpl.
  rewrite !andb_true_r. apply andb_comm.
Qed.

Lemma findOne_all_created cs a b newId now :
  findOne_all cs [a; b] = None →
  findOne_all (<[newId := new_chat [a; b] now]> cs) [a; b] =
    Some (newId, new_chat [a; b] now).
Proof.
  intros Hnone.
  destruct (findOne_all_is_Some (<[newId := new_chat [a; b] now]> cs) [a; b] newId
              (new_chat [a; b] now)) as [[i c] Hdoc].
  { by rewrite lookup_insert_eq. }
  { done. }
  rewrite Hdoc. f_equal.
  apply findOne_all_Some in Hdoc as [Hl Hall]. simpl in Hl, Hall.
  rewrite lookup_insert in Hl. case_decide; simplify_eq; [done|].
  destruct (findOne_all_None _ _ _ _ Hnone Hl) as (x & Hx & Hn).
  exfalso. by apply Hn, Hall.
Qed.

(** [X19] In a well-formed directory, once get-or-create chat succeeded
    for A asking for B, a later request of B for A and a repeated request
    of A for B both return that same chat and write nothing, whatever new
    id and time the request would have used. *)
Theorem getOrCreate_either_side (us : Directory) (cs cs1 : Chats)
    (a b newId : ObjectId) (now : Time) (doc : ObjectId * Chat) :
  relations_ok us →
  getOrCreate us cs a b newId now = Ok (cs1, doc) →
  ∀ (newId' : ObjectId) (now' : Time),
    getOrCreate us cs1 b a newId' now' = Ok (cs1, doc) ∧
    getOrCreate us cs1 a b newId' now' = Ok (cs1, doc).
Proof.
  intros (_ & _ & Hmut) H newId' now'.
  apply getOrCreate_Ok_inv in H as (ua & ub & Ha & Hb & Hm & H).
  destruct (Hmut _ _ _ Ha Hm) as (ub' & Hb' & Hm').
  rewrite Hb in Hb'. injection Hb' as <-.
  assert (findOne_all cs1 [a; b] = Some doc) as Hfound.
  { destruct H as [[Hf ->]|(Hn & _ & -> & ->)]; [done|].
    by apply findOne_all_created. }
  unfold getOrCreate. rewrite Ha, Hb.
  rewrite (proj2 (includes_true _ _) Hm), (proj2 (includes_true _ _) Hm').
  cbn [negb]. by rewrite findOne_all_swap, Hfound.
Qed.

Lemma getOrCreate_either_side_witness :
  relations_ok alice_and_bob_matched ∧
  getOrCreate alice_and_bob_matched ∅ 1 2 7 500 =
    Ok (first_chat, (7%N, new_chat [1%N; 2%N] 500)) ∧
  getOrCreate alice_and_bob_matched first_chat 2 1 8 900 =
    Ok (first_chat, (7%N, new_chat [1%N; 2%N] 500)).
Proof.
  assert (getOrCreate alice_and_bob_matched ∅ 1 2 7 500 =
          Ok (first_chat, (7%N, new_chat [1%N; 2%N] 500))) as H
    by (vm_compute; reflexivity).
  split; [exact matched_relations_ok|]. split; [exact H|].
  exact (proj1 (getOrCreate_either_side alice_and_bob_matched ∅ first_chat 1 2 7 500
                  _ matched_relations_ok H 8%N 900%Z)).
Defined.

(** ** Sending and deleting *)

Lemma pull_fresh messageId (l : list Message) :
  Forall (λ m, msg_id m ≠ messageId) l → pull messageId l = l.
Proof.
  induction 1 as [|m l Hm _ IH]; [done|].
  unfold pull in *. simpl. rewrite IH.
  by rewrite (proj2 (N.eqb_neq _ _) Hm).
Qed.

Lemma find_fresh messageId (l : list Message) (m : Message) :
  Forall (λ m, msg_id m ≠ messageId) l → msg_id m = messageId →
  List.find (λ m, (msg_id m =? messageId)%N) (l ++ [m]) = Some m.
Proof.
  intros Hl Hm. induction Hl as [|x l Hx _ IH]; simpl.
  - by rewrite (proj2 (N.eqb_eq _ _) Hm).
  - by rewrite (proj2 (N.eqb_neq _ _) Hx).
Qed.

(** [X22] Sending a message whose id is new in the chat and deleting it
    again (by its sender) restores the messages array and leaves the other
    chats, the participants and isActive unchanged; lastMessage is rebuilt
    from the last remaining message (content, sender, createdAt), or null
    when none remains. Nobody but the sender can delete it: the other
    participant gets 403 'You can only delete your own messages' and a
    non-participant 403 'Access denied'. *)
Theorem send_then_delete (cs cs1 : Chats) (chatId a msgId : ObjectId)
    (chat : Chat) (body : string) (ty : MessageType) (t1 t2 t3 : Time)
    (m : Message) :
  cs !! chatId = Some chat →
  Forall (λ m, msg_id m ≠ msgId) (messages chat) →
  sendMessage cs chatId a body ty msgId t1 t2 t3 = Ok (cs1, m) →
  (∀ other, other ≠ a → other ∈ participants chat →
     deleteMessage cs1 chatId msgId other = Err Forbidden) ∧
  (∀ stranger, stranger ∉ participants chat →
     deleteMessage cs1 chatId msgId stranger = Err Forbidden) ∧
  ∃ cs2 chat2,
    deleteMessage cs1 chatId msgId a = Ok cs2 ∧
    cs2 !! chatId = Some chat2 ∧
    (∀ i, i ≠ chatId → cs2 !! i = cs !! i) ∧
    participants chat2 = participants chat ∧
    messages chat2 = messages chat ∧
    isActive chat2 = isActive chat ∧
    lastMessage chat2 = lastMessage_of <$> last (messages chat).
Proof.
  intros Hc Hfresh H.
  apply sendMessage_Ok_inv in H as (c & Hc' & Hp & Hlen & _ & Hm & ->).
  rewrite Hc in Hc'. injection Hc' as <-.
  assert (msg_id m = msgId) as Hid by by rewrite Hm.
  assert (sender m = a) as Hsender by by rewrite Hm.
  pose proof (find_fresh _ _ _ Hfresh Hid) as Hfind.
  assert (pull msgId (messages chat ++ [m]) = messages chat) as Hpull.
  { unfold pull. rewrite List.filter_app. simpl.
    rewrite (proj2 (N.eqb_eq _ _) Hid). simpl. rewrite app_nil_r.
    by apply pull_fresh. }
  split_and!.
  - intros other Hne Hin. unfold deleteMessage.
    rewrite lookup_insert_eq. simpl participants.
    rewrite (proj2 (includes_true _ _) Hin). cbn [negb]. simpl messages.
    rewrite Hfind, Hsender.
    by rewrite (proj2 (N.eqb_neq _ _) (not_eq_sym Hne)).
  - intros stranger Hnot. unfold deleteMessage.
    rewrite lookup_insert_eq. simpl participants.
    by rewrite (proj2 (includes_false _ _) Hnot).
  - unfold deleteMessage. rewrite lookup_insert_eq. simpl participants.
    rewrite (proj2 (includes_true _ _) Hp). cbn [negb]. simpl messages.
    rewrite Hfind, Hsender, N.eqb_refl. cbn [negb]. rewrite Hpull.
    rewrite save_chat_two by (by rewrite refresh_lastMessage_participants).
    eexists _, _. split; [done|]. rewrite lookup_insert_eq. split; [done|].
    split.
    { intros i Hi. by rewrite !lookup_insert_ne. }
    unfold refresh_lastMessage. simpl.
    by destruct (last (messages chat)).
Qed.

Lemma send_then_delete_witness :
  first_chat !! 7%N = Some (new_chat [1%N; 2%N] 500) ∧
  ∃ cs1 cs2 chat2,
    sendMessage first_chat 7 1 "hi Bob" text 101 1000 1000 1001 = Ok (cs1, hello) ∧
    deleteMessage cs1 7 101 2 = Err Forbidden ∧
    deleteMessage cs1 7 101 1 = Ok cs2 ∧
    cs2 !! 7%N = Some chat2 ∧ messages chat2 = [] ∧ lastMessage chat2 = None.
Proof.
  split; [reflexivity|].
  assert (∃ cs1, sendMessage first_chat 7 1 "hi Bob" text 101 1000 1000 1001 =
                 Ok (cs1, hello)) as [cs1 E]
    by (eexists; vm_compute; reflexivity).
  destruct (send_then_delete first_chat cs1 7 1 101 _ "hi Bob" text 1000 1000 1001
              hello eq_refl (Forall_nil_2 _) E)
    as (Hother & _ & cs2 & chat2 & Hdel & Hc2 & _ & _ & Hm & _ & Hl).
  exists cs1, cs2, chat2. split; [exact E|].
  split; [apply Hother; [discriminate|]; apply list_elem_of_In; simpl; tauto|].
  split; [exact Hdel|]. split; [exact Hc2|]. split; [exact Hm|exact Hl].
Defined.

(** ** Paging through a chat *)

Lemma fetch_pages_S cs chatId requester chat limit k :
  cs !! chatId = Some chat → requester ∈ participants chat → (0 < limit)%Z →
  fetch_pages cs chatId requester limit (S k) =
  fetch_pages cs chatId requester limit k ++
  [rev (take (Z.to_nat limit)
          (drop (k * Z.to_nat limit)
             (js_sort (descending createdAt) (messages chat))))].
Proof.
  intros Hc Hp Hl. unfold fetch_pages. rewrite seq_S, omap_app. f_equal.
  simpl. rewrite (listMessages_Ok _ _ _ _ _ _ Hc Hp).
  replace (Z.of_nat (S k) - 1)%Z with (Z.of_nat k) by lia.
  rewrite js_slice_take_drop by lia.
  by replace (Z.to_nat (Z.of_nat k * limit)) with (k * Z.to_nat limit)%nat by lia.
Qed.

(** [X23] For a participant and a positive page size, the pages 1..k
    fetched one after the other are, each read newest first and joined,
    exactly the first k * limit messages of the newest-first order: no
    message is skipped or repeated, and once k * limit covers the chat
    every message has been delivered once; hasMore of page k is false
    exactly then; page 0 is empty and has hasMore = true whenever the chat
    has a message. *)
Theorem fetch_pages_cover (cs : Chats) (chatId requester : ObjectId)
    (chat : Chat) (limit : Z) (k : nat) :
  cs !! chatId = Some chat → requester ∈ participants chat → (0 < limit)%Z →
  let newest_first := js_sort (descending createdAt) (messages chat) in
  let fetched := fetch_pages cs chatId requester limit k in
  length fetched = k ∧
  concat (@rev Message <$> fetched) = take (k * Z.to_nat limit) newest_first ∧
  ((length (messages chat) ≤ k * Z.to_nat limit)%nat →
   concat (@rev Message <$> fetched) ≡ₚ messages chat) ∧
  (∀ page_messages hasMore,
     listMessages cs chatId requester (Z.of_nat k) limit =
       Ok (page_messages, hasMore) →
     hasMore = false ↔ (length (messages chat) ≤ k * Z.to_nat limit)%nat) ∧
  listMessages cs chatId requester 0 limit =
    Ok ([], bool_decide (0 < length (messages chat))%nat).
Proof.
  intros Hc Hp Hl newest_first fetched.
  assert (length fetched = k ∧
          concat (@rev Message <$> fetched) = take (k * Z.to_nat limit) newest_first)
    as [Hlen Hcat].
  { unfold fetched. induction k as [|k [IH1 IH2]]; [done|].
    rewrite (fetch_pages_S _ _ _ _ _ _ Hc Hp Hl).
    rewrite length_app, fmap_app, concat_app, IH1, IH2. simpl.
    split; [lia|]. rewrite rev_involutive, app_nil_r.
    fold newest_first. rewrite take_take_drop. f_equal. lia. }
  split_and!; try done.
  - intros Hall. rewrite Hcat.
    rewrite take_ge by (unfold newest_first; rewrite js_sort_length; lia).
    apply js_sort_perm.
  - intros msgs more. rewrite (listMessages_Ok _ _ _ _ _ _ Hc Hp).
    intros [= _ <-]. rewrite bool_decide_eq_false. lia.
  - rewrite (listMessages_Ok _ _ _ _ _ _ Hc Hp). f_equal. f_equal.
    + unfold js_slice.
      destruct (Z.ltb_spec ((0 - 1) * limit) 0) as [_|]; [|lia].
      replace ((0 - 1) * limit + limit)%Z with 0%Z by lia. simpl (0 <? 0)%Z.
      cbv iota. rewrite Z.min_l by lia.
      replace (Z.to_nat (0 - _)) with 0%nat by lia. done.
    + apply bool_decide_ext. lia.
Qed.

Lemma fetch_pages_cover_witness :
  archive !! 9%N = Some long_conversation ∧
  2%N ∈ participants long_conversation ∧ (0 < 50)%Z ∧
  concat (@rev Message <$> fetch_pages archive 9 2 50 3) ≡ₚ messages long_conversation.
Proof.
  assert (2%N ∈ participants long_conversation) as Hp
    by (apply list_elem_of_In; simpl; tauto).
  split; [reflexivity|]. split; [exact Hp|]. split; [reflexivity|].
  apply (fetch_pages_cover archive 9 2 long_conversation 50 3 eq_refl Hp eq_refl).
  vm_compute. lia.
Defined.

(** ** Reading *)



(** ** The list of chats *)

Section SortFacts.
Context {A : Type} (cmp : A → A → Z).
Hypothesis cmp_total : ∀ x y, (cmp x y ≤ 0 ∨ cmp y x ≤ 0)%Z.
Hypothesis cmp_trans : ∀ x y z, (cmp x y ≤ 0 → cmp y z ≤ 0 → cmp x z ≤ 0)%Z.

Lemma js_insert_sorted x l :
  StronglySorted (λ a b, cmp a b ≤ 0)%Z l →
  StronglySorted (λ a b, cmp a b ≤ 0)%Z (js_insert cmp x l).
Proof.
  induction 1 as [|y l Hs IH Hy]; simpl.
  - repeat constructor.
  - destruct (Z.leb_spec (cmp x y) 0) as [Hle|Hgt].
    + constructor; [by constructor|].
      constructor; [done|]. eapply Forall_impl; [exact Hy|].
      simpl. intros z Hz. by eapply cmp_trans.
    + constructor; [done|].
      rewrite js_insert_perm. constructor; [|done].
      destruct (cmp_total x y); [lia|done].
Qed.

Lemma js_sort_sorted l : StronglySorted (λ a b, cmp a b ≤ 0)%Z (js_sort cmp l).
Proof.
  induction l as [|x l IH]; simpl; [constructor|]. by apply js_insert_sorted.
Qed.

End SortFacts.

Lemma latest_first_spec (a b : option Time) :
  (latest_first a b ≤ 0)%Z ↔ ∀ y, b = Some y → ∃ x, a = Some x ∧ (y ≤ x)%Z.
Proof.
  destruct a as [x|], b as [y|]; simpl; split.
  - intros H ? [= <-]. exists x. split; [done|lia].
  - intros H. destruct (H y eq_refl) as (? & [= <-] & ?). lia.
  - done.
  - lia.
  - lia.
  - intros H. by destruct (H y eq_refl) as (? & ? & _).
  - done.
  - lia.
Qed.

Lemma find_chats_elem cs userId doc :
  doc ∈ find_chats cs userId ↔
  cs !! doc.1 = Some doc.2 ∧ userId ∈ participants doc.2 ∧ isActive doc.2 = true.
Proof.
  unfold find_chats. rewrite elem_of_js_sort, list_elem_of_In, filter_In.
  rewrite <- list_elem_of_In, andb_true_iff, includes_true.
  destruct doc as [i c]. by rewrite elem_of_map_to_list.
Qed.

(** [X25] The chat list of a user holds exactly the active chats the user
    participates in, each once, ordered by lastMessage.timestamp
    descending with chats without lastMessage last; each entry carries the
    chat's lastMessage, and for a chat whose participants are the user and
    one other existing user, otherUser is that user's populated summary. *)
Theorem listChats_latest_first (us : Directory) (cs : Chats) (userId : ObjectId) :
  let entries := listChats us cs userId in
  (∀ i c, cs !! i = Some c →
     i ∈ ce_id <$> entries ↔ userId ∈ participants c ∧ isActive c = true) ∧
  NoDup (ce_id <$> entries) ∧
  StronglySorted
    (λ e1 e2, ∀ l2, ce_lastMessage e2 = Some l2 →
        ∃ l1, ce_lastMessage e1 = Some l1 ∧ (lm_timestamp l2 ≤ lm_timestamp l1)%Z)
    entries ∧
  ∀ e, e ∈ entries →
    ∃ c, cs !! ce_id e = Some c ∧ ce_lastMessage e = lastMessage c ∧
         ∀ other uu uo,
           participants c = [userId; other] ∨ participants c = [other; userId] →
           other ≠ userId → us !! userId = Some uu → us !! other = Some uo →
           otherUser e = Some (matchedUser_of other uo).
Proof.
  intros entries. unfold entries, listChats.
  change (map (chatEntry_of us userId) (find_chats cs userId))
    with (chatEntry_of us userId <$> find_chats cs userId).
  split_and!.
  - intros i c Hc. rewrite <- list_fmap_compose.
    change (ce_id ∘ chatEntry_of us userId) with (@fst ObjectId Chat).
    rewrite list_elem_of_fmap. split.
    + intros ([j c'] & -> & Hdoc). apply find_chats_elem in Hdoc as (Hl & Hp & Ha).
      simpl in *. rewrite Hc in Hl. by injection Hl as <-.
    + intros [Hp Ha]. exists (i, c). split; [done|]. by apply find_chats_elem.
  - rewrite <- list_fmap_compose.
    change (ce_id ∘ chatEntry_of us userId) with (@fst ObjectId Chat).
    unfold find_chats. rewrite js_sort_perm.
    apply NoDup_fst_filter, NoDup_fst_map_to_list.
  - unfold find_chats.
    set (cmp := λ a b : ObjectId * Chat,
                  latest_first (timestamp_of a.2) (timestamp_of b.2)).
    set (found := List.filter _ _).
    assert (StronglySorted (λ a b, cmp a b ≤ 0)%Z (js_sort cmp found)) as Hs.
    { apply js_sort_sorted.
      - intros x y. unfold cmp.
        destruct (timestamp_of x.2), (timestamp_of y.2); simpl; lia.
      - intros x y z. unfold cmp.
        destruct (timestamp_of x.2), (timestamp_of y.2), (timestamp_of z.2);
          simpl; lia. }
    induction Hs as [|x l Hs IH Hx]; simpl; constructor; [done|].
    apply Forall_forall. intros e He.
    apply list_elem_of_fmap in He as (y & -> & Hy).
    rewrite Forall_forall in Hx. specialize (Hx _ Hy).
    unfold cmp in Hx. rewrite latest_first_spec in Hx. simpl.
    intros l2 Hl2. destruct (Hx (lm_timestamp l2)) as (t & Ht & Hle).
    { unfold timestamp_of. by rewrite Hl2. }
    unfold timestamp_of in Ht. destruct (lastMessage x.2) as [l1|]; [|done].
    exists l1. split; [done|]. injection Ht as <-. done.
  - intros e He. apply list_elem_of_fmap in He as ([i c] & -> & Hdoc).
    apply find_chats_elem in Hdoc as (Hl & Hp & Ha). simpl in *.
    exists c. split; [done|]. split; [done|].
    intros other uu uo Hps Hne Hu Ho. unfold populate.
    destruct Hps as [-> | ->]; simpl; rewrite Hu, Ho; simpl.
    + rewrite N.eqb_refl. simpl.
      by rewrite (proj2 (N.eqb_neq _ _) Hne).
    + by rewrite (proj2 (N.eqb_neq _ _) Hne).
Qed.

(** * The university of an email address *)

Lemma split_not_nil sep s : split sep s ≠ [].
Proof. destruct s as [|c s]; simpl; [done|]. destruct (Ascii.eqb c sep); [done|].
  by destruct (split sep s). Qed.

Lemma split_no_separator sep s :
  sep ∉ String.list_ascii_of_string s → split sep s = [s].
Proof.
  induction s as [|c s IH]; simpl; [done|]. intros Hn.
  apply not_elem_of_cons in Hn as [Hne Hn].
  rewrite (proj2 (Ascii.eqb_neq _ _)) by done. by rewrite IH.
Qed.

Lemma split_append sep s1 s2 :
  sep ∉ String.list_ascii_of_string s1 →
  split sep (s1 +:+ String sep s2) = s1 :: split sep s2.
Proof.
  induction s1 as [|c s IH]; simpl; intros Hn.
  - by rewrite Ascii.eqb_refl.
  - apply not_elem_of_cons in Hn as [Hne Hn].
    rewrite (proj2 (Ascii.eqb_neq _ _)) by done. by rewrite IH.
Qed.

(** [X26] For an email name@domain in which neither name nor domain
    contains '@', getUniversityFromEmail returns domain; for a string
    without '@' it returns undefined; and when a further '@...' follows
    the domain it still returns only the text between the first and the
    second '@'. *)
Theorem getUniversityFromEmail_domain (name domain : string) :
  at_sign ∉ String.list_ascii_of_string name →
  at_sign ∉ String.list_ascii_of_string domain →
  getUniversityFromEmail (name +:+ String at_sign domain) = Some domain ∧
  getUniversityFromEmail name = None ∧
  ∀ rest,
    getUniversityFromEmail
      (name +:+ String at_sign (domain +:+ String at_sign rest)) = Some domain.
Proof.
  intros Hn Hd. unfold getUniversityFromEmail. split_and!.
  - by rewrite split_append, split_no_separator.
  - by rewrite split_no_separator.
  - intros rest. by rewrite !split_append.
Qed.

Lemma getUniversityFromEmail_domain_witness :
  getUniversityFromEmail "alice@uni.edu" = Some "uni.edu".
Proof.
  refine (proj1 (getUniversityFromEmail_domain "alice" "uni.edu" _ _));
    refine (bool_decide_unpack _ _); vm_compute; exact I.
Defined.

(** * The range of the haversine distance *)

Module GeoRange.
Import Geo.
Local Open Scope R_scope.








End GeoRange.


(** * Candidates and the completeness flag *)

(** [X29] In a directory whose profileCompleted flags are accurate (as
    every writing handler keeps them), every candidate returned by the
    candidate query has non-empty first name, last name and bio, a non-
    zero age and at least one photo, and that candidate's own candidate
    query is not refused as incomplete. *)
Theorem candidates_are_complete (near : Location → Z → Location → bool)
    (s : Directory) (userId : ObjectId) (res : list Candidate) :
  flags_ok s → getCandidates near s userId = Ok res →
  ∀ c, c ∈ res →
    c_firstName c ≠ EmptyString ∧ c_lastName c ≠ EmptyString ∧
    c_age c ≠ 0%Z ∧ c_bio c ≠ EmptyString ∧ c_photos c ≠ [] ∧
    ∃ res', getCandidates near s (c_id c) = Ok res'.
Proof.
  intros Hflags H c Hc.
  apply getCandidates_Ok_inv in H as (cu & Hcu & _ & ->).
  apply list_elem_of_In, in_map_iff in Hc as ([id t] & <- & Hdoc).
  apply list_elem_of_In, find_users_elem in Hdoc as [Ht Hsat].
  apply satisfies_profileCompleted in Hsat. simpl in *.
  rewrite (Hflags _ _ Ht) in Hsat.
  pose proof Hsat as Hcomplete.
  unfold isProfileComplete, truthy_string, truthy_number in Hsat.
  repeat (apply andb_prop in Hsat as [Hsat ?]).
  repeat match goal with
         | Hb : negb _ = true |- _ => apply negb_true_iff in Hb
         | Hb : bool_decide _ = false |- _ => apply bool_decide_eq_false in Hb
         | Hb : bool_decide _ = true |- _ => apply bool_decide_eq_true in Hb
         | Hb : (_ =? _)%Z = false |- _ => apply Z.eqb_neq in Hb
         end.
  split_and!; try done.
  - intros Hnil. rewrite Hnil in *. simpl in *. lia.
  - unfold getCandidates. rewrite Ht, Hcomplete. by eexists.
Qed.

Lemma candidates_are_complete_witness :
  flags_ok campus ∧
  getCandidates near_great_circle campus 1 = Ok [candidate_of alice (2%N, bob)] ∧
  ∃ res', getCandidates near_great_circle campus 2 = Ok res'.
Proof.
  split; [exact campus_flags_ok|].
  split; [exact (campus_candidates near_great_circle)|].
  refine (proj2 (proj2 (proj2 (proj2 (proj2
            (candidates_are_complete near_great_circle campus 1 _
               campus_flags_ok (campus_candidates near_great_circle)
               (candidate_of alice (2%N, bob)) _)))))).
  apply list_elem_of_In. simpl. tauto.
Defined.

(** * A message that was just sent *)

Lemma js_sort_newest (l : list Message) (m : Message) :
  Forall (λ x, createdAt x < createdAt m)%Z l →
  js_sort (descending createdAt) (l ++ [m]) =
  m :: js_sort (descending createdAt) l.
Proof.
  induction 1 as [|x l Hx _ IH]; [done|].
  change (js_sort (descending createdAt) ((x :: l) ++ [m]))
    with (js_insert (descending createdAt) x
            (js_sort (descending createdAt) (l ++ [m]))).
  rewrite IH. simpl.
  unfold descending at 1.
  destruct (Z.leb_spec (createdAt m - createdAt x) 0); [lia|done].
Qed.

(** [X30] After a message is sent and saved with a createdAt later than
    that of every message of the chat, page 1 of the chat, for any
    participant and any page size of at least 1, ends with that message;
    it carries the given content and the sender, and it is marked read for
    the sender and for nobody else. *)
Theorem sent_message_is_newest (cs cs1 : Chats) (chatId a msgId : ObjectId)
    (chat : Chat) (body : string) (ty : MessageType) (t1 t2 t3 : Time)
    (m : Message) (reader : ObjectId) (limit : Z) :
  cs !! chatId = Some chat →
  Forall (λ x, createdAt x < t3)%Z (messages chat) →
  sendMessage cs chatId a body ty msgId t1 t2 t3 = Ok (cs1, m) →
  reader ∈ participants chat → (1 ≤ limit)%Z →
  ∃ page_messages hasMore,
    listMessages cs1 chatId reader 1 limit = Ok (page_messages, hasMore) ∧
    last page_messages = Some m ∧
    content m = body ∧ sender m = a ∧
    (hasRead reader m = true ↔ reader = a).
Proof.
  intros Hc Hold H Hreader Hlimit.
  apply sendMessage_Ok_inv in H as (c & Hc' & Hp & Hlen & _ & Hm & ->).
  rewrite Hc in Hc'. injection Hc' as <-.
  assert (createdAt m = t3) as Ht3 by by rewrite Hm.
  erewrite listMessages_Ok; [|by rewrite lookup_insert_eq|done].
  eexists _, _. split; [done|]. simpl messages.
  rewrite js_sort_newest by by rewrite Ht3.
  replace ((1 - 1) * limit)%Z with 0%Z by lia.
  rewrite js_slice_take_drop by lia. simpl drop.
  destruct (Z.to_nat limit) as [|n] eqn:En; [lia|].
  simpl take.
  change (rev (m :: take n (js_sort (descending createdAt) (messages chat))))
    with (rev (take n (js_sort (descending createdAt) (messages chat))) ++ [m]).
  rewrite last_snoc. split; [done|].
  rewrite Hm. simpl. split; [done|]. split; [done|].
  unfold hasRead. simpl. rewrite orb_false_r, N.eqb_eq. split; by intros ->.
Qed.

Lemma sent_message_is_newest_witness :
  first_chat !! 7%N = Some (new_chat [1%N; 2%N] 500) ∧
  ∃ cs1 page_messages hasMore,
    sendMessage first_chat 7 1 "hi Bob" text 101 1000 1000 1001 = Ok (cs1, hello) ∧
    listMessages cs1 7 2 1 50 = Ok (page_messages, hasMore) ∧
    last page_messages = Some hello.
Proof.
  split; [reflexivity|].
  assert (∃ cs1, sendMessage first_chat 7 1 "hi Bob" text 101 1000 1000 1001 =
                 Ok (cs1, hello)) as [cs1 E]
    by (eexists; vm_compute; reflexivity).
  assert (2%N ∈ participants (new_chat [1%N; 2%N] 500)) as Hp
    by (apply list_elem_of_In; simpl; tauto).
  destruct (sent_message_is_newest first_chat cs1 7 1 101 _ "hi Bob" text
              1000 1000 1001 hello 2 50 eq_refl (Forall_nil_2 _) E Hp
              ltac:(lia))
    as (msgs & more & H1 & H2 & _).
  exists cs1, msgs, more. split; [exact E|]. split; [exact H1|exact H2].
Defined.
